(** * Content automation pipeline: alert ingestor and post writer

    A shallow embedding of [scripts/automation.js] and
    [scripts/write-posts.js].

    - [Js]: the parts of the JavaScript runtime the scripts rely on: strings,
      the string methods they call, and a backtracking matcher for the
      regular expressions that occur in the sources.
    - [Sys]: untyped JSON values, rows of the two tables, the world the
      scripts act on, the opaque collaborators, and the monad in which the
      asynchronous functions are written.
    - [Automation]: the functions of [automation.js].
    - [WritePosts]: the functions of [write-posts.js].
    - [Described]: the text helpers as the specification words them, and
      the notions the claims are stated in.
    - [Samples]: concrete worlds and collaborators.
    - [Effects]: what a run leaves behind: the calls it makes, the rows it
      adds and the rows it changes.
    - [Shapes]: shapes of the texts that the helpers return.
    - [Scenes]: more worlds and collaborators.

    The proofs follow: the matcher, the text helpers, the row store, the
    post writer and the alert ingestor, each with the claims on it; then
    the properties that hold of the two jobs whatever the services do, and
    those of the texts they derive.

    Strings.  A JavaScript string is a sequence of UTF-16 code units.  The
    model keeps the code units U+0000..U+00FF, one [ascii] each, so a string
    is a [list ascii].  On that range [toLowerCase], the classes [\s] and
    [\w], the line terminators and [trim] are exactly as defined below. *)

From Stdlib Require Import Ascii String.
From Stdlib Require Import List ZArith Lia Bool Arith PeanoNat.
From Stdlib Require Import Sorting.Sorted Sorting.Permutation.
Import ListNotations.

Set Implicit Arguments.

(* ================================================================== *)
(** * The JavaScript runtime used by the scripts *)

Module Js.

Definition jsstring := list ascii.

(** A string literal of the source. *)
Definition str (s : string) : jsstring := list_ascii_of_string s.

Definition code (c : ascii) : nat := nat_of_ascii c.

Definition in_range (lo hi : nat) (c : ascii) : bool :=
  (lo <=? code c) && (code c <=? hi).

Definition is_char (n : nat) (c : ascii) : bool := code c =? n.

(** [\s]: TAB, LF, VT, FF, CR, SPACE and NO-BREAK SPACE. *)
Definition isSpace (c : ascii) : bool :=
  in_range 9 13 c || is_char 32 c || is_char 160 c.

(** [\w]: [A-Za-z0-9_]. *)
Definition isWord (c : ascii) : bool :=
  in_range 65 90 c || in_range 97 122 c || in_range 48 57 c || is_char 95 c.

(** Line terminators: LF and CR.  The pattern [.] matches every other
    character. *)
Definition isLineTerminator (c : ascii) : bool := is_char 10 c || is_char 13 c.

Definition dot (c : ascii) : bool := negb (isLineTerminator c).

(** Upper-case letters, ASCII and Latin-1 (U+00D7 is the multiplication sign). *)
Definition isUpper (c : ascii) : bool :=
  in_range 65 90 c || (in_range 192 222 c && negb (is_char 215 c)).

(** Lower-case letters with an upper-case partner in the same range. *)
Definition isLower (c : ascii) : bool :=
  in_range 97 122 c || (in_range 224 254 c && negb (is_char 247 c)).

Definition toLowerChar (c : ascii) : ascii :=
  if isUpper c then ascii_of_nat (code c + 32) else c.

(** [String.prototype.toLowerCase]. *)
Definition toLowerCase (s : jsstring) : jsstring := map toLowerChar s.

(** [Canonicalize] of a case-insensitive pattern without the [u] flag:
    the upper-case form when it is a single code unit.  The upper-case
    forms of U+00B5 and U+00FF lie outside the range of the model and are
    shared with no character inside it, so these two stay as they are. *)
Definition canonicalize (c : ascii) : ascii :=
  if isLower c then ascii_of_nat (code c - 32) else c.

Fixpoint dropWhile (p : ascii -> bool) (s : jsstring) : jsstring :=
  match s with
  | [] => []
  | c :: s' => if p c then dropWhile p s' else s
  end.

Fixpoint takeWhile (p : ascii -> bool) (s : jsstring) : jsstring :=
  match s with
  | [] => []
  | c :: s' => if p c then c :: takeWhile p s' else []
  end.

Definition trimStart (s : jsstring) : jsstring := dropWhile isSpace s.

Definition trimEnd (s : jsstring) : jsstring := rev (dropWhile isSpace (rev s)).

(** [String.prototype.trim]. *)
Definition trim (s : jsstring) : jsstring := trimEnd (trimStart s).

(** [s.substring(0, n)]. *)
Definition substring0 (n : nat) (s : jsstring) : jsstring := firstn n s.

(** ** Regular expressions

    Every quantifier in the sources applies to a single character or
    character class, and every capture group encloses one quantified class.
    A pattern is therefore a sequence of atoms: a class with the bounds of
    its quantifier (a plain character has bounds 1 and 1), whether the
    quantifier is greedy, and whether the atom is capture group 1. *)

Record atom := Atom {
  a_class : ascii -> bool;
  a_min : nat;
  a_max : option nat;
  a_greedy : bool;
  a_group : bool
}.

Definition regex := list atom.

(** May a quantifier with upper bound [hi] take one more character? *)
Definition may_take (hi : option nat) : bool :=
  match hi with Some 0 => false | _ => true end.

(** Is a count of [n] characters within the upper bound [hi]? *)
Definition le_max (n : nat) (hi : option nat) : bool :=
  match hi with None => true | Some h => n <=? h end.

Definition dec_max (hi : option nat) : option nat :=
  match hi with Some n => Some (pred n) | None => None end.

(** One quantified class followed by the continuation [k] of the pattern.
    A greedy quantifier first tries to take one more character and falls
    back to stopping; a lazy one first tries to stop.  The result is the
    text taken by the atom with the result of the continuation. *)
Fixpoint rep (R : Type) (p : ascii -> bool) (greedy : bool)
    (k : jsstring -> option R) (lo : nat) (hi : option nat) (s : jsstring)
    : option (jsstring * R) :=
  let stop :=
    match lo with
    | 0 => match k s with Some r => Some ([], r) | None => None end
    | S _ => None
    end in
  let more :=
    match s with
    | c :: s' =>
        if p c && may_take hi then
          match rep p greedy k (pred lo) (dec_max hi) s' with
          | Some (m, r) => Some (c :: m, r)
          | None => None
          end
        else None
    | [] => None
    end in
  if greedy
  then match more with Some r => Some r | None => stop end
  else match stop with Some r => Some r | None => more end.

(** A match of the whole pattern at the start of [s]: the text taken by
    each atom, and the input left after the match. *)
Fixpoint exec (r : regex) (s : jsstring) {struct r}
    : option (list jsstring * jsstring) :=
  match r with
  | [] => Some ([], s)
  | a :: r' =>
      match rep (a_class a) (a_greedy a) (exec r') (a_min a) (a_max a) s with
      | Some (m, (ms, rest)) => Some (m :: ms, rest)
      | None => None
      end
  end.

(** The match object of [String.prototype.match] for a pattern without
    the [g] flag. *)
Record match_result := Match {
  m_whole : jsstring;          (* [m[0]] *)
  m_group1 : jsstring          (* [m[1]], empty when the pattern has no group *)
}.

Fixpoint group1 (r : regex) (ms : list jsstring) : jsstring :=
  match r, ms with
  | a :: r', m :: ms' => if a_group a then m else group1 r' ms'
  | _, _ => []
  end.

(** [s.match(r)]: the leftmost position at which the pattern matches. *)
Fixpoint search (r : regex) (s : jsstring) : option match_result :=
  match exec r s with
  | Some (ms, _) => Some (Match (concat ms) (group1 r ms))
  | None =>
      match s with
      | [] => None
      | _ :: s' => search r s'
      end
  end.

(** [s.replace(r, by)] for a pattern with the [g] flag and a replacement
    without [$] references.  [skip] counts the characters that still belong
    to the match found last; an empty match is replaced and the scan moves
    on by one character. *)
Fixpoint replace_from (r : regex) (by_ : jsstring) (skip : nat) (s : jsstring)
    : jsstring :=
  match s with
  | [] =>
      match skip, exec r [] with
      | 0, Some _ => by_
      | _, _ => []
      end
  | c :: s' =>
      match skip with
      | S n => replace_from r by_ n s'
      | 0 =>
          match exec r s with
          | Some (ms, _) =>
              match length (concat ms) with
              | 0 => by_ ++ c :: replace_from r by_ 0 s'
              | S n => by_ ++ replace_from r by_ n s'
              end
          | None => c :: replace_from r by_ 0 s'
          end
      end
  end.

Definition replaceAll (r : regex) (by_ : jsstring) (s : jsstring) : jsstring :=
  replace_from r by_ 0 s.

(** [s.split(r)] for a pattern without groups.  [cur] is the piece being
    collected; a match that is empty and sits at the start of the piece
    does not split. *)
Fixpoint split_from (r : regex) (skip : nat) (cur : jsstring) (s : jsstring)
    : list jsstring :=
  match s with
  | [] => [cur]
  | c :: s' =>
      match skip with
      | S n => split_from r n cur s'
      | 0 =>
          match exec r s with
          | Some (ms, _) =>
              match length (concat ms), cur with
              | 0, [] => split_from r 0 [c] s'
              | 0, _ => cur :: split_from r 0 [c] s'
              | S n, _ => cur :: split_from r n [] s'
              end
          | None => split_from r 0 (cur ++ [c]) s'
          end
      end
  end.

Definition split (r : regex) (s : jsstring) : list jsstring :=
  match s with
  | [] => match exec r [] with Some _ => [] | None => [[]] end
  | _ => split_from r 0 [] s
  end.

(** *** Building patterns *)

Definition one (p : ascii -> bool) : atom := Atom p 1 (Some 1) true false.
Definition star (p : ascii -> bool) : atom := Atom p 0 None true false.
Definition plus (p : ascii -> bool) : atom := Atom p 1 None true false.
Definition opt (p : ascii -> bool) : atom := Atom p 0 (Some 1) true false.
Definition between (lo hi : nat) (p : ascii -> bool) : atom :=
  Atom p lo (Some hi) true false.
Definition lazy (a : atom) : atom :=
  Atom (a_class a) (a_min a) (a_max a) false (a_group a).
Definition group (a : atom) : atom :=
  Atom (a_class a) (a_min a) (a_max a) (a_greedy a) true.

(** A literal character. *)
Definition chr (c : ascii) : ascii -> bool := Ascii.eqb c.

(** A literal character under the [i] flag. *)
Definition chr_i (c : ascii) : ascii -> bool :=
  fun x => Ascii.eqb (canonicalize x) (canonicalize c).

Definition lit (s : string) : regex := map (fun c => one (chr c)) (str s).
Definition lit_i (s : string) : regex := map (fun c => one (chr_i c)) (str s).

Definition neg (p : ascii -> bool) : ascii -> bool := fun c => negb (p c).

End Js.

(* ================================================================== *)
(** * Values, rows, the world and the collaborators *)

Module Sys.
Import Js.

(** ** Untyped values

    What [JSON.parse] returns and what the columns filled from it hold.
    Numbers that occur in rows are kept as integers: the scripts only pass
    them on, and the store only compares them. *)

#[warnings="-register-all"]
Inductive jsval :=
| JUndefined
| JNull
| JBool (b : bool)
| JNum (z : Z)
| JStr (s : jsstring)
| JArr (items : list jsval)
| JObj (fields : list (jsstring * jsval)).

(** An exception value: [error.message] is all the scripts read. *)
Inductive error :=
| Error (message : jsstring)
| TypeError (message : jsstring).

Definition message (e : error) : jsstring :=
  match e with Error m => m | TypeError m => m end.

Definition streqb (a b : jsstring) : bool :=
  if list_eq_dec ascii_dec a b then true else false.

(** [!!v] *)
Definition truthy (v : jsval) : bool :=
  match v with
  | JUndefined | JNull => false
  | JBool b => b
  | JNum z => negb (z =? 0)%Z
  | JStr s => match s with [] => false | _ :: _ => true end
  | JArr _ | JObj _ => true
  end.

Fixpoint lookup (k : jsstring) (fields : list (jsstring * jsval)) : jsval :=
  match fields with
  | [] => JUndefined
  | (k', v) :: rest => if streqb k k' then v else lookup k rest
  end.

(** [v.k] for the keys the scripts read (none of them is a built-in
    property): a [TypeError] on [null] and [undefined], the field of an
    object, [undefined] on everything else. *)
Definition get_prop (k : string) (v : jsval) : error + jsval :=
  match v with
  | JUndefined | JNull =>
      inl (TypeError (str "Cannot read properties of null or undefined"))
  | JObj fields => inr (lookup (str k) fields)
  | _ => inr JUndefined
  end.

(** The receiver of a string method: anything but a string has no such
    method, and the call throws. *)
Definition as_string (v : jsval) : error + jsstring :=
  match v with
  | JStr s => inr s
  | _ => inl (TypeError (str "not a function"))
  end.

(** ** Records *)

(** What the mail parser hands over for one message. *)
Record Email := {
  e_subject : option jsstring;
  e_text : option jsstring;
  e_html : option jsstring;
  e_date : option jsstring       (* the date, as [toISOString] prints it *)
}.

Record Alert := {
  al_query : jsstring;
  al_url : jsstring;
  al_title : jsstring;
  al_snippet : jsstring;
  al_date : option jsstring
}.

(** The columns of [content_ideas] other than the id. *)
Record ContentIdea := {
  title : jsstring;
  slug : jsstring;
  source : jsstring;
  topic : jsval;
  urgency : jsval;
  alert_query : jsstring;
  alert_date : option jsstring;
  original_url : jsstring;
  source_title : jsstring;
  source_snippet : jsstring;
  target_keywords : jsval;
  target_audience : jsval;
  search_intent : jsval;
  suggested_title : jsval;
  suggested_outline : jsval;
  word_count_estimate : jsval;
  seo_priority_score : jsval;
  status : jsstring
}.

(** A row of [content_ideas] as the writer reads it: [idea.id] and the
    columns. *)
Definition idea := (nat * ContentIdea)%type.
Definition id (i : idea) : nat := fst i.
Definition cols (i : idea) : ContentIdea := snd i.

Record BlogPost := {
  bp_title : jsval;
  bp_slug : jsstring;
  bp_excerpt : jsstring;
  bp_content : jsstring;
  bp_meta_title : jsval;
  bp_meta_description : jsstring;
  bp_keywords : jsval;
  bp_category : jsval;
  bp_category_slug : option jsstring;
  bp_reading_time : nat;
  bp_author_name : jsstring;
  bp_status : jsstring;
  bp_source_idea_id : nat;
  bp_created_at : jsstring;
  bp_updated_at : jsstring
}.

Record Message := {
  uid : nat;
  from : jsstring;
  seen : bool;
  email : Email
}.

(** ** Collaborators *)

Inductive mail_op :=
| Connect | MailboxOpen | Search | FetchOne (u : nat) | Parse (u : nat)
| FlagsAdd (u : nat) | Logout.

(** A request to [openai.chat.completions.create]; the prompt text is a
    function of these arguments. *)
Inductive chat_request :=
| IdeaFromAlert (a : Alert)
| PostFromIdea (i : idea)
| MetaFrom (title : jsval) (preview : jsstring).

Inductive store_op :=
| SelectPending
| InsertIdea (row : ContentIdea)
| InsertPost (row : BlogPost)
| UpdateProcessed (idea_id : nat).

(** How the services answer.  The first argument is the number of calls
    made so far, so that the same call may be answered differently each
    time.  [new Imap({...})] applies the default export of the mail library
    as a constructor: it throws, as it does when that export is no
    constructor, or yields the client.  A call on the mail session, the mail
    parser among them, throws or goes through.  A completion call throws or
    returns the text of the first choice; an answer without text counts as a
    throw, since every caller reads the text inside the same [try] block.
    The store reports an error or performs the operation.  [now] is the
    system clock. *)
Record Collab := {
  Imap_fault : nat -> option error;
  mail_fault : nat -> mail_op -> option error;
  chat : nat -> chat_request -> error + jsstring;
  JSON_parse : jsstring -> error + jsval;
  store_fault : nat -> store_op -> option error;
  now : nat -> jsstring
}.

(** What can be observed of a run: console lines, the construction of
    the mail client and calls to the services.  A console line keeps the
    literal of the source and the values printed with it. *)
Inductive event :=
| Log (text : string) (args : list jsval)
| LogError (text : string) (args : list jsval)
| NewImap
| Mail (op : mail_op)
| Chat (req : chat_request)
| Store (op : store_op).

(** The counters the two scripts keep in local variables. *)
Record Counters := {
  processed : nat;
  skipped : nat;
  written : nat;
  errors : nat
}.

Record World := {
  mailbox : list Message;
  content_ideas : list idea;
  blog_posts : list BlogPost;
  counters : Counters;
  trace : list event;
  clock : nat
}.

(** ** The row store *)

Definition is_pending (i : idea) : bool := streqb (status (cols i)) (str "pending").

Definition score (i : idea) : option Z :=
  match seo_priority_score (cols i) with JNum z => Some z | _ => None end.

(** [a] may stand before [b] under [ORDER BY seo_priority_score DESC]: a
    missing score sorts first, as the store's default for a descending
    order has it. *)
Definition desc_le (a b : idea) : bool :=
  match score a, score b with
  | None, _ => true
  | Some _, None => false
  | Some x, Some y => (y <=? x)%Z
  end.

Fixpoint insert_desc (x : idea) (l : list idea) : list idea :=
  match l with
  | [] => [x]
  | y :: l' => if desc_le x y then x :: l else y :: insert_desc x l'
  end.

Definition order_desc (l : list idea) : list idea := fold_right insert_desc [] l.

(** [.select('*').eq('status', 'pending').order(..., desc).limit(n)] *)
Definition select_pending (n : nat) (table : list idea) : list idea :=
  firstn n (order_desc (filter is_pending table)).

Definition fresh_id (table : list idea) : nat := S (list_max (map id table)).

Definition insert_idea (row : ContentIdea) (table : list idea) : list idea :=
  table ++ [(fresh_id table, row)].

Definition set_status (s : jsstring) (c : ContentIdea) : ContentIdea :=
  {| title := title c; slug := slug c; source := source c; topic := topic c;
     urgency := urgency c; alert_query := alert_query c;
     alert_date := alert_date c; original_url := original_url c;
     source_title := source_title c; source_snippet := source_snippet c;
     target_keywords := target_keywords c;
     target_audience := target_audience c; search_intent := search_intent c;
     suggested_title := suggested_title c;
     suggested_outline := suggested_outline c;
     word_count_estimate := word_count_estimate c;
     seo_priority_score := seo_priority_score c; status := s |}.

(** [.update({ status: 'processed' }).eq('id', ideaId)] *)
Definition update_processed (idea_id : nat) (table : list idea) : list idea :=
  map (fun i => if id i =? idea_id then (id i, set_status (str "processed") (cols i)) else i)
      table.

(** ** The mailbox *)

Definition alerts_sender : jsstring := str "googlealerts-noreply@google.com".

(** [client.search({ from: ..., seen: false })] *)
Definition search_unseen (box : list Message) : list nat :=
  map uid (filter (fun m => streqb (from m) alerts_sender && negb (seen m)) box).

Definition set_seen (m : Message) : Message :=
  {| uid := uid m; from := from m; seen := true; email := email m |}.

(** [client.messageFlagsAdd(uid, ['\\Seen'])] *)
Definition flag_seen (u : nat) (box : list Message) : list Message :=
  map (fun m => if uid m =? u then set_seen m else m) box.

Fixpoint find_message (u : nat) (box : list Message) : option Message :=
  match box with
  | [] => None
  | m :: box' => if uid m =? u then Some m else find_message u box'
  end.

(** ** The monad of the scripts

    A computation acts on the world and ends by returning a value, by
    throwing, or by [process.exit]. *)

Inductive outcome (A : Type) :=
| Ret (a : A)
| Throw (e : error)
| Exit (code : nat).

Arguments Throw {A} e.
Arguments Exit {A} code.

Definition M (A : Type) := World -> outcome A * World.

Definition ret {A} (a : A) : M A := fun w => (Ret a, w).

Definition bind {A B} (m : M A) (k : A -> M B) : M B :=
  fun w =>
    match m w with
    | (Ret a, w') => k a w'
    | (Throw e, w') => (Throw e, w')
    | (Exit c, w') => (Exit c, w')
    end.

Definition throw {A} (e : error) : M A := fun w => (Throw e, w).

(** [process.exit(code)] *)
Definition exit {A} (code : nat) : M A := fun w => (Exit code, w).

(** [try { m } catch (error) { h error }] *)
Definition try_catch {A} (m : M A) (h : error -> M A) : M A :=
  fun w =>
    match m w with
    | (Throw e, w') => h e w'
    | r => r
    end.

(** [try { m } finally { f }]: [f] runs after [m] returned or threw, and
    not after [process.exit]. *)
Definition finally {A} (m : M A) (f : M unit) : M A :=
  fun w =>
    match m w with
    | (Exit c, w') => (Exit c, w')
    | (r, w') =>
        match f w' with
        | (Ret _, w'') => (r, w'')
        | (Throw e, w'') => (Throw e, w'')
        | (Exit c, w'') => (Exit c, w'')
        end
    end.

(** A value or an exception computed without touching the world. *)
Definition lift {A} (r : error + A) : M A :=
  match r with inl e => throw e | inr a => ret a end.

Definition modify (f : World -> World) : M unit := fun w => (Ret tt, f w).

Definition get_world : M World := fun w => (Ret w, w).

Definition with_trace (t : list event) (w : World) : World :=
  {| mailbox := mailbox w; content_ideas := content_ideas w;
     blog_posts := blog_posts w; counters := counters w; trace := t;
     clock := clock w |}.

Definition with_clock (n : nat) (w : World) : World :=
  {| mailbox := mailbox w; content_ideas := content_ideas w;
     blog_posts := blog_posts w; counters := counters w; trace := trace w;
     clock := n |}.

Definition with_mailbox (box : list Message) (w : World) : World :=
  {| mailbox := box; content_ideas := content_ideas w;
     blog_posts := blog_posts w; counters := counters w; trace := trace w;
     clock := clock w |}.

Definition with_content_ideas (t : list idea) (w : World) : World :=
  {| mailbox := mailbox w; content_ideas := t; blog_posts := blog_posts w;
     counters := counters w; trace := trace w; clock := clock w |}.

Definition with_blog_posts (t : list BlogPost) (w : World) : World :=
  {| mailbox := mailbox w; content_ideas := content_ideas w; blog_posts := t;
     counters := counters w; trace := trace w; clock := clock w |}.

Definition with_counters (c : Counters) (w : World) : World :=
  {| mailbox := mailbox w; content_ideas := content_ideas w;
     blog_posts := blog_posts w; counters := c; trace := trace w;
     clock := clock w |}.

Definition emit (e : event) : M unit :=
  modify (fun w => with_trace (trace w ++ [e]) w).

(** The number of the next call to a service. *)
Definition tick : M nat :=
  fun w => (Ret (clock w), with_clock (S (clock w)) w).

Definition set_counters (f : Counters -> Counters) : M unit :=
  modify (fun w => with_counters (f (counters w)) w).

(** [console.log] and [console.error] *)
Definition log (text : string) (args : list jsval) : M unit := emit (Log text args).
Definition log_error (text : string) (args : list jsval) : M unit :=
  emit (LogError text args).

(** [for (const x of xs) { body x }] *)
Fixpoint for_of {A : Type} (xs : list A) (body : A -> M unit) : M unit :=
  match xs with
  | [] => ret tt
  | x :: xs' => bind (body x) (fun _ => for_of xs' body)
  end.

(** The process environment: a variable that is unset or empty is falsy. *)
Definition unset (v : option jsstring) : bool :=
  match v with
  | Some (_ :: _) => false
  | _ => true
  end.

Module Notations.
Notation "x <- m ;; k" := (bind m (fun x => k))
  (at level 61, m at next level, right associativity).
Notation "m ;; k" := (bind m (fun _ => k))
  (at level 61, right associativity).
End Notations.

End Sys.

(* ================================================================== *)
(** * scripts/automation.js *)

Module Automation.
Import Js Sys Sys.Notations.

Record ProcessEnv := {
  GMAIL_USER : option jsstring;
  GMAIL_APP_PASSWORD : option jsstring;
  OPENAI_API_KEY : option jsstring;
  SUPABASE_URL : option jsstring;
  SUPABASE_ANON_KEY : option jsstring
}.

(** [/Google Alert for:\s*(.+)/i] *)
Definition re_query : regex :=
  lit_i "Google Alert for:" ++ [star isSpace; group (plus dot)].

(** [/https?:\/\/[^\s\n]+/i] *)
Definition re_url : regex :=
  lit_i "http" ++ [opt (chr_i "s")] ++ lit_i "://"
  ++ [plus (neg (fun c => isSpace c || is_char 10 c))].

(** [/<h3[^>]*>(.*?)<\/h3>/i] *)
Definition re_h3 : regex :=
  lit_i "<h3" ++ [star (neg (chr ">"))] ++ lit_i ">"
  ++ [group (lazy (star dot))] ++ lit_i "</h3>".

(** [/<p[^>]*>(.*?)<\/p>/i] *)
Definition re_p : regex :=
  lit_i "<p" ++ [star (neg (chr ">"))] ++ lit_i ">"
  ++ [group (lazy (star dot))] ++ lit_i "</p>".

(** [/<[^>]+>/g] *)
Definition re_tag : regex := lit "<" ++ [plus (neg (chr ">"))] ++ lit ">".

(** [/[^\w\s-]/g] *)
Definition re_not_slug_char : regex :=
  [one (neg (fun c => isWord c || isSpace c || chr "-" c))].

(** [/\s+/g] *)
Definition re_spaces : regex := [plus isSpace].

(** [v || ''] for a string that may be missing. *)
Definition or_empty (v : option jsstring) : jsstring :=
  match v with Some s => s | None => [] end.

Definition nonempty (s : jsstring) : bool :=
  match s with [] => false | _ :: _ => true end.

Definition parseAlert (email : Email) : error + Alert :=
  let text := or_empty (e_text email) in
  let html := or_empty (e_html email) in
  match e_subject email with
  | None => inl (TypeError (str "Cannot read properties of undefined (reading 'match')"))
  | Some subject =>
      let queryMatch := search re_query subject in
      let query :=
        match queryMatch with Some m => trim (m_group1 m) | None => [] end in
      let urlMatch :=
        match search re_url text with
        | Some m => Some m
        | None => search re_url html
        end in
      let url := match urlMatch with Some m => m_whole m | None => [] end in
      let title :=
        if nonempty html then
          match search re_h3 html with
          | Some m => trim (replaceAll re_tag [] (m_group1 m))
          | None => query
          end
        else query in
      let snippet :=
        if nonempty html then
          match search re_p html with
          | Some m => trim (replaceAll re_tag [] (m_group1 m))
          | None => substring0 500 text
          end
        else substring0 500 text in
      inr {| al_query := query; al_url := url; al_title := title;
             al_snippet := snippet; al_date := e_date email |}
  end.

Definition slugify (maxLen : nat) (text : jsstring) : jsstring :=
  substring0 maxLen
    (replaceAll re_spaces (str "-")
       (replaceAll re_not_slug_char [] (toLowerCase text))).

Definition generateSlug (text : jsval) : error + jsstring :=
  match as_string text with
  | inl e => inl e
  | inr s => inr (slugify 100 s)
  end.

Section Collaborators.
Variable env : Collab.

Definition generateContentIdea (alert : Alert) : M jsval :=
  emit (Chat (IdeaFromAlert alert)) ;;
  t <- tick ;;
  content <- lift (chat env t (IdeaFromAlert alert)) ;;
  lift (JSON_parse env content).

Definition saveContentIdea (alert : Alert) (idea : jsval) : M unit :=
  suggested <- lift (get_prop "suggested_title" idea) ;;
  slug_ <- lift (generateSlug suggested) ;;
  topic_ <- lift (get_prop "topic" idea) ;;
  urgency_ <- lift (get_prop "urgency" idea) ;;
  keywords <- lift (get_prop "target_keywords" idea) ;;
  audience <- lift (get_prop "target_audience" idea) ;;
  intent <- lift (get_prop "search_intent" idea) ;;
  suggested' <- lift (get_prop "suggested_title" idea) ;;
  outline <- lift (get_prop "suggested_outline" idea) ;;
  estimate <- lift (get_prop "word_count_estimate" idea) ;;
  priority <- lift (get_prop "seo_priority_score" idea) ;;
  let row :=
    {| title := str "Content Idea: " ++ al_title alert;
       slug := slug_;
       source := str "google_alerts";
       topic := topic_;
       urgency := urgency_;
       alert_query := al_query alert;
       alert_date := al_date alert;
       original_url := al_url alert;
       source_title := al_title alert;
       source_snippet := al_snippet alert;
       target_keywords := keywords;
       target_audience := audience;
       search_intent := intent;
       suggested_title := suggested';
       suggested_outline := outline;
       word_count_estimate := estimate;
       seo_priority_score := priority;
       status := str "pending" |} in
  emit (Store (InsertIdea row)) ;;
  t <- tick ;;
  match store_fault env t (InsertIdea row) with
  | Some error =>
      log_error "Supabase insert error:" [JStr (message error)] ;;
      throw error
  | None =>
      modify (fun w => with_content_ideas (insert_idea row (content_ideas w)) w)
  end.

(** A call on the mail session that returns nothing. *)
Definition mail_call (op : mail_op) : M unit :=
  emit (Mail op) ;;
  t <- tick ;;
  match mail_fault env t op with
  | Some error => throw error
  | None => ret tt
  end.

Definition markAsRead (uid : nat) : M unit :=
  mail_call (FlagsAdd uid) ;;
  modify (fun w => with_mailbox (flag_seen uid (mailbox w)) w).

(** [client.fetchOne(uid, { source: true })] followed by [simpleParser]. *)
Definition fetch_email (uid : nat) : M Email :=
  mail_call (FetchOne uid) ;;
  w <- get_world ;;
  match find_message uid (mailbox w) with
  | None => throw (TypeError (str "Cannot read properties of undefined (reading 'source')"))
  | Some message =>
      mail_call (Parse uid) ;;
      ret (email message)
  end.

Definition incr_processed (c : Counters) : Counters :=
  {| processed := S (processed c); skipped := skipped c;
     written := written c; errors := errors c |}.

Definition incr_skipped (c : Counters) : Counters :=
  {| processed := processed c; skipped := S (skipped c);
     written := written c; errors := errors c |}.

Definition incr_errors (c : Counters) : Counters :=
  {| processed := processed c; skipped := skipped c;
     written := written c; errors := S (errors c) |}.

Definition reset_counters (c : Counters) : Counters :=
  {| processed := 0; skipped := 0; written := written c; errors := 0 |}.

(** The body of the loop over the messages found. *)
Definition handle_message (uid : nat) : M unit :=
  email <- fetch_email uid ;;
  try_catch
    (alert <- lift (parseAlert email) ;;
     if negb (nonempty (al_query alert)) then
       log "Skipped: not a Google Alert" [] ;;
       set_counters incr_skipped ;;
       markAsRead uid
     else
       log "Processing:" [JStr (al_query alert)] ;;
       idea <- generateContentIdea alert ;;
       saveContentIdea alert idea ;;
       markAsRead uid ;;
       set_counters incr_processed ;;
       suggested <- lift (get_prop "suggested_title" idea) ;;
       log "Saved:" [suggested])
    (fun error =>
       log_error "Error processing email:" [JStr (message error)] ;;
       set_counters incr_errors ;;
       markAsRead uid).

Definition counter (n : nat) : jsval := JNum (Z.of_nat n).

(** [new Imap({...})] *)
Definition new_Imap : M unit :=
  emit NewImap ;;
  t <- tick ;;
  match Imap_fault env t with
  | Some error => throw error
  | None => ret tt
  end.

(** The client is constructed before the [try] statement is entered: when
    the constructor throws, neither the handler nor the [finally] block
    runs. *)
Definition runAutomation : M unit :=
  log "Starting content automation..." [] ;;
  set_counters reset_counters ;;
  new_Imap ;;
  finally
    (try_catch
       (mail_call Connect ;;
        log "Connected to Gmail" [] ;;
        mail_call MailboxOpen ;;
        mail_call Search ;;
        w <- get_world ;;
        let messages := search_unseen (mailbox w) in
        log "Found ${messages.length} unread Google Alerts"
            [counter (length messages)] ;;
        match messages with
        | [] => log "No new alerts to process" []
        | _ :: _ =>
            for_of messages handle_message ;;
            w' <- get_world ;;
            log "Summary: ${processed} processed, ${skipped} skipped, ${errors} errors"
                [counter (processed (counters w')); counter (skipped (counters w'));
                 counter (errors (counters w'))]
        end)
       (fun error =>
          log_error "Automation error:" [JStr (message error)] ;;
          exit 1))
    (mail_call Logout).

(** The module body: the environment is checked before anything runs. *)
Definition main (penv : ProcessEnv) : M unit :=
  if unset (SUPABASE_URL penv) || unset (SUPABASE_ANON_KEY penv) then
    log_error "Missing Supabase credentials" [] ;;
    log_error "SUPABASE_URL:"
      [JStr (str (if unset (SUPABASE_URL penv) then "missing" else "set"))] ;;
    log_error "SUPABASE_ANON_KEY:"
      [JStr (str (if unset (SUPABASE_ANON_KEY penv) then "missing" else "set"))] ;;
    exit 1
  else if unset (OPENAI_API_KEY penv) then
    log_error "Missing OPENAI_API_KEY" [] ;;
    exit 1
  else if unset (GMAIL_USER penv) || unset (GMAIL_APP_PASSWORD penv) then
    log_error "Missing Gmail credentials" [] ;;
    exit 1
  else
    log "Environment loaded successfully" [] ;;
    runAutomation.

End Collaborators.

End Automation.

(* ================================================================== *)
(** * scripts/write-posts.js *)

Module WritePosts.
Import Js Sys Sys.Notations.

Record ProcessEnv := {
  SUPABASE_URL : option jsstring;
  SUPABASE_ANON_KEY : option jsstring;
  OPENAI_API_KEY : option jsstring
}.

Definition POSTS_PER_DAY : nat := 3.

(** [/[^\w\s-]/g] *)
Definition re_not_slug_char : regex :=
  [one (neg (fun c => isWord c || isSpace c || chr "-" c))].

(** [/\s+/g] and [/\s+/] *)
Definition re_spaces : regex := [plus isSpace].

(** [/#{1,6}\s/g] *)
Definition re_heading : regex := [between 1 6 (chr "#"); one isSpace].

(** [/\*\*/g] *)
Definition re_bold : regex := lit "**".

(** [/\n/g] *)
Definition re_newline : regex := [one (is_char 10)].

Definition slugify (maxLen : nat) (text : jsstring) : jsstring :=
  substring0 maxLen
    (replaceAll re_spaces (str "-")
       (replaceAll re_not_slug_char [] (toLowerCase text))).

Definition generateSlug (title : jsval) : error + jsstring :=
  match as_string title with
  | inl e => inl e
  | inr s => inr (slugify 80 s)
  end.

Definition generateExcerpt (content : jsstring) : jsstring :=
  let plain :=
    trim (replaceAll re_newline (str " ")
            (replaceAll re_bold []
               (replaceAll re_heading [] content))) in
  substring0 160 plain ++ str "...".

(** [Math.ceil(a / b)] for a count [a] and a positive constant [b]: the
    quotient of two such integers is computed without a rounding error
    that could reach the next integer. *)
Definition Math_ceil_div (a b : nat) : nat :=
  a / b + (if a mod b =? 0 then 0 else 1).

Definition calculateReadingTime (content : jsstring) : nat :=
  let words := length (split re_spaces content) in
  Math_ceil_div words 200.

Definition generateCategorySlug (category : jsval) : error + option jsstring :=
  if negb (truthy category) then inr None
  else
    match as_string category with
    | inl e => inl e
    | inr s =>
        inr (Some (replaceAll re_spaces (str "-")
                     (replaceAll re_not_slug_char [] (toLowerCase s))))
    end.

(** The object literal that [saveBlogPost] inserts. *)
Definition blog_post_row (i : idea) (content metaDescription slug_ : jsstring)
    (category_slug : option jsstring) (created_at updated_at : jsstring)
    : BlogPost :=
  {| bp_title := suggested_title (cols i);
     bp_slug := slug_;
     bp_excerpt := generateExcerpt content;
     bp_content := content;
     bp_meta_title := suggested_title (cols i);
     bp_meta_description := metaDescription;
     bp_keywords := target_keywords (cols i);
     bp_category := topic (cols i);
     bp_category_slug := category_slug;
     bp_reading_time := calculateReadingTime content;
     bp_author_name := str "Meet Your Clinic";
     bp_status := str "draft";
     bp_source_idea_id := id i;
     bp_created_at := created_at;
     bp_updated_at := updated_at |}.

Definition incr_written (c : Counters) : Counters :=
  {| processed := processed c; skipped := skipped c;
     written := S (written c); errors := errors c |}.

Definition incr_errors (c : Counters) : Counters :=
  {| processed := processed c; skipped := skipped c;
     written := written c; errors := S (errors c) |}.

Definition reset_counters (c : Counters) : Counters :=
  {| processed := processed c; skipped := skipped c; written := 0; errors := 0 |}.

Definition counter (n : nat) : jsval := JNum (Z.of_nat n).

Section Collaborators.
Variable env : Collab.

Definition getPendingIdeas : M (list idea) :=
  emit (Store SelectPending) ;;
  t <- tick ;;
  match store_fault env t SelectPending with
  | Some error =>
      log_error "Error fetching ideas:" [JStr (message error)] ;;
      ret []
  | None =>
      w <- get_world ;;
      ret (select_pending POSTS_PER_DAY (content_ideas w))
  end.

Definition generateBlogPost (i : idea) : M jsstring :=
  emit (Chat (PostFromIdea i)) ;;
  t <- tick ;;
  lift (chat env t (PostFromIdea i)).

Definition generateMetaDescription (title : jsval) (content : jsstring)
    : M jsstring :=
  let req := MetaFrom title (substring0 500 content) in
  emit (Chat req) ;;
  t <- tick ;;
  answer <- lift (chat env t req) ;;
  ret (trim answer).

Definition saveBlogPost (i : idea) (content metaDescription : jsstring)
    : M jsstring :=
  slug_ <- lift (generateSlug (suggested_title (cols i))) ;;
  category_slug <- lift (generateCategorySlug (topic (cols i))) ;;
  created <- tick ;;
  updated <- tick ;;
  let row :=
    blog_post_row i content metaDescription slug_ category_slug
      (now env created) (now env updated) in
  emit (Store (InsertPost row)) ;;
  t <- tick ;;
  match store_fault env t (InsertPost row) with
  | Some error =>
      log_error "Error saving post:" [JStr (message error)] ;;
      throw error
  | None =>
      modify (fun w => with_blog_posts (blog_posts w ++ [row]) w) ;;
      ret slug_
  end.

Definition markIdeaAsProcessed (ideaId : nat) : M unit :=
  emit (Store (UpdateProcessed ideaId)) ;;
  t <- tick ;;
  match store_fault env t (UpdateProcessed ideaId) with
  | Some error => log_error "Error updating idea status:" [JStr (message error)]
  | None =>
      modify (fun w =>
        with_content_ideas (update_processed ideaId (content_ideas w)) w)
  end.

(** The body of the loop over the selected ideas. *)
Definition write_idea (i : idea) : M unit :=
  try_catch
    (log "Writing: ${idea.suggested_title}" [suggested_title (cols i)] ;;
     content <- generateBlogPost i ;;
     metaDescription <- generateMetaDescription (suggested_title (cols i)) content ;;
     slug_ <- saveBlogPost i content metaDescription ;;
     markIdeaAsProcessed (id i) ;;
     set_counters incr_written ;;
     log "Saved draft: /blog/${slug}" [JStr slug_])
    (fun error =>
       log_error "Error processing idea ${idea.id}:"
         [counter (id i); JStr (message error)] ;;
       set_counters incr_errors).

Definition run : M unit :=
  log "Starting blog post generation..." [] ;;
  ideas <- getPendingIdeas ;;
  log "Found ${ideas.length} pending ideas" [counter (length ideas)] ;;
  match ideas with
  | [] => log "No pending ideas to process" []
  | _ :: _ =>
      set_counters reset_counters ;;
      for_of ideas write_idea ;;
      w <- get_world ;;
      log "Summary: ${written} posts written, ${errors} errors"
          [counter (written (counters w)); counter (errors (counters w))]
  end.

(** The module body: the environment is checked before anything runs. *)
Definition main (penv : ProcessEnv) : M unit :=
  if unset (SUPABASE_URL penv) || unset (SUPABASE_ANON_KEY penv)
     || unset (OPENAI_API_KEY penv)
  then
    log_error "Missing required environment variables" [] ;;
    exit 1
  else run.

End Collaborators.

End WritePosts.

(* ================================================================== *)
(** * What the claims speak of

    The text helpers as the specification words them, written without
    regular expressions to be compared with the functions of the source,
    and the notions in which the claims on the two jobs are stated. *)

Module Described.
Import Js Sys.

(** ** The slug *)

(** A character a slug keeps: a word character, whitespace or a hyphen. *)
Definition slug_char (c : ascii) : bool := isWord c || isSpace c || chr "-" c.

(** Every run of whitespace becomes one hyphen.  [in_run] tells that the
    character before was whitespace. *)
Fixpoint hyphenate (in_run : bool) (s : jsstring) : jsstring :=
  match s with
  | [] => []
  | c :: s' =>
      if isSpace c
      then (if in_run then hyphenate true s' else "-"%char :: hyphenate true s')
      else c :: hyphenate false s'
  end.

(** Lower-case, keep the slug characters, hyphenate the whitespace runs,
    cut at [maxLen] characters. *)
Definition slug_of (maxLen : nat) (text : jsstring) : jsstring :=
  firstn maxLen (hyphenate false (filter slug_char (map toLowerChar text))).

(** ** The reading time *)

(** The number of whitespace runs of a text. *)
Fixpoint ws_runs (in_run : bool) (s : jsstring) : nat :=
  match s with
  | [] => 0
  | c :: s' =>
      if isSpace c
      then (if in_run then ws_runs true s' else S (ws_runs true s'))
      else ws_runs false s'
  end.

(** The tokens of a text: what stands between its runs of whitespace, an
    empty token before a run that leads the text and behind one that ends
    it.  [cur] is the token being read. *)
Fixpoint tokens_from (in_run : bool) (cur : jsstring) (s : jsstring)
    : list jsstring :=
  match s with
  | [] => [cur]
  | c :: s' =>
      if isSpace c
      then (if in_run then tokens_from true cur s'
            else cur :: tokens_from true [] s')
      else tokens_from false (cur ++ [c]) s'
  end.

Definition tokens (text : jsstring) : list jsstring := tokens_from false [] text.

(** The number of tokens. *)
Definition word_count (text : jsstring) : nat := length (tokens text).

(** The ceiling of [a / b]: the least [q] with [a <= q * b]. *)
Definition ceiling (a b : nat) : nat := (a + (b - 1)) / b.

(** The number of words of a text: of its maximal runs of characters that
    are no whitespace.  [in_word] tells that the character before [s]
    belongs to a word. *)
Fixpoint count_words (in_word : bool) (s : jsstring) : nat :=
  match s with
  | [] => 0
  | c :: s' =>
      if isSpace c then count_words false s'
      else if in_word then count_words true s' else S (count_words true s')
  end.

Definition words_in (text : jsstring) : nat := count_words false text.

(** A word: not empty, no whitespace in it. *)
Definition is_word (w : jsstring) : Prop := w <> [] /\ existsb isSpace w = false.

(** A gap between two words: not empty, whitespace only. *)
Definition is_gap (g : jsstring) : Prop := g <> [] /\ forallb isSpace g = true.

Definition gap_and_word (p : jsstring * jsstring) : Prop :=
  is_gap (fst p) /\ is_word (snd p).

(** A text of words: a first word, and each further word behind a gap. *)
Fixpoint words_text (w : jsstring) (more : list (jsstring * jsstring))
    : jsstring :=
  match more with
  | [] => w
  | (gap, w') :: more' => w ++ gap ++ words_text w' more'
  end.

Definition starts_with_space (s : jsstring) : bool :=
  match s with
  | [] => false
  | c :: _ => isSpace c
  end.

Fixpoint ends_with_space (s : jsstring) : bool :=
  match s with
  | [] => false
  | [c] => isSpace c
  | _ :: s' => ends_with_space s'
  end.

(** The empty tokens at the edges of a text: one for whitespace at its
    start, one for whitespace at its end, and one for the empty text. *)
Definition edge_tokens (text : jsstring) : nat :=
  match text with
  | [] => 1
  | _ :: _ =>
      (if starts_with_space text then 1 else 0)
      + (if ends_with_space text then 1 else 0)
  end.

(** ** The query of an alert *)

(** [s] starts with the text [pat], letter case ignored. *)
Fixpoint starts_with_ci (pat s : jsstring) : bool :=
  match pat, s with
  | [], _ => true
  | _ :: _, [] => false
  | p :: pat', c :: s' =>
      Ascii.eqb (toLowerChar c) (toLowerChar p) && starts_with_ci pat' s'
  end.

(** The text [pat] occurs somewhere in [s], letter case ignored. *)
Fixpoint contains_ci (pat s : jsstring) : bool :=
  starts_with_ci pat s
  || match s with
     | [] => false
     | _ :: s' => contains_ci pat s'
     end.

(** The text up to the first line terminator. *)
Definition first_line (s : jsstring) : jsstring := takeWhile dot s.

(** A message that has a subject and nothing else. *)
Definition mail_with_subject (subject : jsstring) : Email :=
  {| e_subject := Some subject; e_text := None; e_html := None; e_date := None |}.

Definition line_feed : ascii := "010"%char.

(** A query of two lines, and a forwarded alert. *)
Definition two_line_query : jsstring :=
  str "root canal" ++ line_feed :: str "abroad".

Definition forwarded_subject : jsstring := str "Fwd: GOOGLE ALERT FOR:veneers".

Definition alert_prefix : jsstring := str "Google Alert for:".

(** The pattern of the subject behind its literal: [\s*(.+)]. *)
Definition query_tail : regex := [star isSpace; group (plus dot)].

(** What the atoms of a literal take: one character each. *)
Definition pieces (l : jsstring) : list jsstring := map (fun c => [c]) l.

(** All characters. *)
Definition all_ascii : list ascii := map ascii_of_nat (seq 0 256).

(** ** The excerpt *)

Definition is_hash (c : ascii) : bool := chr "#" c.
Definition is_star (c : ascii) : bool := chr "*" c.
Definition is_blank (c : ascii) : bool := chr " " c.

(** The length of the heading marker at the start of [s], if there is
    one: one to six [#] and the character behind them, which has to be in
    [follow]. *)
Definition marker_at (follow : ascii -> bool) (s : jsstring) : option nat :=
  let hashes := length (takeWhile is_hash s) in
  match dropWhile is_hash s with
  | c :: _ =>
      if (1 <=? hashes) && (hashes <=? 6) && follow c
      then Some (S hashes)
      else None
  | [] => None
  end.

(** Remove every heading marker, wherever it stands: one to six [#] and the
    whitespace character behind them.  [skip] counts the characters of the
    marker that are still to be dropped. *)
Fixpoint strip_markers (skip : nat) (s : jsstring) : jsstring :=
  match s with
  | [] => []
  | c :: s' =>
      match skip with
      | S n => strip_markers n s'
      | 0 =>
          match marker_at isSpace s with
          | Some (S n) => strip_markers n s'
          | _ => c :: strip_markers 0 s'
          end
      end
  end.

(** Remove the heading markers that lead a line: one to six [#] and the
    space behind them, at the start of the text or behind a line feed. *)
Fixpoint strip_leading_markers (line_start : bool) (skip : nat) (s : jsstring)
    : jsstring :=
  match s with
  | [] => []
  | c :: s' =>
      match skip with
      | S n => strip_leading_markers false n s'
      | 0 =>
          match (if line_start then marker_at is_blank s else None) with
          | Some (S n) => strip_leading_markers false n s'
          | _ => c :: strip_leading_markers (is_char 10 c) 0 s'
          end
      end
  end.

(** Remove the bold markers [**]. *)
Fixpoint remove_bold (s : jsstring) : jsstring :=
  match s with
  | [] => []
  | c :: s1 =>
      if is_star c then
        match s1 with
        | d :: s2 => if is_star d then remove_bold s2 else c :: remove_bold s1
        | [] => [c]
        end
      else c :: remove_bold s1
  end.

(** Every line feed becomes a space. *)
Definition newlines_to_spaces (s : jsstring) : jsstring :=
  map (fun c => if is_char 10 c then " "%char else c) s.

(** The excerpt as the claim words it, with the heading markers that lead a
    line. *)
Definition excerpt_leading (markdown : jsstring) : jsstring :=
  firstn 160
    (trim (newlines_to_spaces (remove_bold (strip_leading_markers true 0 markdown))))
  ++ str "...".

(** The excerpt with every heading marker removed. *)
Definition excerpt_of (markdown : jsstring) : jsstring :=
  firstn 160 (trim (newlines_to_spaces (remove_bold (strip_markers 0 markdown))))
  ++ str "...".

(** ** The services *)

(** How the services answer, whenever they are called. *)
Definition answers_post (env : Collab) (i : idea) : Prop :=
  forall t, exists s, chat env t (PostFromIdea i) = inr s.

Definition throws_post (env : Collab) (i : idea) : Prop :=
  forall t, exists e, chat env t (PostFromIdea i) = inl e.

Definition answers_meta (env : Collab) : Prop :=
  forall t title_ preview, exists s, chat env t (MetaFrom title_ preview) = inr s.

(** The same for the meta description of the idea [i]. *)
Definition answers_meta_for (env : Collab) (i : idea) : Prop :=
  forall t preview,
    exists s, chat env t (MetaFrom (suggested_title (cols i)) preview) = inr s.

Definition throws_meta_for (env : Collab) (i : idea) : Prop :=
  forall t preview,
    exists e, chat env t (MetaFrom (suggested_title (cols i)) preview) = inl e.

Definition store_up (env : Collab) : Prop :=
  forall t op, store_fault env t op = None.

Definition mail_up (env : Collab) : Prop :=
  forall t op, mail_fault env t op = None.

(** The mail library yields a client whenever one is constructed. *)
Definition client_up (env : Collab) : Prop :=
  forall t, Imap_fault env t = None.

(** Marking the message [u] read fails whenever it is tried. *)
Definition flag_down (env : Collab) (u : nat) : Prop :=
  forall t, mail_fault env t (FlagsAdd u) <> None.

(** ** The post writer *)

(** [a] may stand before [b] in the descending order of the scores. *)
Definition before (a b : idea) : Prop := desc_le a b = true.

(** An idea whose columns let the row of the post be derived: the
    suggested title is a string, the topic is a string or falsy. *)
Definition writable (i : idea) : bool :=
  match suggested_title (cols i) with
  | JStr _ =>
      negb (truthy (topic (cols i)))
      || match topic (cols i) with JStr _ => true | _ => false end
  | _ => false
  end.

(** Which of the steps 1 to 4 is the first to fail for an idea, judged by
    what the services answer from the world [w] on: 1 the blog post, 2 the
    meta description, 3 deriving and inserting the row, 4 the update of the
    status. *)
Inductive steps_result :=
| Fails (step : nat) (e : error)
| Succeeds.

Definition steps_of (env : Collab) (w : World) (i : idea) : steps_result :=
  match chat env (clock w) (PostFromIdea i) with
  | inl e => Fails 1 e
  | inr content =>
      match chat env (1 + clock w)
              (MetaFrom (suggested_title (cols i)) (firstn 500 content)) with
      | inl e => Fails 2 e
      | inr answer =>
          match WritePosts.generateSlug (suggested_title (cols i)),
                WritePosts.generateCategorySlug (topic (cols i)) with
          | inl e, _ => Fails 3 e
          | inr _, inl e => Fails 3 e
          | inr slug_, inr category_slug =>
              let row :=
                WritePosts.blog_post_row i content (trim answer) slug_
                  category_slug (now env (2 + clock w)) (now env (3 + clock w)) in
              match store_fault env (4 + clock w) (InsertPost row) with
              | Some e => Fails 3 e
              | None =>
                  match store_fault env (5 + clock w) (UpdateProcessed (id i)) with
                  | Some e => Fails 4 e
                  | None => Succeeds
                  end
              end
          end
      end
  end.

(** A completion call throws for the idea whenever it is taken up: the
    call for its post, or the call for its meta description. *)
Definition completion_throws (env : Collab) (i : idea) : Prop :=
  forall w, exists e,
    steps_of env w i = Fails 1 e \/ steps_of env w i = Fails 2 e.

(** Every step succeeds for the idea whenever it is taken up. *)
Definition goes_through (env : Collab) (i : idea) : Prop :=
  forall w, steps_of env w i = Succeeds.

(** The line the loop prints for an idea it gives up on. *)
Definition error_line (i : idea) (e : error) : event :=
  LogError "Error processing idea ${idea.id}:"
    [WritePosts.counter (id i); JStr (message e)].

(** What one turn of the loop leaves behind, by the first step that
    fails. *)
Definition turn_result (env : Collab) (i : idea) (w w1 : World) : Prop :=
  mailbox w1 = mailbox w /\
  match steps_of env w i with
  | Fails 4 e =>
      content_ideas w1 = content_ideas w /\
      length (blog_posts w1) = S (length (blog_posts w)) /\
      counters w1 = WritePosts.incr_written (counters w) /\
      In (LogError "Error updating idea status:" [JStr (message e)]) (trace w1)
  | Fails _ e =>
      content_ideas w1 = content_ideas w /\
      blog_posts w1 = blog_posts w /\
      counters w1 = WritePosts.incr_errors (counters w) /\
      In (error_line i e) (trace w1)
  | Succeeds =>
      content_ideas w1 = update_processed (id i) (content_ideas w) /\
      length (blog_posts w1) = S (length (blog_posts w)) /\
      counters w1 = WritePosts.incr_written (counters w)
  end.

(** The rows of the ideas in [ids] set to [processed]. *)
Definition mark_processed (ids : list nat) (table : list idea) : list idea :=
  map (fun i => if existsb (Nat.eqb (id i)) ids
                then (id i, set_status (str "processed") (cols i))
                else i)
      table.

Definition has_id (ids : list nat) (i : idea) : bool :=
  existsb (Nat.eqb (id i)) ids.

(** The ideas of a batch that do not fail. *)
Definition survivors (fails : idea -> bool) (ideas : list idea) : list idea :=
  filter (fun i => negb (fails i)) ideas.

(** ** The mailbox during a run of the ingestor *)

(** Every message with the identifier [u] is marked read. *)
Definition all_seen (u : nat) (box : list Message) : Prop :=
  forall m, In m box -> uid m = u -> seen m = true.

(** The same message, read if it was read before. *)
Definition later (m m' : Message) : Prop :=
  uid m = uid m' /\ from m = from m' /\ email m = email m' /\
  (seen m = true -> seen m' = true).

(** The mailbox [box'] is [box] with more messages marked read. *)
Definition box_le (box box' : list Message) : Prop := Forall2 later box box'.

(** From [w] to [w']: messages are marked read, and [n] rows at most are
    added to [content_ideas]. *)
Definition grows (n : nat) (w w' : World) : Prop :=
  box_le (mailbox w) (mailbox w') /\
  exists rows,
    content_ideas w' = content_ideas w ++ rows /\ length rows <= n.

(** A computation that changes the world in this way only, and never
    ends the process. *)
Definition tame (n : nat) (A : Type) (m : M A) : Prop :=
  forall w,
    grows n w (snd (m w)) /\
    match fst (m w) with Exit _ => False | _ => True end.

(** The messages with the identifier [u] are in [box'] what they are in
    [box]. *)
Definition same_message (u : nat) (box box' : list Message) : Prop :=
  filter (fun m => uid m =? u) box' = filter (fun m => uid m =? u) box.

(** A computation that takes the mailbox to one that stands in the
    relation [R] to it. *)
Definition boxed (R : list Message -> list Message -> Prop) (A : Type)
    (m : M A) : Prop :=
  forall w, R (mailbox w) (mailbox (snd (m w))).

End Described.

(* ================================================================== *)
(** * Sample worlds and collaborators *)

Module Samples.
Import Js Sys.

Definition sample_time : jsstring := str "2024-05-01T08:00:00.000Z".

Definition sample_idea : jsval :=
  JObj [(str "suggested_title", JStr (str "Dental Implants Abroad: What to Expect"));
        (str "topic", JStr (str "Dental Care"));
        (str "urgency", JStr (str "medium"));
        (str "seo_priority_score", JNum 8)].

(** Every service answers. *)
Definition all_up : Collab :=
  {| Imap_fault := fun _ => None;
     mail_fault := fun _ _ => None;
     chat := fun _ _ => inr (str "## Why travel  Dental care abroad");
     JSON_parse := fun _ => inr sample_idea;
     store_fault := fun _ _ => None;
     now := fun _ => sample_time |}.

(** The row store reports an error on every call. *)
Definition store_down : Collab :=
  {| Imap_fault := fun _ => None;
     mail_fault := fun _ _ => None;
     chat := fun _ _ => inr (str "## Why travel  Dental care abroad");
     JSON_parse := fun _ => inr sample_idea;
     store_fault := fun _ _ => Some (Error (str "connection refused"));
     now := fun _ => sample_time |}.

(** The completion service throws whenever it is asked for the post of
    the idea [k], and answers otherwise. *)
Definition post_throws_for (k : nat) : Collab :=
  {| Imap_fault := fun _ => None;
     mail_fault := fun _ _ => None;
     chat := fun _ req =>
       match req with
       | PostFromIdea i =>
           if id i =? k then inl (Error (str "429 rate limit"))
           else inr (str "## Why travel  Dental care abroad")
       | _ => inr (str "Dental care abroad, explained.")
       end;
     JSON_parse := fun _ => inr sample_idea;
     store_fault := fun _ _ => None;
     now := fun _ => sample_time |}.

Definition is_title (title_ : string) (v : jsval) : bool :=
  match v with JStr s => streqb s (str title_) | _ => false end.

(** The completion service throws whenever it is asked for the meta
    description of a post with the title [title_], and answers
    otherwise. *)
Definition meta_throws_for (title_ : string) : Collab :=
  {| Imap_fault := fun _ => None;
     mail_fault := fun _ _ => None;
     chat := fun _ req =>
       match req with
       | MetaFrom t _ =>
           if is_title title_ t then inl (Error (str "429 rate limit"))
           else inr (str "Dental care abroad, explained.")
       | _ => inr (str "## Why travel  Dental care abroad")
       end;
     JSON_parse := fun _ => inr sample_idea;
     store_fault := fun _ _ => None;
     now := fun _ => sample_time |}.

(** The completion service throws on every call about the idea [k] with
    the title [title_], and answers otherwise. *)
Definition completion_down_for (k : nat) (title_ : string) : Collab :=
  {| Imap_fault := fun _ => None;
     mail_fault := fun _ _ => None;
     chat := fun _ req =>
       match req with
       | PostFromIdea i =>
           if id i =? k then inl (Error (str "content policy"))
           else inr (str "## Why travel  Dental care abroad")
       | MetaFrom t _ =>
           if is_title title_ t then inl (Error (str "content policy"))
           else inr (str "Dental care abroad, explained.")
       | _ => inr (str "{}")
       end;
     JSON_parse := fun _ => inr sample_idea;
     store_fault := fun _ _ => None;
     now := fun _ => sample_time |}.

(** No message can be marked read, every other call succeeds. *)
Definition flags_down : Collab :=
  {| Imap_fault := fun _ => None;
     mail_fault := fun _ op =>
       match op with
       | FlagsAdd _ => Some (Error (str "Command failed"))
       | _ => None
       end;
     chat := fun _ _ => inr (str "{}");
     JSON_parse := fun _ => inr sample_idea;
     store_fault := fun _ _ => None;
     now := fun _ => sample_time |}.

(** The update of a status fails, every other call succeeds. *)
Definition update_down : Collab :=
  {| Imap_fault := fun _ => None;
     mail_fault := fun _ _ => None;
     chat := fun _ _ => inr (str "## Why travel  Dental care abroad");
     JSON_parse := fun _ => inr sample_idea;
     store_fault := fun _ op =>
       match op with
       | UpdateProcessed _ => Some (Error (str "timeout"))
       | _ => None
       end;
     now := fun _ => sample_time |}.

(** The completion service throws on every call. *)
Definition chat_down : Collab :=
  {| Imap_fault := fun _ => None;
     mail_fault := fun _ _ => None;
     chat := fun _ _ => inl (Error (str "503 service unavailable"));
     JSON_parse := fun _ => inr sample_idea;
     store_fault := fun _ _ => None;
     now := fun _ => sample_time |}.

Definition no_counts : Counters :=
  {| processed := 0; skipped := 0; written := 0; errors := 0 |}.

Definition empty_world : World :=
  {| mailbox := []; content_ideas := []; blog_posts := [];
     counters := no_counts; trace := []; clock := 0 |}.

Definition sample_alert : Alert :=
  {| al_query := str "dental implants";
     al_url := str "https://example.com/clinic";
     al_title := str "New Dental Clinic";
     al_snippet := str "A new clinic opened...";
     al_date := None |}.

Definition other_alert : Alert :=
  {| al_query := str "dental implants";
     al_url := str "https://example.com/clinic";
     al_title := str "Veneers in Turkey";
     al_snippet := str "A new clinic opened...";
     al_date := None |}.

(** A row of [content_ideas] with a title, a score and a status. *)
Definition idea_row (title_ : string) (score_ : Z) (status_ : string)
    : ContentIdea :=
  {| title := str "Content Idea: " ++ str title_;
     slug := str "slug";
     source := str "google_alerts";
     topic := JStr (str "Dental Care");
     urgency := JNull;
     alert_query := str "dental implants";
     alert_date := None;
     original_url := [];
     source_title := str title_;
     source_snippet := [];
     target_keywords := JArr [];
     target_audience := JNull;
     search_intent := JNull;
     suggested_title := JStr (str title_);
     suggested_outline := JNull;
     word_count_estimate := JNum 1500;
     seo_priority_score := JNum score_;
     status := str status_ |}.

(** Five pending ideas and one that is processed. *)
Definition six_ideas : list idea :=
  [(1, idea_row "Veneers" 4 "pending");
   (2, idea_row "Implants" 9 "pending");
   (3, idea_row "Crowns" 7 "processed");
   (4, idea_row "Hair transplant" 6 "pending");
   (5, idea_row "Rhinoplasty" 8 "pending");
   (6, idea_row "Lasik" 2 "pending")].

Definition store_of (table : list idea) : World :=
  {| mailbox := []; content_ideas := table; blog_posts := [];
     counters := no_counts; trace := []; clock := 0 |}.

(** An alert, a message of the same sender that is no alert, and a
    message of somebody else, all unread. *)
Definition sample_box : list Message :=
  [{| uid := 1; from := alerts_sender; seen := false;
      email := Described.mail_with_subject (str "Google Alert for: dental implants") |};
   {| uid := 2; from := alerts_sender; seen := false;
      email := Described.mail_with_subject (str "Welcome to Google Alerts") |};
   {| uid := 3; from := str "friend@example.com"; seen := false;
      email := Described.mail_with_subject (str "Lunch?") |}].

(** An alert with an HTML body. *)
Definition alert_mail : Email :=
  {| e_subject := Some (str "Google Alert for: dental implants");
     e_text := None;
     e_html := Some (str "<div><h3>New <b>Dental</b> Clinic</h3><p>A new clinic opened...</p></div>");
     e_date := Some sample_time |}.

(** A body of [n] words, a space between two of them. *)
Definition clinic_body (n : nat) : jsstring :=
  Described.words_text (str "clinic") (repeat (str " ", str "clinic") (pred n)).

(** One unread alert. *)
Definition one_alert : list Message :=
  [{| uid := 1; from := alerts_sender; seen := false;
      email := Described.mail_with_subject (str "Google Alert for: dental implants") |}].

Definition inbox (box : list Message) : World :=
  {| mailbox := box; content_ideas := []; blog_posts := [];
     counters := no_counts; trace := []; clock := 0 |}.

End Samples.

(* ================================================================== *)
(** * What a run leaves behind

    The notions in which the further properties of the two jobs are
    stated: the calls a run makes, the rows it adds and the rows it
    changes. *)

Module Effects.
Import Js Sys.

(** ** Calls *)

Definition is_chat (e : event) : bool :=
  match e with Chat _ => true | _ => false end.

Definition is_mail (e : event) : bool :=
  match e with Mail _ => true | _ => false end.

Definition is_logout (e : event) : bool :=
  match e with Mail Logout => true | _ => false end.

Definition is_insert_idea (e : event) : bool :=
  match e with Store (InsertIdea _) => true | _ => false end.

Definition is_insert_post (e : event) : bool :=
  match e with Store (InsertPost _) => true | _ => false end.

Definition is_update (e : event) : bool :=
  match e with Store (UpdateProcessed _) => true | _ => false end.

Definition is_error_line (e : event) : bool :=
  match e with LogError _ _ => true | _ => false end.

(** How many of the events are calls of the kind [p]. *)
Definition calls (p : event -> bool) (evs : list event) : nat :=
  length (filter p evs).

(** ** The post writer *)

(** The ideas a run of the writer takes: none when the select fails. *)
Definition selected (env : Collab) (w : World) : list idea :=
  match store_fault env (clock w) SelectPending with
  | Some _ => []
  | None => select_pending WritePosts.POSTS_PER_DAY (content_ideas w)
  end.

(** [p] is a row that [saveBlogPost] derives from the idea [i]. *)
Definition post_of (i : idea) (p : BlogPost) : Prop :=
  exists content answer slug_ category_slug created updated,
    WritePosts.generateSlug (suggested_title (cols i)) = inr slug_ /\
    WritePosts.generateCategorySlug (topic (cols i)) = inr category_slug /\
    p = WritePosts.blog_post_row i content (trim answer) slug_ category_slug
          created updated.

(** The row [b] is the row [a], or [a] set to [processed] and its id is
    among [ids]. *)
Definition status_step (ids : list nat) (a b : idea) : Prop :=
  b = a \/ (In (id a) ids /\ b = (id a, set_status (str "processed") (cols a))).

(** What the loop over the ideas [ideas] makes of the world: the calls it
    makes, the posts it adds, and the ideas it sets to [processed], which
    are among those it has added a post for. *)
Definition wrote (ideas : list idea) (w w' : World) : Prop :=
  mailbox w' = mailbox w /\
  processed (counters w') = processed (counters w) /\
  skipped (counters w') = skipped (counters w) /\
  (exists evs,
     trace w' = trace w ++ evs /\
     calls is_chat evs <= 2 * length ideas /\
     calls is_insert_post evs <= length ideas /\
     calls is_update evs <= calls is_insert_post evs /\
     calls is_mail evs = 0 /\
     calls is_insert_idea evs = 0) /\
  (exists posts,
     blog_posts w' = blog_posts w ++ posts /\
     Forall (fun p => exists i, In i ideas /\ post_of i p) posts /\
     written (counters w') = written (counters w) + length posts /\
     errors (counters w') + length posts = errors (counters w) + length ideas /\
     Forall2 (status_step (map bp_source_idea_id posts))
       (content_ideas w) (content_ideas w')).

(** What a run of the writer that took the ideas [ideas] makes of the
    world. *)
Definition ran (ideas : list idea) (w w' : World) : Prop :=
  mailbox w' = mailbox w /\
  (exists evs,
     trace w' = trace w ++ evs /\
     calls is_chat evs <= 2 * length ideas /\
     calls is_insert_post evs <= length ideas /\
     calls is_update evs <= calls is_insert_post evs /\
     calls is_mail evs = 0 /\
     calls is_insert_idea evs = 0) /\
  (exists posts,
     blog_posts w' = blog_posts w ++ posts /\
     Forall (fun p => exists i, In i ideas /\ post_of i p) posts /\
     (ideas <> [] ->
      written (counters w') = length posts /\
      errors (counters w') + length posts = length ideas) /\
     Forall2 (status_step (map bp_source_idea_id posts))
       (content_ideas w) (content_ideas w')) /\
  (ideas = [] -> counters w' = counters w).

(** ** The alert ingestor *)

(** A call that only the writer makes. *)
Definition is_writer_call (e : event) : bool :=
  match e with
  | Store SelectPending | Store (InsertPost _) | Store (UpdateProcessed _) => true
  | Chat (PostFromIdea _) | Chat (MetaFrom _ _) => true
  | _ => false
  end.

(** [row] is a row that [saveContentIdea] derives. *)
Definition alert_row (row : ContentIdea) : Prop :=
  status row = str "pending" /\
  source row = str "google_alerts" /\
  title row = str "Content Idea: " ++ source_title row /\
  exists s, suggested_title row = JStr s /\ slug row = Automation.slugify 100 s.

(** The message [m'] is the message [m], or [m] marked read and its uid is
    among [uids]. *)
Definition flag_step (uids : list nat) (m m' : Message) : Prop :=
  m' = m \/ (In (uid m) uids /\ m' = set_seen m).

(** What handling the messages [uids] makes of the world, the events
    [evs] being added to the trace and the rows [rows] to the ideas: the
    posts are left alone, a message is marked read or left as it is, every
    row is the row of an alert and was inserted by a call of the store,
    which follows a call of the completion service, and there is one such
    call at most for a message. *)
Definition ingests (uids : list nat) (evs : list event) (rows : list idea)
    (w w' : World) : Prop :=
  blog_posts w' = blog_posts w /\
  written (counters w') = written (counters w) /\
  Forall2 (flag_step uids) (mailbox w) (mailbox w') /\
  trace w' = trace w ++ evs /\
  content_ideas w' = content_ideas w ++ rows /\
  Forall (fun i => alert_row (cols i)) rows /\
  length rows <= calls is_insert_idea evs /\
  calls is_insert_idea evs <= calls is_chat evs /\
  calls is_chat evs <= length uids /\
  calls is_writer_call evs = 0.

(** The same for some events, none of them a logout, and some rows. *)
Definition ingested (uids : list nat) (w w' : World) : Prop :=
  exists evs rows, ingests uids evs rows w w' /\ calls is_logout evs = 0.

(** How a run of the ingestor ends, by its outcome: after the logout when
    it returns; when it throws, with the error of the constructor of the
    client and nothing done, or with the error of the logout; with the
    line of the error and code 1 when it ends the process, and then
    without a logout. *)
Definition run_end (env : Collab) (r : outcome unit) (evs : list event) : Prop :=
  match r with
  | Ret _ =>
      exists evs0, evs = evs0 ++ [Mail Logout] /\ calls is_logout evs0 = 0
  | Throw e =>
      (exists t,
         Imap_fault env t = Some e /\
         evs = [Log "Starting content automation..." []; NewImap]) \/
      (exists evs0 t,
         evs = evs0 ++ [Mail Logout] /\ calls is_logout evs0 = 0 /\
         mail_fault env t Logout = Some e)
  | Exit c =>
      c = 1 /\ calls is_logout evs = 0 /\
      exists evs0 e,
        evs = evs0 ++ [LogError "Automation error:" [JStr (message e)]]
  end.

(** The counters after [k] messages: each message is counted once, and the
    messages processed are as many as the rows added. *)
Definition counted (k : nat) (w w' : World) : Prop :=
  processed (counters w') + skipped (counters w') + errors (counters w')
  = processed (counters w) + skipped (counters w) + errors (counters w) + k /\
  processed (counters w') + length (content_ideas w)
  = processed (counters w) + length (content_ideas w').

End Effects.

(* ================================================================== *)
(** * Shapes of text *)

Module Shapes.
Import Js Sys.

(** A character of a finished slug: a lower-case letter, a digit, an
    underscore or a hyphen. *)
Definition slug_letter (c : ascii) : bool :=
  in_range 97 122 c || in_range 48 57 c || is_char 95 c || chr "-" c.

(** Two asterisks side by side occur in the text. *)
Fixpoint has_bold (s : jsstring) : bool :=
  match s with
  | c :: s' =>
      match s' with
      | d :: _ => (Described.is_star c && Described.is_star d) || has_bold s'
      | [] => false
      end
  | [] => false
  end.

(** A character that no step of the excerpt touches: no [#], no [*], no
    line feed. *)
Definition plain_char (c : ascii) : bool :=
  negb (Described.is_hash c) && negb (Described.is_star c)
  && negb (is_char 10 c).

(** The length of the tag at the start of [s], if there is one: a [<],
    one or more characters other than [>], and a [>]. *)
Definition tag_at (s : jsstring) : option nat :=
  match s with
  | c :: s' =>
      if chr "<" c then
        match dropWhile (neg (chr ">")) s' with
        | _ :: _ =>
            if 1 <=? length (takeWhile (neg (chr ">")) s')
            then Some (S (S (length (takeWhile (neg (chr ">")) s'))))
            else None
        | [] => None
        end
      else None
  | [] => None
  end.

(** The text without its tags.  [skip] counts the characters of a tag
    that are still to be dropped. *)
Fixpoint strip_tags (skip : nat) (s : jsstring) : jsstring :=
  match s with
  | [] => []
  | c :: s' =>
      match skip with
      | S n => strip_tags n s'
      | 0 =>
          match tag_at s with
          | Some (S n) => strip_tags n s'
          | _ => c :: strip_tags 0 s'
          end
      end
  end.

(** A tag stands somewhere in the text. *)
Fixpoint has_tag (s : jsstring) : bool :=
  match s with
  | [] => false
  | _ :: s' =>
      match tag_at s with Some _ => true | None => has_tag s' end
  end.

End Shapes.

(* ================================================================== *)
(** * More sample worlds and collaborators *)

Module Scenes.
Import Js Sys.

(** A message of the alerts sender that has no subject. *)
Definition bare_mail : Email :=
  {| e_subject := None; e_text := Some (str "see https://example.com/a now");
     e_html := None; e_date := None |}.

Definition bare_message : Message :=
  {| uid := 4; from := alerts_sender; seen := false; email := bare_mail |}.

(** A message of the alerts sender that is no alert. *)
Definition welcome_message : Message :=
  {| uid := 2; from := alerts_sender; seen := false;
     email := Described.mail_with_subject (str "Welcome to Google Alerts") |}.

(** An alert. *)
Definition alert_message : Message :=
  {| uid := 1; from := alerts_sender; seen := false;
     email := Described.mail_with_subject (str "Google Alert for: dental implants") |}.

(** The alert read from [alert_message]. *)
Definition implants_alert : Alert :=
  {| al_query := str "dental implants"; al_url := [];
     al_title := str "dental implants"; al_snippet := []; al_date := None |}.

(** An idea without a suggested title. *)
Definition untitled_row : ContentIdea :=
  {| title := str "Content Idea: Veneers";
     slug := str "veneers";
     source := str "google_alerts";
     topic := JStr (str "Dental Care");
     urgency := JNull;
     alert_query := str "veneers";
     alert_date := None;
     original_url := [];
     source_title := str "Veneers";
     source_snippet := [];
     target_keywords := JArr [];
     target_audience := JNull;
     search_intent := JNull;
     suggested_title := JUndefined;
     suggested_outline := JNull;
     word_count_estimate := JNum 1500;
     seo_priority_score := JNum 9;
     status := str "pending" |}.

(** The mail server refuses the connection. *)
Definition connect_down : Collab :=
  {| Imap_fault := fun _ => None;
     mail_fault := fun _ op =>
       match op with
       | Connect => Some (Error (str "ECONNREFUSED"))
       | _ => None
       end;
     chat := fun _ _ => inr (str "{}");
     JSON_parse := fun _ => inr Samples.sample_idea;
     store_fault := fun _ _ => None;
     now := fun _ => Samples.sample_time |}.

(** The default export of the mail library is no constructor. *)
Definition no_constructor : Collab :=
  {| Imap_fault := fun _ => Some (TypeError (str "Imap is not a constructor"));
     mail_fault := fun _ _ => None;
     chat := fun _ _ => inr (str "{}");
     JSON_parse := fun _ => inr Samples.sample_idea;
     store_fault := fun _ _ => None;
     now := fun _ => Samples.sample_time |}.

(** The completion service answers with text that is no JSON. *)
Definition json_down : Collab :=
  {| Imap_fault := fun _ => None;
     mail_fault := fun _ _ => None;
     chat := fun _ _ => inr (str "Sorry, I cannot help with that.");
     JSON_parse := fun _ => inl (Error (str "Unexpected token S in JSON"));
     store_fault := fun _ _ => None;
     now := fun _ => Samples.sample_time |}.

(** The completion service answers with JSON that has no suggested
    title. *)
Definition untitled_idea : jsval :=
  JObj [(str "topic", JStr (str "Dental Care"))].

(** An alert with a link in its text and tags in its HTML part. *)
Definition linked_mail : Email :=
  {| e_subject := Some (str "Google Alert for: dental implants");
     e_text := Some (str "Read more at HTTPS://Example.com/clinic today");
     e_html := Some (str "<h3><a href=x>New</a> clinic</h3><p>It <b>opened</b>.</p>");
     e_date := None |}.

(** The alert read from [linked_mail]. *)
Definition linked_alert : Alert :=
  {| al_query := str "dental implants";
     al_url := str "HTTPS://Example.com/clinic";
     al_title := str "New clinic";
     al_snippet := str "It opened.";
     al_date := None |}.

End Scenes.

(* ================================================================== *)
(** * Proofs *)

Import Js Sys Described.

(** ** The matcher *)

Lemma takeWhile_dropWhile (p : ascii -> bool) (s : jsstring) :
  takeWhile p s ++ dropWhile p s = s.
Proof.
  induction s as [|c s IH]; simpl; [reflexivity|].
  destruct (p c); simpl; [now rewrite IH | reflexivity].
Qed.

Lemma takeWhile_all (p : ascii -> bool) (s : jsstring) :
  forallb p (takeWhile p s) = true.
Proof.
  induction s as [|c s IH]; [reflexivity|].
  cbn. destruct (p c) eqn:E; [cbn; now rewrite E | reflexivity].
Qed.

Lemma takeWhile_id (p : ascii -> bool) (s : jsstring) :
  forallb p s = true -> takeWhile p s = s.
Proof.
  induction s as [|c s IH]; [reflexivity|].
  cbn. intros H. apply andb_true_iff in H as [Hc Hs].
  now rewrite Hc, IH.
Qed.

Lemma dropWhile_all (p : ascii -> bool) (s : jsstring) :
  forallb p s = true -> dropWhile p s = [].
Proof.
  induction s as [|c s IH]; [reflexivity|].
  cbn. intros H. apply andb_true_iff in H as [Hc Hs].
  now rewrite Hc, IH.
Qed.

Lemma dropWhile_head (p : ascii -> bool) (s : jsstring) :
  match dropWhile p s with [] => true | c :: _ => negb (p c) end = true.
Proof.
  induction s as [|c s IH]; [reflexivity|].
  cbn. destruct (p c) eqn:E; [exact IH | now rewrite E].
Qed.

Lemma forallb_dropWhile (p q : ascii -> bool) (s : jsstring) :
  forallb q s = true -> forallb q (dropWhile p s) = true.
Proof.
  induction s as [|c s IH]; [reflexivity|].
  cbn. intros H. destruct (p c); [|exact H].
  apply andb_true_iff in H as [_ Hs]. now apply IH.
Qed.

Lemma le_max_step (n : nat) (hi : option nat) :
  may_take hi = true -> le_max n (dec_max hi) = le_max (S n) hi.
Proof.
  destruct hi as [[|h]|]; simpl; try discriminate; reflexivity.
Qed.

Lemma le_max_no_take (n : nat) (hi : option nat) :
  may_take hi = false -> le_max (S n) hi = false.
Proof.
  destruct hi as [[|h]|]; simpl; try discriminate; reflexivity.
Qed.

(** A greedy quantifier whose continuation rejects every text that starts
    with a character of the class takes the whole run of such characters,
    or fails. *)
Lemma rep_greedy_block (R : Type) (p : ascii -> bool) (k : jsstring -> option R) :
  (forall c s, p c = true -> k (c :: s) = None) ->
  forall s lo hi,
    rep p true k lo hi s =
    if (lo <=? length (takeWhile p s)) && le_max (length (takeWhile p s)) hi
    then match k (dropWhile p s) with
         | Some r => Some (takeWhile p s, r)
         | None => None
         end
    else None.
Proof.
  intros Hk s; induction s as [|c s IH]; intros lo hi.
  - simpl. destruct lo; simpl.
    + destruct hi; simpl; destruct (k []); reflexivity.
    + reflexivity.
  - simpl. destruct (p c) eqn:Hp; simpl.
    + destruct (may_take hi) eqn:Hm.
      * rewrite IH. rewrite (le_max_step _ _ Hm).
        replace (Nat.pred lo <=? length (takeWhile p s))
          with (lo <=? S (length (takeWhile p s)))
          by (destruct lo; reflexivity).
        destruct ((lo <=? S (length (takeWhile p s))) && le_max (S (length (takeWhile p s))) hi).
        -- destruct (k (dropWhile p s)); [reflexivity|].
           destruct lo; [now rewrite (Hk _ _ Hp) | reflexivity].
        -- destruct lo; [now rewrite (Hk _ _ Hp) | reflexivity].
      * rewrite (le_max_no_take _ _ Hm), andb_false_r.
        destruct lo; [now rewrite (Hk _ _ Hp) | reflexivity].
    + destruct lo; simpl.
      * destruct hi; simpl; destruct (k (c :: s)); reflexivity.
      * reflexivity.
Qed.

(** A greedy unbounded quantifier whose continuation accepts every text
    takes the whole run. *)
Lemma rep_greedy_total (R : Type) (p : ascii -> bool) (k : jsstring -> option R)
    (f : jsstring -> R) :
  (forall s, k s = Some (f s)) ->
  forall s lo,
    rep p true k lo None s =
    if lo <=? length (takeWhile p s)
    then Some (takeWhile p s, f (dropWhile p s))
    else None.
Proof.
  intros Hk s; induction s as [|c s IH]; intros lo.
  - simpl. destruct lo; simpl; [now rewrite Hk | reflexivity].
  - simpl. destruct (p c) eqn:Hp; simpl.
    + rewrite IH.
      replace (Nat.pred lo <=? length (takeWhile p s))
        with (lo <=? S (length (takeWhile p s)))
        by (destruct lo; reflexivity).
      destruct (lo <=? S (length (takeWhile p s))) eqn:E; [reflexivity|].
      destruct lo; [discriminate | reflexivity].
    + destruct lo; simpl; [now rewrite Hk | reflexivity].
Qed.

Lemma rep_greedy_prefix (R : Type) (p : ascii -> bool)
    (k : jsstring -> option R) (w y : jsstring) (r : R) :
  forallb p w = true ->
  match y with [] => true | c :: _ => negb (p c) end = true ->
  k y = Some r ->
  rep p true k 0 None (w ++ y) = Some (w, r).
Proof.
  intros Hw Hy Hk. induction w as [|a w IH].
  - destruct y as [|c y]; cbn [app rep]; rewrite Hk.
    + reflexivity.
    + apply negb_true_iff in Hy. rewrite Hy. reflexivity.
  - cbn in Hw. apply andb_true_iff in Hw as [Ha Hw].
    cbn [app rep]. rewrite Ha. cbn [andb may_take dec_max Nat.pred].
    now rewrite (IH Hw).
Qed.

Lemma rep_greedy_some (R : Type) (p : ascii -> bool)
    (k : jsstring -> option R) (hi : option nat) (s : jsstring) :
  k s <> None -> rep p true k 0 hi s <> None.
Proof.
  intros Hk. destruct (k s) as [r|] eqn:E; [|congruence].
  destruct s as [|c s]; cbn [rep]; rewrite E.
  - discriminate.
  - destruct (if p c && may_take hi then _ else None); discriminate.
Qed.

Lemma rep_sound (R : Type) (p : ascii -> bool) (g : bool)
    (k : jsstring -> option R) (s : jsstring) :
  forall lo hi m x,
    rep p g k lo hi s = Some (m, x) ->
    exists s', s = m ++ s' /\ k s' = Some x.
Proof.
  induction s as [|c s IH]; intros lo hi m x H.
  - cbn [rep] in H. destruct lo.
    + destruct (k []) eqn:E; destruct g; inversion H; subst.
      all: exists []; split; [reflexivity | assumption].
    + destruct g; discriminate.
  - cbn [rep] in H.
    assert (stop_ok : forall m x,
              match lo with
              | 0 => match k (c :: s) with Some r => Some ([], r) | None => None end
              | S _ => None
              end = Some (m, x) ->
              exists s', c :: s = m ++ s' /\ k s' = Some x).
    { intros m0 x0 Hs. destruct lo; [|discriminate].
      destruct (k (c :: s)) eqn:E; inversion Hs; subst.
      exists (c :: s). split; [reflexivity | assumption]. }
    assert (more_ok : forall m x,
              (if p c && may_take hi
               then match rep p g k (Nat.pred lo) (dec_max hi) s with
                    | Some (m, r) => Some (c :: m, r)
                    | None => None
                    end
               else None) = Some (m, x) ->
              exists s', c :: s = m ++ s' /\ k s' = Some x).
    { intros m0 x0 Hm. destruct (p c && may_take hi); [|discriminate].
      destruct (rep p g k (Nat.pred lo) (dec_max hi) s) as [[m1 r1]|] eqn:E;
        [|discriminate].
      inversion Hm; subst. destruct (IH _ _ _ _ E) as (s' & -> & Hk).
      exists s'. split; [reflexivity | assumption]. }
    destruct g.
    + destruct (if p c && may_take hi then _ else None) as [[m1 r1]|] eqn:E.
      * inversion H; subst. now apply more_ok.
      * now apply stop_ok.
    + destruct (match lo with 0 => _ | S _ => None end) as [[m1 r1]|] eqn:E.
      * inversion H; subst. now apply stop_ok.
      * now apply more_ok.
Qed.

(** A single character of a class, then the rest of the pattern. *)
Lemma exec_one_cons (p : ascii -> bool) (r : regex) (s : jsstring) :
  exec (one p :: r) s =
  match s with
  | c :: s' =>
      if p c then
        match exec r s' with
        | Some (ms, rest) => Some ([c] :: ms, rest)
        | None => None
        end
      else None
  | [] => None
  end.
Proof.
  destruct s as [|c s]; [reflexivity|].
  cbn [exec one a_class a_greedy a_min a_max].
  cbn [rep]. destruct (p c); cbn [andb may_take dec_max Nat.pred]; [|reflexivity].
  assert (E : rep p true (exec r) 0 (Some 0) s =
              match exec r s with Some x => Some ([], x) | None => None end).
  { destruct s as [|d s]; cbn [rep may_take]; [reflexivity|].
    rewrite andb_false_r. reflexivity. }
  rewrite E. destruct (exec r s) as [[ms rest]|]; reflexivity.
Qed.

Lemma exec_one (p : ascii -> bool) (s : jsstring) :
  exec [one p] s =
  match s with
  | c :: s' => if p c then Some ([[c]], s') else None
  | [] => None
  end.
Proof. rewrite exec_one_cons. destruct s; reflexivity. Qed.

Lemma exec_star_cons (p : ascii -> bool) (r : regex) (s : jsstring) :
  exec (star p :: r) s =
  match rep p true (exec r) 0 None s with
  | Some (m, (ms, rest)) => Some (m :: ms, rest)
  | None => None
  end.
Proof. reflexivity. Qed.

Lemma exec_plus (p : ascii -> bool) (s : jsstring) :
  exec [plus p] s =
  match takeWhile p s with
  | [] => None
  | w => Some ([w], dropWhile p s)
  end.
Proof.
  cbn [exec plus a_class a_greedy a_min a_max].
  rewrite (@rep_greedy_total _ p (fun s => Some ([], s)) (fun s => ([], s)))
    by reflexivity.
  destruct (takeWhile p s); reflexivity.
Qed.

Lemma exec_group_plus (p : ascii -> bool) (s : jsstring) :
  exec [group (plus p)] s =
  match takeWhile p s with
  | [] => None
  | w => Some ([w], dropWhile p s)
  end.
Proof. exact (exec_plus p s). Qed.

Lemma search_unfold (r : regex) (s : jsstring) :
  search r s =
  match exec r s with
  | Some (ms, _) => Some (Match (concat ms) (group1 r ms))
  | None => match s with [] => None | _ :: s' => search r s' end
  end.
Proof. destruct s; reflexivity. Qed.

(** ** Global replacement *)

Lemma replace_one (p : ascii -> bool) (by_ : jsstring) (s : jsstring) :
  replaceAll [one p] by_ s =
  flat_map (fun c => if p c then by_ else [c]) s.
Proof.
  unfold replaceAll. induction s as [|c s IH]; [reflexivity|].
  cbn [replace_from flat_map]. rewrite exec_one.
  destruct (p c); cbn; now rewrite IH.
Qed.

Lemma replace_one_remove (p : ascii -> bool) (s : jsstring) :
  replaceAll [one (neg p)] [] s = filter p s.
Proof.
  rewrite replace_one. induction s as [|c s IH]; [reflexivity|].
  cbn. unfold neg at 1. destruct (p c); cbn; now rewrite IH.
Qed.

Lemma replace_spaces_from (s : jsstring) :
  replace_from [plus isSpace] (str "-") 0 s = hyphenate false s /\
  replace_from [plus isSpace] (str "-") (length (takeWhile isSpace s)) s
  = hyphenate true s.
Proof.
  induction s as [|c s [IH0 IH1]]; [split; reflexivity|].
  split.
  - cbn [replace_from hyphenate]. rewrite exec_plus. cbn [takeWhile dropWhile].
    destruct (isSpace c).
    + cbn [concat app length]. rewrite app_nil_r. cbn [length].
      rewrite IH1. reflexivity.
    + now rewrite IH0.
  - cbn [takeWhile hyphenate]. destruct (isSpace c) eqn:E.
    + cbn [length replace_from]. exact IH1.
    + cbn [length replace_from]. rewrite exec_plus. cbn [takeWhile].
      rewrite E. now rewrite IH0.
Qed.

Lemma replace_spaces (s : jsstring) :
  replaceAll [plus isSpace] (str "-") s = hyphenate false s.
Proof. exact (proj1 (replace_spaces_from s)). Qed.

(** ** The slug *)

(** The slug of the source is the slug as described. *)
Lemma slugify_automation (n : nat) (s : jsstring) :
  Automation.slugify n s = slug_of n s.
Proof.
  unfold Automation.slugify, slug_of, substring0, toLowerCase.
  unfold Automation.re_spaces, Automation.re_not_slug_char.
  rewrite (replace_one_remove (fun c => isWord c || isSpace c || chr "-" c)).
  now rewrite replace_spaces.
Qed.

Lemma slugify_write_posts (n : nat) (s : jsstring) :
  WritePosts.slugify n s = slug_of n s.
Proof.
  unfold WritePosts.slugify, slug_of, substring0, toLowerCase.
  unfold WritePosts.re_spaces, WritePosts.re_not_slug_char.
  rewrite (replace_one_remove (fun c => isWord c || isSpace c || chr "-" c)).
  now rewrite replace_spaces.
Qed.

(** C5, refuted as worded: the slug of the sample title is not the text
    without the underscore. *)
Lemma slug_of_sample_keeps_underscore :
  WritePosts.slugify 80 (str "Hello, World! Foo_Bar") <> str "hello-world-foobar".
Proof. vm_compute. discriminate. Qed.

(** C5, amended.  The slug of "Hello, World! Foo_Bar" cut at 80 characters
    is "hello-world-foo_bar": the comma and the exclamation mark are
    removed, and the underscore, a word character, is kept.  In general
    the slug is the text lower-cased, without the characters that are no
    word character, whitespace or hyphen, with a hyphen for every run of
    whitespace, cut at the given length. *)
Theorem slug_of_sample :
  WritePosts.slugify 80 (str "Hello, World! Foo_Bar") = str "hello-world-foo_bar" /\
  WritePosts.generateSlug (JStr (str "Hello, World! Foo_Bar"))
  = inr (str "hello-world-foo_bar") /\
  Automation.slugify 80 (str "Hello, World! Foo_Bar") = str "hello-world-foo_bar" /\
  slug_char ","%char = false /\ slug_char "!"%char = false /\
  isWord "_"%char = true /\
  (forall maxLen text, WritePosts.slugify maxLen text = slug_of maxLen text).
Proof.
  repeat (split; [vm_compute; reflexivity|]). exact slugify_write_posts.
Qed.

(** ** The reading time *)

Lemma split_spaces_from (s : jsstring) :
  (forall cur, split_from [plus isSpace] 0 cur s = tokens_from false cur s) /\
  (forall cur, split_from [plus isSpace] (length (takeWhile isSpace s)) cur s
               = tokens_from true cur s).
Proof.
  induction s as [|c s [IH0 IH1]]; [split; reflexivity|].
  split; intros cur.
  - cbn [split_from tokens_from]. rewrite exec_plus. cbn [takeWhile].
    destruct (isSpace c).
    + cbn [concat app length]. rewrite app_nil_r. cbn [length].
      now rewrite IH1.
    + apply IH0.
  - cbn [takeWhile tokens_from]. destruct (isSpace c) eqn:E.
    + cbn [length split_from]. apply IH1.
    + cbn [length split_from]. rewrite exec_plus. cbn [takeWhile].
      rewrite E. apply IH0.
Qed.

(** [split] at whitespace yields the tokens. *)
Lemma split_spaces_tokens (s : jsstring) :
  split WritePosts.re_spaces s = tokens s.
Proof.
  unfold tokens, WritePosts.re_spaces, split. destruct s as [|c s].
  - reflexivity.
  - apply (proj1 (split_spaces_from (c :: s))).
Qed.

Lemma tokens_from_length (b : bool) (cur s : jsstring) :
  length (tokens_from b cur s) = S (ws_runs b s).
Proof.
  induction s as [|c s IH] in b, cur |- *; [reflexivity|].
  cbn [tokens_from ws_runs]. destruct (isSpace c), b; cbn [length];
    now rewrite IH.
Qed.

(** There is one token more than there are runs of whitespace. *)
Lemma word_count_runs (s : jsstring) : word_count s = S (ws_runs false s).
Proof. apply tokens_from_length. Qed.

Lemma split_spaces_length (s : jsstring) :
  length (split WritePosts.re_spaces s) = word_count s.
Proof. now rewrite split_spaces_tokens. Qed.

Lemma Math_ceil_div_ceiling (a : nat) :
  WritePosts.Math_ceil_div a 200 = ceiling a 200.
Proof.
  unfold WritePosts.Math_ceil_div, ceiling.
  pose proof (Nat.div_mod_eq a 200) as D.
  pose proof (Nat.mod_upper_bound a 200 ltac:(lia)) as B.
  destruct (a mod 200 =? 0) eqn:E.
  - apply Nat.eqb_eq in E. apply Nat.div_unique with (r := 199); lia.
  - apply Nat.eqb_neq in E.
    apply Nat.div_unique with (r := a mod 200 - 1); lia.
Qed.

Lemma calculateReadingTime_ceiling (text : jsstring) :
  WritePosts.calculateReadingTime text = ceiling (word_count text) 200.
Proof.
  unfold WritePosts.calculateReadingTime.
  now rewrite split_spaces_length, Math_ceil_div_ceiling.
Qed.

Lemma ceiling_spec (n q : nat) : ceiling n 200 <= q <-> n <= q * 200.
Proof.
  unfold ceiling.
  pose proof (Nat.div_mod_eq (n + (200 - 1)) 200) as D.
  pose proof (Nat.mod_upper_bound (n + (200 - 1)) 200 ltac:(lia)) as B.
  lia.
Qed.

Lemma ceiling_pos (n : nat) : 1 <= ceiling (S n) 200.
Proof.
  unfold ceiling. apply Nat.div_le_lower_bound; lia.
Qed.

Lemma ws_runs_word (b : bool) (w s : jsstring) :
  w <> [] -> existsb isSpace w = false ->
  ws_runs b (w ++ s) = ws_runs false s.
Proof.
  induction w as [|c w IH] in b |- *; intros Hne Hw; [congruence|].
  cbn in Hw. apply orb_false_iff in Hw as [Hc Hw].
  cbn [app ws_runs]. rewrite Hc.
  destruct w as [|d w]; [reflexivity|].
  apply IH; [discriminate | exact Hw].
Qed.

Lemma ws_runs_spaces (w t : jsstring) :
  forallb isSpace w = true -> ws_runs true (w ++ t) = ws_runs true t.
Proof.
  induction w as [|c w IH]; intros Hw; [reflexivity|].
  cbn in Hw. apply andb_true_iff in Hw as [Hc Hw].
  cbn [app ws_runs]. rewrite Hc. now apply IH.
Qed.

Lemma ws_runs_no_leading_space (t : jsstring) :
  starts_with_space t = false -> ws_runs true t = ws_runs false t.
Proof. destruct t as [|c t]; cbn; [reflexivity|]. now intros ->. Qed.

Lemma ws_runs_leading (w t : jsstring) :
  w <> [] -> forallb isSpace w = true -> starts_with_space t = false ->
  ws_runs false (w ++ t) = S (ws_runs false t).
Proof.
  intros Hne Hw Ht. destruct w as [|c w]; [congruence|].
  cbn in Hw. apply andb_true_iff in Hw as [Hc Hw].
  cbn [app ws_runs]. rewrite Hc.
  now rewrite ws_runs_spaces, ws_runs_no_leading_space.
Qed.

Lemma ws_runs_trailing (w t : jsstring) (b : bool) :
  w <> [] -> forallb isSpace w = true -> ends_with_space t = false ->
  (t = [] -> b = false) ->
  ws_runs b (t ++ w) = S (ws_runs b t).
Proof.
  intros Hne Hw. induction t as [|c t IH] in b |- *; intros Ht Hb.
  - rewrite (Hb eq_refl). destruct w as [|d w]; [congruence|].
    cbn in Hw. apply andb_true_iff in Hw as [Hd Hw].
    cbn [app ws_runs]. rewrite Hd.
    rewrite <- (app_nil_r w). now rewrite ws_runs_spaces.
  - cbn [app ws_runs]. destruct (isSpace c) eqn:Hc.
    + destruct t as [|d t]; [cbn in Ht; congruence|].
      rewrite (IH true) by (assumption || discriminate).
      destruct b; reflexivity.
    + apply IH; [|reflexivity].
      destruct t; [reflexivity | exact Ht].
Qed.

Lemma words_text_starts (w : jsstring) (more : list (jsstring * jsstring)) :
  is_word w -> starts_with_space (words_text w more) = false.
Proof.
  intros [Hne Hw]. destruct w as [|c w]; [congruence|].
  cbn in Hw. apply orb_false_iff in Hw as [Hc _].
  destruct more as [|[gap w'] more]; exact Hc.
Qed.

Lemma ws_runs_words_text (b : bool) (w : jsstring)
    (more : list (jsstring * jsstring)) :
  is_word w -> Forall gap_and_word more ->
  ws_runs b (words_text w more) = length more.
Proof.
  induction more as [|[gap w'] more IH] in b, w |- *; intros [Hne Hw] Hall.
  - cbn [words_text length]. rewrite <- (app_nil_r w).
    now rewrite ws_runs_word.
  - inversion Hall as [|? ? [[Hg1 Hg2] Hw'] Hrest]; subst.
    cbn [fst snd] in *. cbn [words_text length].
    rewrite ws_runs_word by assumption.
    rewrite ws_runs_leading by (assumption || now apply words_text_starts).
    now rewrite IH.
Qed.

Lemma word_count_words_text (w : jsstring) (more : list (jsstring * jsstring)) :
  is_word w -> Forall gap_and_word more ->
  word_count (words_text w more) = S (length more).
Proof.
  intros Hw Hall. rewrite word_count_runs. now rewrite ws_runs_words_text.
Qed.

Lemma gap_and_word_repeat (g w : jsstring) (n : nat) :
  is_gap g -> is_word w -> Forall gap_and_word (repeat (g, w) n).
Proof.
  intros Hg Hw. apply Forall_forall. intros x Hx.
  rewrite (repeat_spec _ _ _ Hx). now split.
Qed.

(** The words and the runs of whitespace of a text, counted from a
    character behind whitespace and from one behind a word. *)
Lemma count_words_runs (s : jsstring) :
  ws_runs true s + 1
  = count_words false s
    + (if match s with [] => true | _ :: _ => ends_with_space s end
       then 1 else 0) /\
  ws_runs false s
  = count_words true s + (if ends_with_space s then 1 else 0).
Proof.
  induction s as [|c s [IH1 IH2]]; [split; reflexivity|].
  cbn [ws_runs count_words ends_with_space].
  destruct (isSpace c) eqn:Ec.
  - destruct s as [|d s]; [split; reflexivity|]. split; lia.
  - destruct s as [|d s]; [cbn; split; lia|]. split; lia.
Qed.

(** The tokens are the words and the empty tokens at the edges. *)
Lemma tokens_words (text : jsstring) :
  length (tokens text) = words_in text + edge_tokens text.
Proof.
  fold (word_count text). rewrite word_count_runs.
  unfold words_in, edge_tokens, starts_with_space.
  destruct text as [|c s]; [reflexivity|].
  destruct (count_words_runs s) as [H1 H2].
  cbn [ws_runs count_words ends_with_space].
  destruct (isSpace c) eqn:Ec.
  - destruct s as [|d s]; [reflexivity|]. lia.
  - destruct s as [|d s]; [cbn; lia|]. lia.
Qed.

Lemma calculateReadingTime_words (text : jsstring) :
  WritePosts.calculateReadingTime text
  = ceiling (words_in text + edge_tokens text) 200.
Proof.
  rewrite calculateReadingTime_ceiling. unfold word_count.
  now rewrite tokens_words.
Qed.

Lemma ends_with_space_app (s t : jsstring) :
  t <> [] -> ends_with_space (s ++ t) = ends_with_space t.
Proof.
  intros Ht. induction s as [|c s IH]; [reflexivity|].
  cbn [app]. destruct (s ++ t) as [|d r] eqn:E.
  - apply app_eq_nil in E as [_ E]. congruence.
  - exact IH.
Qed.

Lemma word_ends (w : jsstring) : is_word w -> ends_with_space w = false.
Proof.
  intros [Hne Hw]. induction w as [|c w IH]; [congruence|].
  cbn in Hw. apply orb_false_iff in Hw as [Hc Hw].
  destruct w as [|d w]; [exact Hc|]. apply IH; [discriminate | exact Hw].
Qed.

Lemma words_text_nonempty (w : jsstring) (more : list (jsstring * jsstring)) :
  is_word w -> words_text w more <> [].
Proof.
  intros [Hne _]. destruct w as [|c w]; [congruence|].
  destruct more as [|[gap w'] more]; discriminate.
Qed.

Lemma words_text_ends (w : jsstring) (more : list (jsstring * jsstring)) :
  is_word w -> Forall gap_and_word more ->
  ends_with_space (words_text w more) = false.
Proof.
  induction more as [|[gap w'] more IH] in w |- *; intros Hw Hall.
  - now apply word_ends.
  - inversion Hall as [|? ? [_ Hw'] Hrest]; subst. cbn [snd] in Hw'.
    cbn [words_text].
    pose proof (@words_text_nonempty w' more Hw') as Hne.
    rewrite ends_with_space_app.
    + rewrite ends_with_space_app by exact Hne. now apply IH.
    + intros E. apply app_eq_nil in E as [_ E]. contradiction.
Qed.

(** A text of words has as many words as were put into it, and no empty
    token at its edges. *)
Lemma words_in_words_text (w : jsstring) (more : list (jsstring * jsstring)) :
  is_word w -> Forall gap_and_word more ->
  words_in (words_text w more) = S (length more) /\
  edge_tokens (words_text w more) = 0.
Proof.
  intros Hw Hall.
  assert (He : edge_tokens (words_text w more) = 0).
  { unfold edge_tokens.
    pose proof (@words_text_nonempty w more Hw) as Hne.
    destruct (words_text w more) as [|c s] eqn:E; [congruence|].
    rewrite <- E.
    now rewrite (words_text_starts more Hw), (words_text_ends Hw Hall). }
  split; [|exact He].
  pose proof (tokens_words (words_text w more)) as Ht.
  fold (word_count (words_text w more)) in Ht.
  rewrite (word_count_words_text Hw Hall), He in Ht. lia.
Qed.

Lemma edge_tokens_none (text : jsstring) :
  text <> [] -> starts_with_space text = false ->
  ends_with_space text = false -> edge_tokens text = 0.
Proof.
  intros Hne Hs He. unfold edge_tokens.
  destruct text as [|c s]; [congruence|]. now rewrite Hs, He.
Qed.

(** C8, refuted as worded: a body of 200 words that ends in a line feed has
    reading time 2, and the ceiling of 200 / 200 is 1.  So has the same
    body behind a space. *)
Lemma trailing_line_feed_adds_a_minute :
  words_in (Samples.clinic_body 200 ++ [line_feed]) = 200 /\
  ceiling 200 200 = 1 /\
  WritePosts.calculateReadingTime (Samples.clinic_body 200 ++ [line_feed]) = 2 /\
  words_in (str " " ++ Samples.clinic_body 200) = 200 /\
  WritePosts.calculateReadingTime (str " " ++ Samples.clinic_body 200) = 2.
Proof. vm_compute. repeat split. Qed.

(** C8, amended.  The reading time of a text is the ceiling over 200 of the
    number of tokens that [split] yields at the runs of whitespace.  These
    are the words of the text and, besides them, one empty token when the
    text starts with whitespace, one when it ends with whitespace, and one
    when it is empty.  For a text that is not empty and has no whitespace
    at its edges the count is the number of words: 400 words give 2, 201
    words 2 and 200 words 1.  A text made of words with whitespace between
    them is such a text. *)
Theorem reading_time_is_ceiling_of_word_count :
  (forall text, split WritePosts.re_spaces text = tokens text) /\
  (forall text, length (tokens text) = words_in text + edge_tokens text) /\
  (forall text,
     WritePosts.calculateReadingTime text
     = ceiling (words_in text + edge_tokens text) 200) /\
  (forall n q, ceiling n 200 <= q <-> n <= q * 200) /\
  (forall text,
     text <> [] -> starts_with_space text = false ->
     ends_with_space text = false ->
     WritePosts.calculateReadingTime text = ceiling (words_in text) 200 /\
     (words_in text = 400 -> WritePosts.calculateReadingTime text = 2) /\
     (words_in text = 201 -> WritePosts.calculateReadingTime text = 2) /\
     (words_in text = 200 -> WritePosts.calculateReadingTime text = 1)) /\
  (forall w more, is_word w -> Forall gap_and_word more ->
     let body := words_text w more in
     words_in body = S (length more) /\
     body <> [] /\ starts_with_space body = false /\
     ends_with_space body = false).
Proof.
  split; [exact split_spaces_tokens|].
  split; [exact tokens_words|].
  split; [exact calculateReadingTime_words|].
  split; [exact ceiling_spec|].
  split.
  - intros text Hne Hs He.
    assert (Hr : WritePosts.calculateReadingTime text = ceiling (words_in text) 200).
    { rewrite calculateReadingTime_words, (edge_tokens_none Hne Hs He).
      now rewrite Nat.add_0_r. }
    split; [exact Hr|].
    repeat split; intros Hn; rewrite Hr, Hn; reflexivity.
  - intros w more Hw Hall body.
    split; [exact (proj1 (words_in_words_text Hw Hall))|].
    split; [now apply words_text_nonempty|].
    split; [now apply words_text_starts | now apply words_text_ends].
Qed.

Lemma reading_time_is_ceiling_of_word_count_witness :
  WritePosts.calculateReadingTime (Samples.clinic_body 400) = 2 /\
  WritePosts.calculateReadingTime (Samples.clinic_body 201) = 2 /\
  WritePosts.calculateReadingTime (Samples.clinic_body 200) = 1.
Proof.
  assert (Hw : is_word (str "clinic")) by (split; [discriminate | reflexivity]).
  assert (Hg : is_gap (str " ")) by (split; [discriminate | reflexivity]).
  destruct reading_time_is_ceiling_of_word_count as (_ & _ & _ & _ & Hfig & Hbody).
  unfold Samples.clinic_body. cbn [Nat.pred]. split; [|split].
  - destruct (Hbody (str "clinic") (repeat (str " ", str "clinic") 399) Hw
                (gap_and_word_repeat 399 Hg Hw)) as (Hn & Hne & Hs & He).
    destruct (Hfig _ Hne Hs He) as (_ & H400 & _ & _).
    apply H400. rewrite Hn. now rewrite repeat_length.
  - destruct (Hbody (str "clinic") (repeat (str " ", str "clinic") 200) Hw
                (gap_and_word_repeat 200 Hg Hw)) as (Hn & Hne & Hs & He).
    destruct (Hfig _ Hne Hs He) as (_ & _ & H201 & _).
    apply H201. rewrite Hn. now rewrite repeat_length.
  - destruct (Hbody (str "clinic") (repeat (str " ", str "clinic") 199) Hw
                (gap_and_word_repeat 199 Hg Hw)) as (Hn & Hne & Hs & He).
    destruct (Hfig _ Hne Hs He) as (_ & _ & _ & H200).
    apply H200. rewrite Hn. now rewrite repeat_length.
Defined.

Lemma ceiling_full (k : nat) :
  ceiling (200 * k) 200 = k /\ ceiling (S (200 * k)) 200 = S k.
Proof.
  unfold ceiling. split.
  - symmetry. apply Nat.div_unique with (r := 199); lia.
  - symmetry. apply Nat.div_unique with (r := 0); lia.
Qed.

(** C10.  The reading time is at least 1 for every text: the empty text
    splits into one empty token and has reading time 1.  The reading time
    is the ceiling over 200 of the number of tokens, and a run of
    whitespace at the start or at the end of a text adds one token to that
    number: such a run makes the reading time the ceiling of one more, and
    one minute more for a text whose tokens fill their minutes. *)
Theorem reading_time_at_least_one :
  (forall text, 1 <= WritePosts.calculateReadingTime text) /\
  split WritePosts.re_spaces [] = [[]] /\
  WritePosts.calculateReadingTime [] = 1 /\
  (forall text,
     WritePosts.calculateReadingTime text
     = ceiling (length (split WritePosts.re_spaces text)) 200) /\
  (forall w text,
     w <> [] -> forallb isSpace w = true -> starts_with_space text = false ->
     length (split WritePosts.re_spaces (w ++ text))
     = S (length (split WritePosts.re_spaces text)) /\
     WritePosts.calculateReadingTime (w ++ text)
     = ceiling (S (length (split WritePosts.re_spaces text))) 200 /\
     forall k, length (split WritePosts.re_spaces text) = 200 * k ->
       WritePosts.calculateReadingTime text = k /\
       WritePosts.calculateReadingTime (w ++ text) = S k) /\
  (forall w text,
     w <> [] -> forallb isSpace w = true -> ends_with_space text = false ->
     length (split WritePosts.re_spaces (text ++ w))
     = S (length (split WritePosts.re_spaces text)) /\
     WritePosts.calculateReadingTime (text ++ w)
     = ceiling (S (length (split WritePosts.re_spaces text))) 200 /\
     forall k, length (split WritePosts.re_spaces text) = 200 * k ->
       WritePosts.calculateReadingTime text = k /\
       WritePosts.calculateReadingTime (text ++ w) = S k).
Proof.
  assert (Hsplit : forall text,
            WritePosts.calculateReadingTime text
            = ceiling (length (split WritePosts.re_spaces text)) 200).
  { intros text. now rewrite calculateReadingTime_ceiling, split_spaces_length. }
  split; [|split; [reflexivity|split; [reflexivity|split; [exact Hsplit|split]]]].
  - intros text. rewrite calculateReadingTime_ceiling, word_count_runs.
    apply ceiling_pos.
  - intros w text Hne Hw Ht.
    assert (Hlen : length (split WritePosts.re_spaces (w ++ text))
                   = S (length (split WritePosts.re_spaces text))).
    { rewrite !split_spaces_length, !word_count_runs.
      now rewrite ws_runs_leading. }
    split; [exact Hlen|]. split; [now rewrite Hsplit, Hlen|].
    intros k Hk. rewrite !Hsplit, Hlen, Hk. apply ceiling_full.
  - intros w text Hne Hw Ht.
    assert (Hlen : length (split WritePosts.re_spaces (text ++ w))
                   = S (length (split WritePosts.re_spaces text))).
    { rewrite !split_spaces_length, !word_count_runs.
      now rewrite ws_runs_trailing. }
    split; [exact Hlen|]. split; [now rewrite Hsplit, Hlen|].
    intros k Hk. rewrite !Hsplit, Hlen, Hk. apply ceiling_full.
Qed.

Lemma reading_time_at_least_one_witness :
  length (split WritePosts.re_spaces (str "  a b"))
  = S (length (split WritePosts.re_spaces (str "a b"))) /\
  length (split WritePosts.re_spaces (str "a b" ++ str "  "))
  = S (length (split WritePosts.re_spaces (str "a b"))) /\
  WritePosts.calculateReadingTime (Samples.clinic_body 200) = 1 /\
  WritePosts.calculateReadingTime (str " " ++ Samples.clinic_body 200) = 2 /\
  WritePosts.calculateReadingTime (Samples.clinic_body 200 ++ [line_feed]) = 2.
Proof.
  destruct reading_time_at_least_one as (_ & _ & _ & _ & Hlead & Htrail).
  split; [|split].
  - apply (Hlead (str "  ") (str "a b")); [discriminate | reflexivity | reflexivity].
  - apply (Htrail (str "  ") (str "a b")); [discriminate | reflexivity | reflexivity].
  - destruct (Hlead (str " ") (Samples.clinic_body 200))
      as (_ & _ & Hk); [discriminate | reflexivity | reflexivity |].
    destruct (Htrail [line_feed] (Samples.clinic_body 200))
      as (_ & _ & Hk'); [discriminate | reflexivity | reflexivity |].
    assert (Hlen : length (split WritePosts.re_spaces (Samples.clinic_body 200))
                   = 200 * 1) by (vm_compute; reflexivity).
    destruct (Hk 1 Hlen) as [H1 H2]. destruct (Hk' 1 Hlen) as [_ H3].
    split; [exact H1|]. split; [exact H2 | exact H3].
Defined.

(** ** The query of an alert *)

Lemma in_all_ascii (c : ascii) : In c all_ascii.
Proof.
  unfold all_ascii. rewrite <- (ascii_nat_embedding c).
  apply in_map, in_seq. pose proof (nat_ascii_bounded c). lia.
Qed.

Lemma chr_i_lower (c x : ascii) :
  chr_i c x = true -> toLowerChar x = toLowerChar c.
Proof.
  assert (H : forallb (fun c => forallb (fun x =>
                implb (chr_i c x) (Ascii.eqb (toLowerChar x) (toLowerChar c)))
                all_ascii) all_ascii = true) by (vm_compute; reflexivity).
  rewrite forallb_forall in H. specialize (H c (in_all_ascii c)).
  rewrite forallb_forall in H. specialize (H x (in_all_ascii x)).
  intros E. rewrite E in H. now apply Ascii.eqb_eq.
Qed.

Lemma chr_i_refl (c : ascii) : chr_i c c = true.
Proof. unfold chr_i. apply Ascii.eqb_refl. Qed.

Lemma space_of_line_terminator (c : ascii) :
  isSpace c = false -> dot c = true.
Proof.
  assert (H : forallb (fun c => implb (negb (isSpace c)) (dot c)) all_ascii = true)
    by (vm_compute; reflexivity).
  rewrite forallb_forall in H. specialize (H c (in_all_ascii c)).
  intros E. now rewrite E in H.
Qed.

Lemma exec_lit_i_app (L : jsstring) (r : regex) (s : jsstring) :
  exec (map (fun c => one (chr_i c)) L ++ r) (L ++ s) =
  match exec r s with
  | Some (ms, rest) => Some (pieces L ++ ms, rest)
  | None => None
  end.
Proof.
  induction L as [|c L IH].
  - cbn [map app pieces]. destruct (exec r s) as [[ms rest]|]; reflexivity.
  - cbn [map app]. rewrite exec_one_cons, chr_i_refl, IH.
    destruct (exec r s) as [[ms rest]|]; reflexivity.
Qed.

Lemma exec_lit_i_inv (L : jsstring) (r : regex) (s : jsstring) :
  exec (map (fun c => one (chr_i c)) L ++ r) s <> None ->
  starts_with_ci L s = true.
Proof.
  induction L as [|c L IH] in s |- *; intros H.
  - destruct s; reflexivity.
  - cbn [map app] in H. rewrite exec_one_cons in H.
    destruct s as [|x s]; [congruence|].
    destruct (chr_i c x) eqn:E; [|congruence].
    cbn [starts_with_ci]. rewrite (chr_i_lower _ _ E), Ascii.eqb_refl.
    apply IH. intros N. rewrite N in H. congruence.
Qed.

Lemma group1_lit_i (L : jsstring) (r : regex) (ms : list jsstring) :
  group1 (map (fun c => one (chr_i c)) L ++ r) (pieces L ++ ms) = group1 r ms.
Proof. induction L as [|c L IH]; [reflexivity | exact IH]. Qed.

Lemma trim_spaces (s : jsstring) : forallb isSpace s = true -> trim s = [].
Proof.
  intros H. unfold trim, trimStart, trimEnd. now rewrite (dropWhile_all _ _ H).
Qed.

Lemma trim_trimStart (s : jsstring) : trim (trimStart s) = trim s.
Proof.
  unfold trim. f_equal. unfold trimStart.
  pose proof (dropWhile_head isSpace s) as H.
  destruct (dropWhile isSpace s) as [|c t]; [reflexivity|].
  cbn. apply negb_true_iff in H. now rewrite H.
Qed.

(** The part of the pattern behind the literal, on a text that has
    something other than whitespace. *)
Lemma exec_query_tail_text (w y : jsstring) :
  forallb isSpace w = true ->
  y <> [] ->
  match y with [] => true | c :: _ => negb (isSpace c) end = true ->
  exec query_tail (w ++ y) = Some ([w; first_line y], dropWhile dot y).
Proof.
  intros Hw Hne Hy. unfold query_tail. rewrite exec_star_cons.
  rewrite (@rep_greedy_prefix _ isSpace (exec [group (plus dot)]) w y
             ([first_line y], dropWhile dot y) Hw Hy).
  - reflexivity.
  - rewrite exec_group_plus. destruct y as [|c y]; [congruence|].
    apply negb_true_iff in Hy. unfold first_line. cbn [takeWhile dropWhile].
    now rewrite (space_of_line_terminator _ Hy).
Qed.

(** The same on a text of whitespace only: whatever is captured is
    whitespace. *)
Lemma exec_query_tail_blank (c : ascii) (s : jsstring) :
  dot c = true -> forallb isSpace (c :: s) = true ->
  exists g w rest,
    exec query_tail (c :: s) = Some ([w; g], rest) /\ forallb isSpace g = true.
Proof.
  intros Hc Hs. unfold query_tail. rewrite exec_star_cons.
  destruct (rep isSpace true (exec [group (plus dot)]) 0 None (c :: s))
    as [[w x]|] eqn:E.
  - destruct (rep_sound _ _ _ _ _ _ E) as (s' & Hsplit & Hk).
    rewrite exec_group_plus in Hk.
    destruct (takeWhile dot s') as [|d g] eqn:Eg; [discriminate|].
    inversion Hk; subst x. exists (d :: g), w, (dropWhile dot s').
    split; [reflexivity|].
    rewrite Hsplit, forallb_app in Hs. apply andb_true_iff in Hs as [_ Hs'].
    rewrite <- (takeWhile_dropWhile dot s'), Eg, forallb_app in Hs'.
    now apply andb_true_iff in Hs' as [Hg _].
  - exfalso. revert E. apply rep_greedy_some.
    rewrite exec_group_plus. cbn [takeWhile]. rewrite Hc. discriminate.
Qed.

Lemma re_query_split :
  Automation.re_query = map (fun c => one (chr_i c)) alert_prefix ++ query_tail.
Proof. reflexivity. Qed.

(** The query found in a subject that starts with the literal. *)
Lemma search_query_prefix (X : jsstring) :
  exists m,
    search Automation.re_query (alert_prefix ++ " "%char :: X) = Some m /\
    trim (m_group1 m) = trim (first_line (trimStart X)).
Proof.
  rewrite re_query_split.
  destruct (dropWhile isSpace X) as [|c y] eqn:Ey.
  - (* only whitespace behind the literal *)
    assert (Hall : forallb isSpace (" "%char :: X) = true).
    { rewrite <- (takeWhile_dropWhile isSpace X), Ey, app_nil_r.
      cbn [forallb]. now rewrite takeWhile_all. }
    destruct (@exec_query_tail_blank " "%char X eq_refl Hall)
      as (g & w & rest & He & Hg).
    eexists. split.
    + rewrite search_unfold, exec_lit_i_app, He. reflexivity.
    + cbn [m_group1]. rewrite group1_lit_i. cbn [group1 query_tail star group plus a_group].
      rewrite (trim_spaces _ Hg). unfold trimStart. rewrite Ey. reflexivity.
  - pose proof (dropWhile_head isSpace X) as Hc. rewrite Ey in Hc.
    assert (He : exec query_tail (" "%char :: X)
                 = Some ([" "%char :: takeWhile isSpace X; first_line (c :: y)],
                         dropWhile dot (c :: y))).
    { rewrite <- (takeWhile_dropWhile isSpace X) at 1. rewrite Ey.
      apply (@exec_query_tail_text (" "%char :: takeWhile isSpace X) (c :: y)).
      - cbn [forallb]. now rewrite takeWhile_all.
      - discriminate.
      - exact Hc. }
    eexists. split.
    + rewrite search_unfold, exec_lit_i_app, He. reflexivity.
    + cbn [m_group1]. rewrite group1_lit_i. cbn [group1 query_tail star group plus a_group].
      unfold trimStart. rewrite Ey. reflexivity.
Qed.

(** A subject in which the pattern matches somewhere holds the literal. *)
Lemma search_query_contains (s : jsstring) :
  search Automation.re_query s <> None -> contains_ci alert_prefix s = true.
Proof.
  induction s as [|c s IH]; intros H; rewrite search_unfold in H.
  - destruct (exec Automation.re_query []) as [[ms rest]|] eqn:E; [|congruence].
    cbn [contains_ci]. rewrite (@exec_lit_i_inv alert_prefix query_tail []).
    + reflexivity.
    + rewrite <- re_query_split, E. discriminate.
  - cbn [contains_ci].
    destruct (exec Automation.re_query (c :: s)) as [[ms rest]|] eqn:E.
    + rewrite (@exec_lit_i_inv alert_prefix query_tail (c :: s)).
      * reflexivity.
      * rewrite <- re_query_split, E. discriminate.
    + rewrite (IH H). apply orb_true_r.
Qed.

Lemma parseAlert_query (email : Email) (subject : jsstring) :
  e_subject email = Some subject ->
  exists alert,
    Automation.parseAlert email = inr alert /\
    al_query alert =
    match search Automation.re_query subject with
    | Some m => trim (m_group1 m)
    | None => []
    end.
Proof.
  intros H. unfold Automation.parseAlert. rewrite H.
  eexists. split; reflexivity.
Qed.

(** C6, refuted as worded: a query of two lines is cut at the line break,
    and a subject that is not of the form "Google Alert for: X" but holds
    the literal in another letter case, behind other text and without the
    space, yields a query all the same. *)
Lemma query_extraction_counterexample :
  (exists alert,
     Automation.parseAlert
       (mail_with_subject (str "Google Alert for: " ++ two_line_query))
     = inr alert /\
     al_query alert = str "root canal" /\
     al_query alert <> trim two_line_query) /\
  (exists alert,
     (forall X, forwarded_subject <> str "Google Alert for: " ++ X) /\
     Automation.parseAlert (mail_with_subject forwarded_subject) = inr alert /\
     al_query alert = str "veneers" /\
     al_query alert <> []).
Proof.
  split.
  - eexists. split; [vm_compute; reflexivity|].
    split; [reflexivity | vm_compute; discriminate].
  - eexists. split; [intros X H; vm_compute in H; discriminate|].
    split; [vm_compute; reflexivity|].
    split; [reflexivity | discriminate].
Qed.

(** C6, amended.  For a subject "Google Alert for: X" the query is the first
    line of X behind its leading whitespace, trimmed, which is X trimmed
    when X holds no line terminator; for a subject in which the text
    "Google Alert for:" occurs nowhere, in no letter case, the query is
    the empty string, which makes the message not a genuine alert. *)
Theorem query_extraction (email : Email) (subject : jsstring) :
  e_subject email = Some subject ->
  exists alert,
    Automation.parseAlert email = inr alert /\
    (forall X, subject = str "Google Alert for: " ++ X ->
       al_query alert = trim (first_line (trimStart X)) /\
       (forallb dot X = true -> al_query alert = trim X)) /\
    (contains_ci (str "Google Alert for:") subject = false ->
       al_query alert = [] /\ Automation.nonempty (al_query alert) = false).
Proof.
  intros Hs. destruct (parseAlert_query email Hs) as (alert & Hp & Hq).
  exists alert. split; [exact Hp|]. split.
  - intros X ->.
    destruct (search_query_prefix X) as (m & Hm & Hg).
    change (str "Google Alert for: " ++ X) with (alert_prefix ++ " "%char :: X) in Hq.
    rewrite Hm, Hg in Hq. split; [exact Hq|].
    intros Hdot. rewrite Hq. unfold first_line.
    rewrite takeWhile_id by (now apply forallb_dropWhile).
    apply trim_trimStart.
  - intros Hno.
    destruct (search Automation.re_query subject) eqn:E.
    + assert (Hc : contains_ci alert_prefix subject = true)
        by (apply search_query_contains; rewrite E; discriminate).
      change alert_prefix with (str "Google Alert for:") in Hc. congruence.
    + rewrite Hq. split; reflexivity.
Qed.

Lemma query_extraction_witness :
  (exists alert,
     Automation.parseAlert (mail_with_subject (str "Google Alert for: dental implants "))
     = inr alert /\
     al_query alert = str "dental implants") /\
  (exists alert,
     Automation.parseAlert (mail_with_subject (str "Your weekly clinic digest"))
     = inr alert /\
     al_query alert = []).
Proof.
  split.
  - destruct (@query_extraction
                (mail_with_subject (str "Google Alert for: dental implants "))
                (str "Google Alert for: dental implants ") eq_refl)
      as (alert & Hp & Hx & _).
    exists alert. split; [exact Hp|].
    destruct (Hx (str "dental implants ") eq_refl) as (_ & Ht).
    exact (Ht eq_refl).
  - destruct (@query_extraction
                (mail_with_subject (str "Your weekly clinic digest"))
                (str "Your weekly clinic digest") eq_refl)
      as (alert & Hp & _ & Hn).
    exists alert. split; [exact Hp|].
    exact (proj1 (Hn eq_refl)).
Defined.

(** ** The excerpt *)

Lemma hash_not_space (c : ascii) : is_hash c = true -> isSpace c = false.
Proof.
  unfold is_hash, chr. intros H. apply Ascii.eqb_eq in H. now subst c.
Qed.

(** The heading pattern matches where there is a marker, and takes it. *)
Lemma exec_heading (s : jsstring) :
  match exec WritePosts.re_heading s with
  | Some (ms, _) => Some (length (concat ms))
  | None => None
  end = marker_at isSpace s.
Proof.
  unfold WritePosts.re_heading, marker_at.
  change (exec [between 1 6 (chr "#"); one isSpace] s)
    with (match rep is_hash true (exec [one isSpace]) 1 (Some 6) s with
          | Some (m, (ms, rest)) => Some (m :: ms, rest)
          | None => None
          end).
  rewrite rep_greedy_block.
  2:{ intros c t Hc. rewrite exec_one. now rewrite (hash_not_space _ Hc). }
  cbn [le_max]. rewrite exec_one.
  destruct (dropWhile is_hash s) as [|c t].
  - destruct (_ && _); reflexivity.
  - destruct ((1 <=? length (takeWhile is_hash s))
              && (length (takeWhile is_hash s) <=? 6)); cbn [andb]; [|reflexivity].
    destruct (isSpace c); [|reflexivity].
    cbn [concat length]. rewrite app_nil_r, length_app. cbn [length].
    f_equal. lia.
Qed.

Lemma marker_at_pos (follow : ascii -> bool) (s : jsstring) :
  marker_at follow s <> Some 0.
Proof.
  unfold marker_at. destruct (dropWhile is_hash s); [discriminate|].
  destruct (_ && _); discriminate.
Qed.

Lemma replace_heading (skip : nat) (s : jsstring) :
  replace_from WritePosts.re_heading [] skip s = strip_markers skip s.
Proof.
  induction s as [|c s IH] in skip |- *.
  - destruct skip; reflexivity.
  - cbn [replace_from strip_markers]. destruct skip as [|n]; [|apply IH].
    pose proof (exec_heading (c :: s)) as E.
    pose proof (@marker_at_pos isSpace (c :: s)) as P.
    destruct (exec WritePosts.re_heading (c :: s)) as [[ms rest]|];
      rewrite <- E.
    + destruct (length (concat ms)) as [|n].
      * rewrite <- E in P. congruence.
      * cbn [app]. apply IH.
    + now rewrite IH.
Qed.

Lemma exec_bold (s : jsstring) :
  exec WritePosts.re_bold s =
  match s with
  | c :: d :: s' =>
      if is_star c && is_star d then Some ([[c]; [d]], s') else None
  | _ => None
  end.
Proof.
  unfold WritePosts.re_bold. cbn [lit str list_ascii_of_string map].
  rewrite exec_one_cons. destruct s as [|c s]; [reflexivity|].
  rewrite exec_one. fold (is_star c).
  destruct s as [|d s]; [destruct (is_star c); reflexivity|].
  fold (is_star d). destruct (is_star c), (is_star d); reflexivity.
Qed.

Lemma replace_bold_upto (n : nat) :
  forall s, length s <= n ->
    replace_from WritePosts.re_bold [] 0 s = remove_bold s.
Proof.
  induction n as [|n IH]; intros s Hlen.
  - destruct s; [reflexivity | cbn in Hlen; lia].
  - destruct s as [|c s]; [reflexivity|].
    cbn [replace_from remove_bold]. rewrite exec_bold.
    cbn [length] in Hlen.
    destruct s as [|d s].
    + destruct (is_star c); reflexivity.
    + destruct (is_star c); cbn [andb].
      * destruct (is_star d).
        -- cbn [concat app length replace_from].
           apply IH. cbn [length] in Hlen. lia.
        -- rewrite IH by lia. reflexivity.
      * rewrite IH by lia. reflexivity.
Qed.

Lemma replace_bold (s : jsstring) :
  replaceAll WritePosts.re_bold [] s = remove_bold s.
Proof. apply (@replace_bold_upto (length s)). lia. Qed.

Lemma replace_newline (s : jsstring) :
  replaceAll WritePosts.re_newline (str " ") s = newlines_to_spaces s.
Proof.
  unfold WritePosts.re_newline. rewrite replace_one.
  unfold newlines_to_spaces.
  induction s as [|c s IH]; [reflexivity|].
  cbn [flat_map map]. rewrite IH. destruct (is_char 10 c); reflexivity.
Qed.

(** C7, refuted as worded: a [#] in the middle of a line is removed with
    the space behind it, although it leads no heading. *)
Lemma excerpt_counterexample :
  WritePosts.generateExcerpt (str "C# is fun") = str "Cis fun..." /\
  excerpt_leading (str "C# is fun") = str "C# is fun..." /\
  WritePosts.generateExcerpt (str "C# is fun") <> excerpt_leading (str "C# is fun").
Proof.
  split; [reflexivity|]. split; [reflexivity|]. vm_compute. discriminate.
Qed.

(** C7, amended.  The excerpt of a markdown text is computed by removing
    every run of one to six [#] that is followed by a whitespace character,
    together with that character and wherever it stands, removing the bold
    markers, turning every line feed into a space, trimming, taking the
    first 160 characters and appending three dots. *)
Theorem excerpt_is_described (markdown : jsstring) :
  WritePosts.generateExcerpt markdown = excerpt_of markdown /\
  length (WritePosts.generateExcerpt markdown) <= 163.
Proof.
  assert (E : WritePosts.generateExcerpt markdown = excerpt_of markdown).
  { unfold WritePosts.generateExcerpt, excerpt_of, substring0.
    unfold replaceAll at 3. rewrite replace_heading.
    now rewrite replace_bold, replace_newline. }
  split; [exact E|].
  rewrite E. unfold excerpt_of. rewrite length_app.
  pose proof (firstn_le_length 160
    (trim (newlines_to_spaces (remove_bold (strip_markers 0 markdown))))).
  cbn [str list_ascii_of_string length]. lia.
Qed.

(** ** The row store *)

Lemma desc_le_total (a b : idea) : desc_le a b = false -> desc_le b a = true.
Proof.
  unfold desc_le. destruct (score a), (score b); try discriminate; try reflexivity.
  intros H. apply Z.leb_gt in H. apply Z.leb_le. lia.
Qed.

Lemma desc_le_trans (a b c : idea) :
  desc_le a b = true -> desc_le b c = true -> desc_le a c = true.
Proof.
  unfold desc_le. destruct (score a), (score b), (score c);
    try discriminate; try reflexivity.
  intros H1 H2. apply Z.leb_le in H1, H2. apply Z.leb_le. lia.
Qed.

Lemma insert_desc_perm (x : idea) (l : list idea) :
  Permutation (insert_desc x l) (x :: l).
Proof.
  induction l as [|y l IH]; cbn; [reflexivity|].
  destruct (desc_le x y); [reflexivity|].
  rewrite IH. apply perm_swap.
Qed.

Lemma order_desc_perm (l : list idea) : Permutation (order_desc l) l.
Proof.
  induction l as [|x l IH]; cbn; [reflexivity|].
  rewrite insert_desc_perm. now constructor.
Qed.

Lemma insert_desc_sorted (x : idea) (l : list idea) :
  StronglySorted before l -> StronglySorted before (insert_desc x l).
Proof.
  induction l as [|y l IH]; intros Hs; cbn.
  - constructor; constructor.
  - destruct (desc_le x y) eqn:E.
    + constructor; [exact Hs|].
      inversion Hs as [|? ? Hl Hy]; subst.
      constructor; [exact E|].
      apply Forall_forall. intros z Hz.
      rewrite Forall_forall in Hy. exact (desc_le_trans _ _ _ E (Hy z Hz)).
    + inversion Hs as [|? ? Hl Hy]; subst.
      constructor; [now apply IH|].
      apply Forall_forall. intros z Hz.
      apply (Permutation_in _ (insert_desc_perm x l)) in Hz.
      destruct Hz as [<-|Hz].
      * now apply desc_le_total.
      * rewrite Forall_forall in Hy. now apply Hy.
Qed.

Lemma order_desc_sorted (l : list idea) : StronglySorted before (order_desc l).
Proof.
  induction l as [|x l IH]; cbn; [constructor | now apply insert_desc_sorted].
Qed.

Lemma sorted_split (l1 l2 : list idea) :
  StronglySorted before (l1 ++ l2) ->
  StronglySorted before l1 /\
  forall i j, In i l1 -> In j l2 -> before i j.
Proof.
  induction l1 as [|x l1 IH]; cbn; intros Hs.
  - split; [constructor | intros i j []].
  - inversion Hs as [|? ? Hl Hx]; subst. destruct (IH Hl) as [Hs1 Hcross].
    rewrite Forall_forall in Hx. split.
    + constructor; [exact Hs1|]. apply Forall_forall. intros z Hz.
      apply Hx, in_or_app. now left.
    + intros i j [<-|Hi] Hj.
      * apply Hx, in_or_app. now right.
      * now apply Hcross.
Qed.

(** What the select returns: pending rows of the table, at most [n], in
    descending order, and none of the rows left out stands before one of
    them. *)
Lemma select_pending_spec (n : nat) (table : list idea) :
  let ideas := select_pending n table in
  (forall i, In i ideas -> In i table /\ is_pending i = true) /\
  length ideas = Nat.min n (length (filter is_pending table)) /\
  StronglySorted before ideas /\
  exists rest,
    Permutation (ideas ++ rest) (filter is_pending table) /\
    forall i j, In i ideas -> In j rest -> before i j.
Proof.
  cbn zeta. unfold select_pending.
  set (sorted := order_desc (filter is_pending table)).
  assert (Hp : Permutation sorted (filter is_pending table))
    by apply order_desc_perm.
  assert (Hs : StronglySorted before (firstn n sorted ++ skipn n sorted))
    by (rewrite firstn_skipn; apply order_desc_sorted).
  destruct (sorted_split _ _ Hs) as [Hs1 Hcross].
  split; [|split; [|split; [exact Hs1|]]].
  - intros i Hi. apply filter_In.
    apply (Permutation_in _ Hp).
    rewrite <- (firstn_skipn n sorted). apply in_or_app. now left.
  - rewrite length_firstn. now rewrite (Permutation_length Hp).
  - exists (skipn n sorted). split; [|exact Hcross].
    now rewrite firstn_skipn.
Qed.

Lemma NoDup_id_eq (l : list idea) (a b : idea) :
  NoDup (map id l) -> In a l -> In b l -> id a = id b -> a = b.
Proof.
  induction l as [|x l IH]; cbn; intros Hnd Ha Hb Hid; [contradiction|].
  inversion Hnd as [|? ? Hx Hl]; subst.
  destruct Ha as [<-|Ha], Hb as [<-|Hb].
  - reflexivity.
  - exfalso. apply Hx. rewrite Hid. now apply in_map.
  - exfalso. apply Hx. rewrite <- Hid. now apply in_map.
  - now apply IH.
Qed.

Lemma NoDup_id_filter (p : idea -> bool) (l : list idea) :
  NoDup (map id l) -> NoDup (map id (filter p l)).
Proof.
  induction l as [|x l IH]; cbn; intros Hnd; [constructor|].
  inversion Hnd as [|? ? Hx Hl]; subst.
  destruct (p x); cbn; [|now apply IH].
  constructor; [|now apply IH].
  intros Hin. apply Hx. apply in_map_iff in Hin as (y & Hy & Hin).
  apply filter_In in Hin as [Hin _]. rewrite <- Hy. now apply in_map.
Qed.

Lemma NoDup_id_apart (l1 l2 : list idea) (x y : idea) :
  NoDup (map id (l1 ++ l2)) -> In y l1 -> In x l2 -> id x <> id y.
Proof.
  induction l1 as [|a l1 IH]; cbn; intros Hnd Hy Hx; [contradiction|].
  inversion Hnd as [|? ? Ha Hl]; subst.
  destruct Hy as [->|Hy]; [|now apply IH].
  intros E. apply Ha. rewrite <- E. apply in_map, in_or_app. now right.
Qed.

Lemma filter_perm_length (A : Type) (p : A -> bool) (l l' : list A) :
  Permutation l l' -> length (filter p l) = length (filter p l').
Proof.
  induction 1 as [|x l l' _ IH|x y l|l l' l'' _ IH1 _ IH2]; cbn.
  - reflexivity.
  - destruct (p x); cbn; now rewrite IH.
  - destruct (p x), (p y); reflexivity.
  - now rewrite IH1.
Qed.

Lemma filter_split_length (A : Type) (p : A -> bool) (l : list A) :
  length (filter p l) + length (filter (fun x => negb (p x)) l) = length l.
Proof.
  induction l as [|x l IH]; cbn; [reflexivity|].
  destruct (p x); cbn; lia.
Qed.

Lemma filter_none (A : Type) (p : A -> bool) (l : list A) :
  (forall x, In x l -> p x = false) -> filter p l = [].
Proof.
  induction l as [|x l IH]; cbn; intros H; [reflexivity|].
  rewrite (H x (or_introl eq_refl)). apply IH. intros y Hy. apply H. now right.
Qed.

Lemma filter_all (A : Type) (p : A -> bool) (l : list A) :
  (forall x, In x l -> p x = true) -> filter p l = l.
Proof.
  induction l as [|x l IH]; cbn; intros H; [reflexivity|].
  rewrite (H x (or_introl eq_refl)). f_equal. apply IH. intros y Hy. apply H. now right.
Qed.

Lemma filter_one_id (l : list idea) (b : idea) :
  NoDup (map id l) -> In b l ->
  length (filter (fun i => id i =? id b) l) = 1.
Proof.
  induction l as [|x l IH]; cbn; intros Hnd Hb; [contradiction|].
  inversion Hnd as [|? ? Hx Hl]; subst.
  destruct Hb as [<-|Hb].
  - rewrite Nat.eqb_refl. cbn. f_equal.
    rewrite filter_none; [reflexivity|].
    intros y Hy. apply Nat.eqb_neq. intros E. apply Hx. rewrite <- E.
    now apply in_map.
  - destruct (id x =? id b) eqn:E.
    + exfalso. apply Nat.eqb_eq in E. apply Hx. rewrite E. now apply in_map.
    + now apply IH.
Qed.

Lemma has_id_in (ids : list nat) (i : idea) :
  has_id ids i = true <-> In (id i) ids.
Proof.
  unfold has_id. rewrite existsb_exists. split.
  - intros (x & Hx & E). apply Nat.eqb_eq in E. now rewrite E.
  - intros H. exists (id i). split; [exact H | apply Nat.eqb_refl].
Qed.

Lemma mark_processed_nil (table : list idea) : mark_processed [] table = table.
Proof.
  unfold mark_processed. cbn [existsb].
  induction table as [|i t IH]; cbn; [reflexivity | now rewrite IH].
Qed.

Lemma mark_processed_update (k : nat) (ids : list nat) (table : list idea) :
  mark_processed ids (update_processed k table) = mark_processed (k :: ids) table.
Proof.
  unfold mark_processed, update_processed. rewrite map_map.
  apply map_ext. intros [n c]. unfold id, cols. cbn [fst snd existsb].
  destruct (n =? k); cbn [fst snd orb].
  - destruct (existsb (Nat.eqb n) ids); reflexivity.
  - reflexivity.
Qed.

Lemma mark_processed_in (ids : list nat) (table : list idea) (i : idea) :
  In i table -> In (id i) ids ->
  In (id i, set_status (str "processed") (cols i)) (mark_processed ids table).
Proof.
  intros Hi Hid. unfold mark_processed. apply in_map_iff. exists i.
  split; [|exact Hi]. fold (has_id ids i).
  now rewrite (proj2 (has_id_in ids i) Hid).
Qed.

Lemma mark_processed_keeps (ids : list nat) (table : list idea) (i : idea) :
  In i table -> ~ In (id i) ids -> In i (mark_processed ids table).
Proof.
  intros Hi Hid. unfold mark_processed. apply in_map_iff. exists i.
  split; [|exact Hi]. fold (has_id ids i).
  destruct (has_id ids i) eqn:E; [|reflexivity].
  exfalso. apply Hid. now apply has_id_in.
Qed.

Lemma mark_processed_pending (ids : list nat) (table : list idea) :
  filter is_pending (mark_processed ids table)
  = filter (fun i => negb (has_id ids i)) (filter is_pending table).
Proof.
  unfold mark_processed. induction table as [|[n c] t IH]; [reflexivity|].
  cbn [map filter]. fold (has_id ids (n, c)).
  destruct (has_id ids (n, c)) eqn:E.
  - change (is_pending (id (n, c), set_status (str "processed") (cols (n, c))))
      with false. cbn iota.
    destruct (is_pending (n, c)); [cbn [filter]; rewrite E; cbn [negb]|]; exact IH.
  - destruct (is_pending (n, c)); [cbn [filter]; rewrite E; cbn [negb]; f_equal|];
      exact IH.
Qed.

(** The pending rows left when the rows selected have been processed. *)
Lemma pending_after (table ideas rest : list idea) :
  NoDup (map id table) ->
  Permutation (ideas ++ rest) (filter is_pending table) ->
  length (filter is_pending (mark_processed (map id ideas) table)) = length rest.
Proof.
  intros Hnd Hperm. rewrite mark_processed_pending.
  rewrite <- (filter_perm_length _ Hperm), filter_app, length_app.
  assert (Hnd' : NoDup (map id (ideas ++ rest))).
  { apply (Permutation_NoDup (l := map id (filter is_pending table))).
    - apply Permutation_map. now symmetry.
    - now apply NoDup_id_filter. }
  rewrite filter_none, filter_all; [reflexivity| |].
  - intros x Hx. apply negb_true_iff.
    destruct (has_id (map id ideas) x) eqn:E; [|reflexivity].
    exfalso. apply has_id_in, in_map_iff in E as (y & Hy & Hin).
    symmetry in Hy. exact (@NoDup_id_apart ideas rest x y Hnd' Hin Hx Hy).
  - intros x Hx. apply negb_false_iff, has_id_in, in_map. exact Hx.
Qed.

(** ** The post writer *)

Lemma getPendingIdeas_selects (env : Collab) (w : World) :
  store_fault env (clock w) SelectPending = None ->
  fst (WritePosts.getPendingIdeas env w)
  = Ret (select_pending WritePosts.POSTS_PER_DAY (content_ideas w)).
Proof.
  intros H. destruct w as [mb ci bp cs tr n].
  unfold WritePosts.getPendingIdeas, bind, emit, modify, tick, get_world, ret.
  cbn -[select_pending] in *. now rewrite H.
Qed.

Lemma run_nothing_pending (env : Collab) (w : World) :
  store_fault env (clock w) SelectPending = None ->
  filter is_pending (content_ideas w) = [] ->
  exists w',
    WritePosts.run env w = (Ret tt, w') /\
    trace w' = trace w ++
      [Log "Starting blog post generation..." [];
       Store SelectPending;
       Log "Found ${ideas.length} pending ideas" [JNum 0];
       Log "No pending ideas to process" []] /\
    content_ideas w' = content_ideas w /\
    blog_posts w' = blog_posts w /\
    counters w' = counters w.
Proof.
  intros Hsel Hnone. destruct w as [mb ci bp cs tr n].
  unfold WritePosts.run, WritePosts.getPendingIdeas.
  unfold bind, log, emit, modify, tick, get_world, ret, select_pending.
  cbn -[filter] in *. rewrite Hsel. cbn -[filter]. rewrite Hnone. cbn.
  eexists. split; [reflexivity|]. cbn. rewrite <- !app_assoc. repeat split.
Qed.

(** C9.  When the select of the pending ideas fails, the run logs the
    message of the store error, reports 0 pending ideas and returns: no
    counter is touched, nothing else is called, and the process does not
    exit. *)
Theorem select_failure_is_zero_pending (env : Collab) (w : World) (error : error) :
  store_fault env (clock w) SelectPending = Some error ->
  exists w',
    WritePosts.run env w = (Ret tt, w') /\
    trace w' = trace w ++
      [Log "Starting blog post generation..." [];
       Store SelectPending;
       LogError "Error fetching ideas:" [JStr (message error)];
       Log "Found ${ideas.length} pending ideas" [JNum 0];
       Log "No pending ideas to process" []] /\
    counters w' = counters w /\
    content_ideas w' = content_ideas w /\
    blog_posts w' = blog_posts w /\
    forall penv,
      unset (WritePosts.SUPABASE_URL penv) = false ->
      unset (WritePosts.SUPABASE_ANON_KEY penv) = false ->
      unset (WritePosts.OPENAI_API_KEY penv) = false ->
      WritePosts.main env penv w = (Ret tt, w').
Proof.
  intros H.
  assert (E : exists w', WritePosts.run env w = (Ret tt, w') /\
    trace w' = trace w ++
      [Log "Starting blog post generation..." [];
       Store SelectPending;
       LogError "Error fetching ideas:" [JStr (message error)];
       Log "Found ${ideas.length} pending ideas" [JNum 0];
       Log "No pending ideas to process" []] /\
    counters w' = counters w /\
    content_ideas w' = content_ideas w /\
    blog_posts w' = blog_posts w).
  { unfold WritePosts.run, WritePosts.getPendingIdeas.
    unfold bind, emit, log, log_error, emit, modify, tick, ret.
    cbn. rewrite H. cbn.
    eexists. split; [reflexivity|]. cbn.
    repeat rewrite <- app_assoc. repeat split. }
  destruct E as (w' & Hr & Ht & Hc & Hi & Hp).
  exists w'. repeat (split; [assumption|]).
  intros penv H1 H2 H3. unfold WritePosts.main. now rewrite H1, H2, H3.
Qed.

Lemma select_failure_is_zero_pending_witness :
  exists w',
    WritePosts.run Samples.store_down Samples.empty_world = (Ret tt, w') /\
    counters w' = Samples.no_counts /\
    content_ideas w' = [] /\ blog_posts w' = [].
Proof.
  destruct (@select_failure_is_zero_pending Samples.store_down Samples.empty_world
              (Error (str "connection refused")) eq_refl)
    as (w' & Hr & _ & Hc & Hi & Hp & _).
  exists w'. repeat split; assumption.
Defined.

(** *** One idea *)

(** Reduce a turn of the loop as far as the answer of the next service. *)
Ltac turn_step :=
  cbn -[WritePosts.generateSlug WritePosts.generateCategorySlug
        WritePosts.blog_post_row trim firstn].

(** A turn that ends here: name the world it ends in and read off what is
    asked of it. *)
Ltac turn_ends :=
  eexists; split; [reflexivity|]; cbn; repeat split;
  try (rewrite length_app; cbn; lia);
  try (rewrite !in_app_iff; cbn [In]; intuition).

Lemma write_idea_turn (env : Collab) (i : idea) (w : World) :
  exists w1, WritePosts.write_idea env i w = (Ret tt, w1) /\ turn_result env i w w1.
Proof.
  destruct w as [mb ci bp cs tr n].
  unfold turn_result, steps_of, WritePosts.write_idea.
  unfold WritePosts.generateBlogPost, WritePosts.generateMetaDescription,
    WritePosts.saveBlogPost, WritePosts.markIdeaAsProcessed.
  unfold try_catch, bind, log, log_error, emit, modify, tick, set_counters,
    lift, ret, throw, substring0.
  turn_step.
  destruct (chat env n (PostFromIdea i)) as [e|content]; turn_step;
    [turn_ends|].
  destruct (chat env (S n) _) as [e|answer]; turn_step; [turn_ends|].
  destruct (WritePosts.generateSlug _) as [e|slug_]; turn_step; [turn_ends|].
  destruct (WritePosts.generateCategorySlug _) as [e|category_slug]; turn_step;
    [turn_ends|].
  destruct (store_fault env (S (S (S (S n)))) _) as [e|]; turn_step;
    [turn_ends|].
  destruct (store_fault env (S (S (S (S (S n))))) _) as [e|]; turn_step;
    turn_ends.
Qed.

Lemma steps_of_step (env : Collab) (w : World) (i : idea) (k : nat) (e : error) :
  steps_of env w i = Fails k e -> 1 <= k <= 4.
Proof.
  unfold steps_of.
  repeat match goal with
         | |- context [match ?x with _ => _ end] => destruct x
         end; intros H; inversion H; lia.
Qed.

Lemma steps_of_throws (env : Collab) (w : World) (i : idea) :
  throws_post env i -> exists e, steps_of env w i = Fails 1 e.
Proof.
  intros H. destruct (H (clock w)) as [e He].
  exists e. unfold steps_of. now rewrite He.
Qed.

Lemma steps_of_succeeds (env : Collab) (w : World) (i : idea) :
  answers_post env i -> answers_meta env -> store_up env ->
  writable i = true ->
  steps_of env w i = Succeeds.
Proof.
  intros Hp Hm Hs Hw. unfold steps_of.
  destruct (Hp (clock w)) as [content ->].
  destruct (Hm (1 + clock w) (suggested_title (cols i)) (firstn 500 content))
    as [answer ->].
  unfold writable in Hw.
  unfold WritePosts.generateSlug, WritePosts.generateCategorySlug, as_string.
  destruct (suggested_title (cols i)); try discriminate.
  destruct (truthy (topic (cols i))) eqn:Et; cbn [negb orb] in Hw |- *.
  - destruct (topic (cols i)); try discriminate. now rewrite !Hs.
  - now rewrite !Hs.
Qed.

(** *** The loop and the run *)

Lemma for_of_cons (A : Type) (x : A) (xs : list A) (body : A -> M unit)
    (w w1 : World) :
  body x w = (Ret tt, w1) ->
  for_of (x :: xs) body w = for_of xs body w1.
Proof. intros H. cbn [for_of]. unfold bind. now rewrite H. Qed.

(** The loop over ideas of which some fail at the first step and the
    others go through. *)
Lemma write_loop (env : Collab) (fails : idea -> bool) :
  answers_meta env -> store_up env ->
  forall ideas w,
    (forall i, In i ideas ->
       if fails i then throws_post env i
       else answers_post env i /\ writable i = true) ->
    exists w',
      for_of ideas (WritePosts.write_idea env) w = (Ret tt, w') /\
      content_ideas w' =
        mark_processed (map id (survivors fails ideas)) (content_ideas w) /\
      written (counters w') =
        written (counters w) + length (survivors fails ideas) /\
      errors (counters w') =
        errors (counters w) + length (filter fails ideas) /\
      length (blog_posts w') =
        length (blog_posts w) + length (survivors fails ideas).
Proof.
  intros Hm Hs ideas. induction ideas as [|i ideas IH]; intros w Hall.
  - exists w. cbn. rewrite mark_processed_nil. repeat split; lia.
  - destruct (write_idea_turn env i w) as (w1 & Hrun & _ & Hturn).
    destruct (IH w1) as (w' & Hloop & Hci & Hwr & Her & Hbp).
    { intros j Hj. apply Hall. now right. }
    exists w'. erewrite for_of_cons by exact Hrun. split; [exact Hloop|].
    specialize (Hall i (or_introl eq_refl)).
    unfold survivors in *. cbn [filter].
    destruct (fails i) eqn:Ef; cbn [negb].
    + destruct (steps_of_throws w Hall) as [e He]. rewrite He in Hturn.
      destruct Hturn as (H1 & H2 & H3 & _).
      rewrite Hci, Hwr, Her, Hbp, H1, H2, H3. cbn. repeat split; lia.
    + destruct Hall as [Hp Hw].
      rewrite (steps_of_succeeds w Hp Hm Hs Hw) in Hturn.
      destruct Hturn as (H1 & H2 & H3).
      rewrite Hci, Hwr, Her, Hbp, H1, H2, H3. cbn [map length].
      rewrite mark_processed_update. cbn. repeat split; lia.
Qed.

(** The loop over ideas of which some fail at a completion call and the
    others go through. *)
Lemma write_loop_steps (env : Collab) (fails : idea -> bool) :
  forall ideas w,
    (forall i, In i ideas ->
       if fails i then completion_throws env i else goes_through env i) ->
    exists w',
      for_of ideas (WritePosts.write_idea env) w = (Ret tt, w') /\
      content_ideas w' =
        mark_processed (map id (survivors fails ideas)) (content_ideas w) /\
      written (counters w') =
        written (counters w) + length (survivors fails ideas) /\
      errors (counters w') =
        errors (counters w) + length (filter fails ideas) /\
      length (blog_posts w') =
        length (blog_posts w) + length (survivors fails ideas).
Proof.
  intros ideas. induction ideas as [|i ideas IH]; intros w Hall.
  - exists w. cbn. rewrite mark_processed_nil. repeat split; lia.
  - destruct (write_idea_turn env i w) as (w1 & Hrun & _ & Hturn).
    destruct (IH w1) as (w' & Hloop & Hci & Hwr & Her & Hbp).
    { intros j Hj. apply Hall. now right. }
    exists w'. erewrite for_of_cons by exact Hrun. split; [exact Hloop|].
    specialize (Hall i (or_introl eq_refl)).
    unfold survivors in *. cbn [filter].
    destruct (fails i) eqn:Ef; cbn [negb].
    + destruct (Hall w) as [e [He|He]]; rewrite He in Hturn;
        destruct Hturn as (H1 & H2 & H3 & _);
        rewrite Hci, Hwr, Her, Hbp, H1, H2, H3; cbn; repeat split; lia.
    + rewrite (Hall w) in Hturn.
      destruct Hturn as (H1 & H2 & H3).
      rewrite Hci, Hwr, Her, Hbp, H1, H2, H3. cbn [map length].
      rewrite mark_processed_update. cbn. repeat split; lia.
Qed.

Lemma completion_throws_of (env : Collab) (i : idea) :
  throws_post env i \/ throws_meta_for env i -> completion_throws env i.
Proof.
  intros H w. unfold steps_of.
  destruct (chat env (clock w) (PostFromIdea i)) as [e|content] eqn:Ep.
  - exists e. now left.
  - destruct H as [H|H].
    + destruct (H (clock w)) as [e He]. congruence.
    + destruct (H (1 + clock w) (firstn 500 content)) as [e He].
      exists e. right. now rewrite He.
Qed.

Lemma goes_through_of (env : Collab) (i : idea) :
  answers_post env i -> answers_meta_for env i -> store_up env ->
  writable i = true -> goes_through env i.
Proof.
  intros Hp Hm Hs Hw w. unfold steps_of.
  destruct (Hp (clock w)) as [content ->].
  destruct (Hm (1 + clock w) (firstn 500 content)) as [answer ->].
  unfold writable in Hw.
  unfold WritePosts.generateSlug, WritePosts.generateCategorySlug, as_string.
  destruct (suggested_title (cols i)); try discriminate.
  destruct (truthy (topic (cols i))) eqn:Et; cbn [negb orb] in Hw |- *.
  - destruct (topic (cols i)); try discriminate. now rewrite !Hs.
  - now rewrite !Hs.
Qed.

(** A run whose select succeeds and finds something: the loop runs from
    a world with the counters reset, and the summary is printed after
    it. *)
Lemma run_selected (env : Collab) (w : World) :
  store_fault env (clock w) SelectPending = None ->
  select_pending 3 (content_ideas w) <> [] ->
  exists w0,
    content_ideas w0 = content_ideas w /\
    blog_posts w0 = blog_posts w /\
    written (counters w0) = 0 /\ errors (counters w0) = 0 /\
    forall w1,
      for_of (select_pending 3 (content_ideas w)) (WritePosts.write_idea env) w0
      = (Ret tt, w1) ->
      exists w',
        WritePosts.run env w = (Ret tt, w') /\
        content_ideas w' = content_ideas w1 /\
        blog_posts w' = blog_posts w1 /\
        counters w' = counters w1 /\
        trace w' = trace w1 ++
          [Log "Summary: ${written} posts written, ${errors} errors"
             [WritePosts.counter (written (counters w1));
              WritePosts.counter (errors (counters w1))]].
Proof.
  intros Hsel Hne. destruct w as [mb ci bp cs tr n].
  unfold WritePosts.run, WritePosts.getPendingIdeas.
  unfold bind, log, emit, modify, tick, get_world, ret, set_counters.
  cbn -[for_of WritePosts.write_idea select_pending] in *.
  rewrite Hsel. change WritePosts.POSTS_PER_DAY with 3.
  cbn -[for_of WritePosts.write_idea select_pending].
  destruct (select_pending 3 ci) as [|i ideas] eqn:E; [congruence|].
  cbn -[for_of WritePosts.write_idea select_pending].
  match goal with |- context [for_of _ _ ?W] => exists W end.
  split; [reflexivity|]. split; [reflexivity|].
  split; [reflexivity|]. split; [reflexivity|].
  intros w1 Hloop. rewrite Hloop. eexists. split; [reflexivity|].
  cbn. repeat split.
Qed.

(** *** The claims on the batch *)



(** C1, refuted as worded: when the update of the status fails, the run
    logs the store error, counts the post as written and leaves the error
    counter alone. *)
Lemma status_update_failure_is_not_counted :
  exists w',
    WritePosts.run Samples.update_down
      (Samples.store_of [(1, Samples.idea_row "Veneers" 4 "pending")])
    = (Ret tt, w') /\
    errors (counters w') = 0 /\
    written (counters w') = 1 /\
    content_ideas w' = [(1, Samples.idea_row "Veneers" 4 "pending")] /\
    length (blog_posts w') = 1.
Proof.
  eexists. split; [vm_compute; reflexivity|]. repeat split.
Qed.

(** C1, amended.  A turn of the loop always returns, so the run goes on
    with the next idea.  When the blog post, the meta description or the
    derivation and insert of the row fails, the turn logs the error, adds
    exactly 1 to the error counter and leaves both tables as they were, so
    the idea stays pending.  When the update of the status fails, the turn
    logs the store error and leaves the idea pending, but the post is
    inserted and counted as written.  When a completion call throws for one
    of the ideas selected, be it the call for the post or the call for the
    meta description, and every step succeeds for the others, that idea
    stays pending, the other ideas selected become processed and the error
    counter is 1.  A completion service that throws for the post of the
    idea or for its meta description is such a case. *)
Theorem per_idea_failure_handling (env : Collab) :
  (forall i w, exists w1,
     WritePosts.write_idea env i w = (Ret tt, w1) /\
     (forall rest,
        for_of (i :: rest) (WritePosts.write_idea env) w
        = for_of rest (WritePosts.write_idea env) w1) /\
     (forall k e, steps_of env w i = Fails k e -> k <> 4 ->
        errors (counters w1) = S (errors (counters w)) /\
        written (counters w1) = written (counters w) /\
        content_ideas w1 = content_ideas w /\
        blog_posts w1 = blog_posts w /\
        In (error_line i e) (trace w1)) /\
     (forall e, steps_of env w i = Fails 4 e ->
        errors (counters w1) = errors (counters w) /\
        written (counters w1) = S (written (counters w)) /\
        content_ideas w1 = content_ideas w /\
        length (blog_posts w1) = S (length (blog_posts w)) /\
        In (LogError "Error updating idea status:" [JStr (message e)]) (trace w1))) /\
  (forall w bad,
     store_fault env (clock w) SelectPending = None ->
     NoDup (map id (content_ideas w)) ->
     let ideas := select_pending WritePosts.POSTS_PER_DAY (content_ideas w) in
     In bad ideas -> completion_throws env bad ->
     (forall i, In i ideas -> i <> bad -> goes_through env i) ->
     exists w',
       WritePosts.run env w = (Ret tt, w') /\
       In bad (content_ideas w') /\ is_pending bad = true /\
       (forall i, In i ideas -> i <> bad ->
          In (id i, set_status (str "processed") (cols i)) (content_ideas w')) /\
       errors (counters w') = 1 /\
       written (counters w') = length ideas - 1 /\
       length (blog_posts w') = length (blog_posts w) + (length ideas - 1) /\
       (length ideas = 3 -> written (counters w') = 2)) /\
  (forall i,
     (throws_post env i \/ throws_meta_for env i -> completion_throws env i) /\
     (answers_post env i -> answers_meta_for env i -> store_up env ->
      writable i = true -> goes_through env i)).
Proof.
  split; [|split].
  - intros i w. destruct (write_idea_turn env i w) as (w1 & Hrun & _ & Hturn).
    exists w1. split; [exact Hrun|]. split; [|split].
    + intros rest. now apply for_of_cons.
    + intros k e Hk Hk4. rewrite Hk in Hturn.
      pose proof (steps_of_step _ _ _ Hk) as Hr.
      assert (Hcase : content_ideas w1 = content_ideas w /\
                      blog_posts w1 = blog_posts w /\
                      counters w1 = WritePosts.incr_errors (counters w) /\
                      In (error_line i e) (trace w1)).
      { destruct k as [|[|[|[|[|k]]]]]; try exact Hturn; try lia. }
      destruct Hcase as (H1 & H2 & H3 & H4). rewrite H3. repeat split; assumption.
    + intros e Hk. rewrite Hk in Hturn. destruct Hturn as (H1 & H2 & H3 & H4).
      rewrite H3. repeat split; assumption.
  - intros w bad Hsel Hnd ideas Hbad Hthrows Hothers.
    destruct (select_pending_spec WritePosts.POSTS_PER_DAY (content_ideas w))
      as (Hin & _ & _ & rest & Hperm & _).
    fold ideas in Hin, Hperm.
    assert (Hne : ideas <> []) by (intros E; rewrite E in Hbad; contradiction).
    assert (Hndi : NoDup (map id ideas)).
    { assert (Hnd' : NoDup (map id (ideas ++ rest))).
      { apply (Permutation_NoDup (l := map id (filter is_pending (content_ideas w)))).
        - apply Permutation_map. now symmetry.
        - now apply NoDup_id_filter. }
      rewrite map_app in Hnd'. now apply NoDup_app_remove_r in Hnd'. }
    set (fails := fun i : idea => id i =? id bad).
    assert (Hfails : forall i, In i ideas -> fails i = true -> i = bad).
    { intros i Hi E. apply Nat.eqb_eq in E.
      exact (@NoDup_id_eq ideas i bad Hndi Hi Hbad E). }
    destruct (run_selected env w Hsel Hne) as (w0 & Hci0 & Hbp0 & Hwr0 & Her0 & Hrun).
    destruct (@write_loop_steps env fails ideas w0)
      as (w1 & Hloop & Hci1 & Hwr1 & Her1 & Hbp1).
    { intros i Hi. destruct (fails i) eqn:E.
      - now rewrite (Hfails i Hi E).
      - apply Hothers; [exact Hi|].
        intros ->. unfold fails in E. now rewrite Nat.eqb_refl in E. }
    destruct (Hrun w1 Hloop) as (w' & Hr & Hci & Hbp & Hcs & _).
    exists w'. split; [exact Hr|].
    rewrite Hci, Hbp, Hcs, Hci1, Hwr1, Her1, Hbp1, Hci0, Hwr0, Her0.
    assert (Hone : length (filter fails ideas) = 1) by now apply filter_one_id.
    pose proof (filter_split_length fails ideas) as Hsplit.
    fold (survivors fails ideas) in Hsplit.
    split; [|split; [|split; [|split; [|split; [|split]]]]].
    + apply mark_processed_keeps; [now apply Hin|].
      intros Hid. apply in_map_iff in Hid as (i & Hid & Hi).
      apply filter_In in Hi as [Hi E]. unfold fails in E.
      rewrite Hid, Nat.eqb_refl in E. discriminate.
    + now apply Hin.
    + intros i Hi Hneq. apply mark_processed_in; [now apply Hin|].
      apply in_map, filter_In. split; [exact Hi|].
      destruct (fails i) eqn:E; [|reflexivity].
      exfalso. apply Hneq. now apply Hfails.
    + lia.
    + lia.
    + rewrite Hbp0. lia.
    + intros H3. lia.
  - intros i. split.
    + now apply completion_throws_of.
    + now apply goes_through_of.
Qed.

Lemma per_idea_failure_handling_witness :
  (exists w1,
     WritePosts.write_idea (Samples.post_throws_for 5)
       (5, Samples.idea_row "Rhinoplasty" 8 "pending")
       (Samples.store_of Samples.six_ideas) = (Ret tt, w1) /\
     errors (counters w1) = 1 /\
     content_ideas w1 = Samples.six_ideas) /\
  (exists w1,
     WritePosts.write_idea Samples.update_down
       (5, Samples.idea_row "Rhinoplasty" 8 "pending")
       (Samples.store_of Samples.six_ideas) = (Ret tt, w1) /\
     errors (counters w1) = 0 /\
     written (counters w1) = 1 /\
     content_ideas w1 = Samples.six_ideas) /\
  (exists w',
     WritePosts.run (Samples.post_throws_for 5)
       (Samples.store_of Samples.six_ideas) = (Ret tt, w') /\
     In (5, Samples.idea_row "Rhinoplasty" 8 "pending") (content_ideas w') /\
     In (2, Samples.idea_row "Implants" 9 "processed") (content_ideas w') /\
     In (4, Samples.idea_row "Hair transplant" 6 "processed") (content_ideas w') /\
     errors (counters w') = 1 /\
     written (counters w') = 2 /\
     length (blog_posts w') = 2) /\
  (exists w',
     WritePosts.run (Samples.meta_throws_for "Rhinoplasty")
       (Samples.store_of Samples.six_ideas) = (Ret tt, w') /\
     In (5, Samples.idea_row "Rhinoplasty" 8 "pending") (content_ideas w') /\
     In (2, Samples.idea_row "Implants" 9 "processed") (content_ideas w') /\
     In (4, Samples.idea_row "Hair transplant" 6 "processed") (content_ideas w') /\
     errors (counters w') = 1 /\
     written (counters w') = 2 /\
     length (blog_posts w') = 2) /\
  (exists w',
     WritePosts.run (Samples.completion_down_for 5 "Rhinoplasty")
       (Samples.store_of Samples.six_ideas) = (Ret tt, w') /\
     In (5, Samples.idea_row "Rhinoplasty" 8 "pending") (content_ideas w') /\
     In (2, Samples.idea_row "Implants" 9 "processed") (content_ideas w') /\
     In (4, Samples.idea_row "Hair transplant" 6 "processed") (content_ideas w') /\
     errors (counters w') = 1 /\
     written (counters w') = 2 /\
     length (blog_posts w') = 2).
Proof.
  assert (Hruns : forall env,
            env = Samples.post_throws_for 5 \/
            env = Samples.meta_throws_for "Rhinoplasty" \/
            env = Samples.completion_down_for 5 "Rhinoplasty" ->
            exists w',
              WritePosts.run env (Samples.store_of Samples.six_ideas) = (Ret tt, w') /\
              In (5, Samples.idea_row "Rhinoplasty" 8 "pending") (content_ideas w') /\
              In (2, Samples.idea_row "Implants" 9 "processed") (content_ideas w') /\
              In (4, Samples.idea_row "Hair transplant" 6 "processed") (content_ideas w') /\
              errors (counters w') = 1 /\
              written (counters w') = 2 /\
              length (blog_posts w') = 2).
  { intros env Henv.
    destruct (@per_idea_failure_handling env) as (_ & Hrun & _).
    destruct (Hrun (Samples.store_of Samples.six_ideas)
                (5, Samples.idea_row "Rhinoplasty" 8 "pending"))
      as (w' & Hr & Hbad & _ & Hgood & He & _ & Hbp & Hw).
    + destruct Henv as [->|[->| ->]]; reflexivity.
    + cbn. repeat (constructor; [cbn; intuition discriminate|]). constructor.
    + vm_compute. intuition.
    + intros w.
      destruct Henv as [->|[->| ->]]; eexists;
        first [left; reflexivity | right; reflexivity].
    + intros i Hi Hne w. vm_compute in Hi.
      destruct Hi as [<-|[<-|[<-|[]]]];
        first [ exfalso; apply Hne; reflexivity
              | destruct Henv as [->|[->| ->]]; reflexivity ].
    + exists w'. split; [exact Hr|]. split; [exact Hbad|].
      split; [apply (Hgood (2, Samples.idea_row "Implants" 9 "pending"));
              [vm_compute; intuition | discriminate]|].
      split; [apply (Hgood (4, Samples.idea_row "Hair transplant" 6 "pending"));
              [vm_compute; intuition | discriminate]|].
      split; [exact He|]. split; [exact (Hw eq_refl) | exact Hbp]. }
  split; [|split; [|split; [|split]]].
  - destruct (@per_idea_failure_handling (Samples.post_throws_for 5)) as [Hturn _].
    destruct (Hturn (5, Samples.idea_row "Rhinoplasty" 8 "pending")
                (Samples.store_of Samples.six_ideas))
      as (w1 & Hr & _ & Herr & _).
    destruct (Herr 1 (Error (str "429 rate limit")) eq_refl) as (He & _ & Hci & _);
      [discriminate|].
    exists w1. repeat split; assumption.
  - destruct (@per_idea_failure_handling Samples.update_down) as [Hturn _].
    destruct (Hturn (5, Samples.idea_row "Rhinoplasty" 8 "pending")
                (Samples.store_of Samples.six_ideas))
      as (w1 & Hr & _ & _ & Hupd).
    destruct (Hupd (Error (str "timeout")) eq_refl) as (He & Hw & Hci & _).
    exists w1. repeat split; assumption.
  - apply Hruns. now left.
  - apply Hruns. right. now left.
  - apply Hruns. right. now right.
Defined.

(** ** The alert ingestor *)

(** *** The row of an idea *)

(** C4, refuted as worded: two alerts with the same suggested title get
    rows with different titles, so the title of a row is not derived from
    the suggested title. *)
Lemma row_title_is_from_the_alert :
  exists w1 w2 r1 r2,
    Automation.saveContentIdea Samples.all_up Samples.sample_alert
      Samples.sample_idea Samples.empty_world = (Ret tt, w1) /\
    Automation.saveContentIdea Samples.all_up Samples.other_alert
      Samples.sample_idea Samples.empty_world = (Ret tt, w2) /\
    content_ideas w1 = [(1, r1)] /\
    content_ideas w2 = [(1, r2)] /\
    suggested_title r1 = suggested_title r2 /\
    title r1 = str "Content Idea: New Dental Clinic" /\
    title r2 = str "Content Idea: Veneers in Turkey" /\
    title r1 <> title r2.
Proof.
  do 4 eexists.
  split; [vm_compute; reflexivity|]. split; [vm_compute; reflexivity|].
  split; [reflexivity|]. split; [reflexivity|].
  split; [reflexivity|]. split; [reflexivity|]. split; [reflexivity|].
  discriminate.
Qed.

(** C4, amended.  The row that [saveContentIdea] inserts has the title
    "Content Idea: " followed by the title of the alert, and a slug derived
    from the suggested title of the language model: lower-cased, every
    character other than a word character, whitespace or a hyphen removed,
    every run of whitespace replaced with a hyphen, cut at 100 characters.
    Its source is "google_alerts" and its status "pending". *)
Theorem content_idea_row (env : Collab) (alert : Alert) (idea : jsval)
    (w w' : World) :
  Automation.saveContentIdea env alert idea w = (Ret tt, w') ->
  exists suggested row,
    get_prop "suggested_title" idea = inr (JStr suggested) /\
    content_ideas w' = content_ideas w ++ [(fresh_id (content_ideas w), row)] /\
    In (Store (InsertIdea row)) (trace w') /\
    title row = str "Content Idea: " ++ al_title alert /\
    slug row = slug_of 100 suggested /\
    suggested_title row = JStr suggested /\
    source row = str "google_alerts" /\
    status row = str "pending".
Proof.
  destruct w as [mb ci bp cs tr n].
  unfold Automation.saveContentIdea, Automation.generateSlug.
  unfold bind, lift, log_error, emit, modify, tick, ret, throw.
  intros H.
  destruct idea as [| |b|z|s|items|fields];
    try (cbn -[Automation.slugify] in H; discriminate).
  unfold get_prop in H.
  remember (lookup (str "suggested_title") fields) as v eqn:E.
  destruct v as [| |b|z|s|items|fields'];
    cbn -[Automation.slugify lookup str] in H; try discriminate.
  match type of H with
  | context [store_fault env n ?op] => destruct (store_fault env n op)
  end; cbn -[Automation.slugify lookup str] in H; [discriminate|].
  inversion H; subst w'; clear H.
  eexists. eexists. cbn -[Automation.slugify slug_of lookup str].
  split; [now rewrite <- E|]. split; [reflexivity|].
  split; [apply in_or_app; right; left; reflexivity|].
  rewrite slugify_automation. repeat split.
Qed.

Lemma content_idea_row_witness :
  exists w' row,
    Automation.saveContentIdea Samples.all_up Samples.sample_alert
      Samples.sample_idea Samples.empty_world = (Ret tt, w') /\
    content_ideas w' = [(1, row)] /\
    title row = str "Content Idea: New Dental Clinic" /\
    slug row = str "dental-implants-abroad-what-to-expect" /\
    source row = str "google_alerts" /\
    status row = str "pending".
Proof.
  destruct (Automation.saveContentIdea Samples.all_up Samples.sample_alert
              Samples.sample_idea Samples.empty_world) as [r w'] eqn:E.
  assert (Hr : r = Ret tt) by (vm_compute in E; now inversion E).
  subst r.
  destruct (content_idea_row _ _ _ _ E) as (suggested & row & Hs & Hci & _ & Ht & Hsl & _ & Hso & Hst).
  exists w', row. split; [reflexivity|]. split; [exact Hci|].
  split; [exact Ht|]. split; [|split; assumption].
  rewrite Hsl. vm_compute in Hs. inversion Hs. reflexivity.
Defined.

(** *** Computations that return, and the mailbox *)

Lemma bind_ret_inv (A B : Type) (m : M A) (k : A -> M B) (w w' : World) (b : B) :
  bind m k w = (Ret b, w') ->
  exists a w0, m w = (Ret a, w0) /\ k a w0 = (Ret b, w').
Proof.
  unfold bind. destruct (m w) as [[a|e|c] w0]; intros H; try discriminate.
  now exists a, w0.
Qed.

Lemma try_catch_ret_inv (A : Type) (m : M A) (h : error -> M A) (w w' : World) (a : A) :
  try_catch m h w = (Ret a, w') ->
  m w = (Ret a, w') \/ exists e w0, m w = (Throw e, w0) /\ h e w0 = (Ret a, w').
Proof.
  unfold try_catch. destruct (m w) as [[x|e|c] w0]; intros H; try discriminate.
  - now left.
  - right. now exists e, w0.
Qed.

Lemma later_refl (m : Message) : later m m.
Proof. repeat split. auto. Qed.

Lemma later_trans (a b c : Message) : later a b -> later b c -> later a c.
Proof.
  intros (H1 & H2 & H3 & H4) (K1 & K2 & K3 & K4).
  repeat split; try congruence. auto.
Qed.

Lemma box_le_refl (box : list Message) : box_le box box.
Proof. induction box; constructor; [apply later_refl | assumption]. Qed.

Lemma box_le_trans (a b c : list Message) : box_le a b -> box_le b c -> box_le a c.
Proof.
  intros H. revert c. induction H as [|x y a b Hxy _ IH]; intros c Hc.
  - inversion Hc. constructor.
  - inversion Hc as [|? z ? c' Hyz Hbc]; subst.
    constructor; [exact (@later_trans x y z Hxy Hyz) | now apply IH].
Qed.

Lemma box_le_flag_seen (u : nat) (box : list Message) : box_le box (flag_seen u box).
Proof.
  induction box as [|m box IH]; cbn; constructor; [|exact IH].
  destruct (uid m =? u); [|apply later_refl].
  repeat split.
Qed.

Lemma all_seen_flag_seen (u : nat) (box : list Message) : all_seen u (flag_seen u box).
Proof.
  intros m' Hin Hu. unfold flag_seen in Hin.
  apply in_map_iff in Hin as (m & <- & _).
  destruct (uid m =? u) eqn:E; [reflexivity|].
  apply Nat.eqb_neq in E. contradiction.
Qed.

Lemma box_le_in (box box' : list Message) (m' : Message) :
  box_le box box' -> In m' box' -> exists m, In m box /\ later m m'.
Proof.
  induction 1 as [|x y a b Hxy _ IH]; cbn; intros Hin; [contradiction|].
  destruct Hin as [<-|Hin].
  - exists x. split; [now left | exact Hxy].
  - destruct (IH Hin) as (m & Hm & Hl). exists m. split; [now right | exact Hl].
Qed.

Lemma all_seen_later (u : nat) (box box' : list Message) :
  box_le box box' -> all_seen u box -> all_seen u box'.
Proof.
  intros Hle Hs m' Hin Hu.
  destruct (@box_le_in box box' m' Hle Hin) as (m & Hm & (H1 & _ & _ & H4)).
  apply H4, Hs; [exact Hm | congruence].
Qed.

Lemma find_message_later (u : nat) (box box' : list Message) :
  box_le box box' -> find_message u box <> None -> find_message u box' <> None.
Proof.
  induction 1 as [|x y a b (H1 & _) _ IH]; cbn; [auto|].
  rewrite <- H1. destruct (uid x =? u); [discriminate | exact IH].
Qed.

Lemma find_message_unseen (u : nat) (box : list Message) :
  In u (search_unseen box) -> find_message u box <> None.
Proof.
  unfold search_unseen. intros H. apply in_map_iff in H as (m & Hu & Hin).
  apply filter_In in Hin as [Hin _].
  induction box as [|x box IH]; cbn; [contradiction|].
  destruct (uid x =? u) eqn:E; [discriminate|].
  destruct Hin as [->|Hin]; [|now apply IH].
  rewrite Hu, Nat.eqb_refl in E. discriminate.
Qed.

(** When every message that was unread is marked read, none is found
    unread. *)
Lemma search_unseen_none (box box' : list Message) :
  box_le box box' ->
  (forall u, In u (search_unseen box) -> all_seen u box') ->
  search_unseen box' = [].
Proof.
  intros Hle Hall. unfold search_unseen at 1.
  rewrite filter_none; [reflexivity|].
  intros m' Hin.
  destruct (streqb (from m') alerts_sender) eqn:Ef; [|reflexivity].
  destruct (seen m') eqn:Es; [reflexivity|]. exfalso.
  destruct (@box_le_in box box' m' Hle Hin) as (m & Hm & (H1 & H2 & _ & H4)).
  assert (Hu : In (uid m) (search_unseen box)).
  { unfold search_unseen. apply in_map, filter_In. split; [exact Hm|].
    rewrite H2, Ef. destruct (seen m); [|reflexivity].
    rewrite H4 in Es by reflexivity. discriminate. }
  specialize (Hall _ Hu m' Hin (eq_sym H1)). congruence.
Qed.

(** *** Growth of the world *)

Lemma grows_refl (w : World) : grows 0 w w.
Proof.
  split; [apply box_le_refl|]. exists []. split; [now rewrite app_nil_r | reflexivity].
Qed.

Lemma grows_same (w w' : World) :
  mailbox w' = mailbox w -> content_ideas w' = content_ideas w -> grows 0 w w'.
Proof.
  intros Hm Hc. split; [rewrite Hm; apply box_le_refl|].
  exists []. split; [now rewrite app_nil_r | reflexivity].
Qed.

Lemma grows_trans (n1 n2 : nat) (w1 w2 w3 : World) :
  grows n1 w1 w2 -> grows n2 w2 w3 -> grows (n1 + n2) w1 w3.
Proof.
  intros (Hb1 & r1 & Hc1 & Hl1) (Hb2 & r2 & Hc2 & Hl2).
  split; [exact (@box_le_trans _ _ _ Hb1 Hb2)|].
  exists (r1 ++ r2). split.
  - now rewrite Hc2, Hc1, app_assoc.
  - rewrite length_app. lia.
Qed.

Lemma grows_weaken (n n' : nat) (w w' : World) :
  n <= n' -> grows n w w' -> grows n' w w'.
Proof.
  intros Hn (Hb & r & Hc & Hl). split; [exact Hb|].
  exists r. split; [exact Hc | lia].
Qed.

Lemma grows_length (n : nat) (w w' : World) :
  grows n w w' -> length (content_ideas w') <= length (content_ideas w) + n.
Proof.
  intros (_ & r & Hc & Hl). rewrite Hc, length_app. lia.
Qed.

Lemma tame_weaken (n n' : nat) (A : Type) (m : M A) :
  n <= n' -> tame n m -> tame n' m.
Proof.
  intros Hn H w. destruct (H w) as [Hg He].
  split; [exact (@grows_weaken n n' _ _ Hn Hg) | exact He].
Qed.

Lemma tame_ret (A : Type) (a : A) : tame 0 (ret a).
Proof. intros w. split; [apply grows_refl | exact I]. Qed.

Lemma tame_throw (A : Type) (e : error) : tame 0 (@throw A e).
Proof. intros w. split; [apply grows_refl | exact I]. Qed.

Lemma tame_lift (A : Type) (r : error + A) : tame 0 (lift r).
Proof. destruct r; [apply tame_throw | apply tame_ret]. Qed.

Lemma tame_get_world : tame 0 get_world.
Proof. intros w. split; [apply grows_refl | exact I]. Qed.

Lemma tame_emit (e : event) : tame 0 (emit e).
Proof. intros w. split; [now apply grows_same | exact I]. Qed.

Lemma tame_log (text : string) (args : list jsval) : tame 0 (log text args).
Proof. apply tame_emit. Qed.

Lemma tame_log_error (text : string) (args : list jsval) : tame 0 (log_error text args).
Proof. apply tame_emit. Qed.

Lemma tame_tick : tame 0 tick.
Proof. intros w. split; [now apply grows_same | exact I]. Qed.

Lemma tame_set_counters (f : Counters -> Counters) : tame 0 (set_counters f).
Proof. intros w. split; [now apply grows_same | exact I]. Qed.

Lemma tame_bind (n1 n2 : nat) (A B : Type) (m : M A) (k : A -> M B) :
  tame n1 m -> (forall a, tame n2 (k a)) -> tame (n1 + n2) (bind m k).
Proof.
  intros Hm Hk w. unfold bind. destruct (Hm w) as [Hg He].
  destruct (m w) as [[a|e|c] w0]; cbn [fst snd] in *.
  - destruct (Hk a w0) as [Hg' He']. split; [exact (@grows_trans n1 n2 _ _ _ Hg Hg') | exact He'].
  - split; [|exact I]. apply (@grows_weaken n1 (n1 + n2)); [lia | exact Hg].
  - contradiction.
Qed.

Lemma tame_try_catch (n1 n2 : nat) (A : Type) (m : M A) (h : error -> M A) :
  tame n1 m -> (forall e, tame n2 (h e)) -> tame (n1 + n2) (try_catch m h).
Proof.
  intros Hm Hh w. unfold try_catch. destruct (Hm w) as [Hg He].
  destruct (m w) as [[a|e|c] w0]; cbn [fst snd] in *.
  - split; [|exact I]. apply (@grows_weaken n1 (n1 + n2)); [lia | exact Hg].
  - destruct (Hh e w0) as [Hg' He']. split; [exact (@grows_trans n1 n2 _ _ _ Hg Hg') | exact He'].
  - contradiction.
Qed.

Lemma tame_bind0 (n : nat) (A B : Type) (m : M A) (k : A -> M B) :
  tame 0 m -> (forall a, tame n (k a)) -> tame n (bind m k).
Proof. intros Hm Hk. exact (@tame_bind 0 n A B m k Hm Hk). Qed.

Lemma tame_bind1 (A B : Type) (m : M A) (k : A -> M B) :
  tame 1 m -> (forall a, tame 0 (k a)) -> tame 1 (bind m k).
Proof. intros Hm Hk. exact (@tame_bind 1 0 A B m k Hm Hk). Qed.

Lemma tame_run (n : nat) (A : Type) (m : M A) (w w' : World) (r : outcome A) :
  tame n m -> m w = (r, w') -> grows n w w'.
Proof. intros H E. destruct (H w) as [Hg _]. now rewrite E in Hg. Qed.

(** *** The functions of the ingestor *)

Create HintDb tame discriminated.

#[local] Hint Resolve tame_ret tame_throw tame_lift tame_get_world tame_emit
  tame_log tame_log_error tame_tick tame_set_counters : tame.

(** Walk down a sequence of statements that add no row, as far as the
    lemmas known so far reach. *)
Ltac tame_seq :=
  repeat first
    [ solve [auto with tame]
    | apply tame_bind0; [solve [auto with tame] | intros ?] ].

Lemma tame_mail_call (env : Collab) (op : mail_op) :
  tame 0 (Automation.mail_call env op).
Proof.
  unfold Automation.mail_call. tame_seq.
  match goal with
  | |- context [mail_fault env ?t op] => destruct (mail_fault env t op)
  end; auto with tame.
Qed.

#[local] Hint Resolve tame_mail_call : tame.

Lemma tame_markAsRead (env : Collab) (u : nat) :
  tame 0 (Automation.markAsRead env u).
Proof.
  unfold Automation.markAsRead. tame_seq. intros w.
  split; [|exact I]. split; [apply box_le_flag_seen|].
  exists []. split; [now rewrite app_nil_r | reflexivity].
Qed.

Lemma tame_fetch_email (env : Collab) (u : nat) :
  tame 0 (Automation.fetch_email env u).
Proof.
  unfold Automation.fetch_email. tame_seq.
  match goal with
  | |- context [find_message u ?box] => destruct (find_message u box)
  end; tame_seq.
Qed.

Lemma tame_generateContentIdea (env : Collab) (alert : Alert) :
  tame 0 (Automation.generateContentIdea env alert).
Proof. unfold Automation.generateContentIdea. tame_seq. Qed.

#[local] Hint Resolve tame_markAsRead tame_fetch_email
  tame_generateContentIdea : tame.

Lemma tame_saveContentIdea (env : Collab) (alert : Alert) (idea : jsval) :
  tame 1 (Automation.saveContentIdea env alert idea).
Proof.
  unfold Automation.saveContentIdea. tame_seq.
  match goal with
  | |- context [store_fault env ?t ?op] => destruct (store_fault env t op)
  end.
  - apply (@tame_weaken 0 1); [lia|]. tame_seq.
  - intros w. split; [|exact I]. split; [apply box_le_refl|].
    eexists. split; [reflexivity|]. cbn. lia.
Qed.

(** The two parts of the loop body: the handler, and what is tried. *)
Lemma tame_handler (env : Collab) (u : nat) (e : error) :
  tame 0
    (bind (log_error "Error processing email:" [JStr (message e)])
       (fun _ => bind (set_counters Automation.incr_errors)
          (fun _ => Automation.markAsRead env u))).
Proof. tame_seq. Qed.

Lemma tame_handle_message (env : Collab) (u : nat) :
  tame 1 (Automation.handle_message env u).
Proof.
  unfold Automation.handle_message. tame_seq.
  apply (@tame_try_catch 1 0); [|intros e; apply tame_handler].
  tame_seq.
  match goal with
  | |- context [if ?b then _ else _] => destruct b
  end.
  - apply (@tame_weaken 0 1); [lia|]. tame_seq.
  - tame_seq. apply tame_bind1; [apply tame_saveContentIdea|]. intros _.
    tame_seq.
Qed.

Lemma markAsRead_ret (env : Collab) (u : nat) (w w' : World) :
  Automation.markAsRead env u w = (Ret tt, w') -> all_seen u (mailbox w').
Proof.
  unfold Automation.markAsRead. intros H.
  apply bind_ret_inv in H as (_ & w0 & _ & H).
  unfold modify in H. inversion H; subst w'. cbn. apply all_seen_flag_seen.
Qed.

(** A turn of the loop that returns has marked the message read. *)
Lemma handle_message_ret (env : Collab) (u : nat) (w w1 : World) :
  Automation.handle_message env u w = (Ret tt, w1) -> all_seen u (mailbox w1).
Proof.
  unfold Automation.handle_message. intros H.
  apply bind_ret_inv in H as (email & w0 & _ & H).
  apply try_catch_ret_inv in H as [H | (e & wb & _ & H)].
  - apply bind_ret_inv in H as (alert & wa & _ & H).
    destruct (negb (Automation.nonempty (al_query alert))).
    + apply bind_ret_inv in H as (_ & w2 & _ & H).
      apply bind_ret_inv in H as (_ & w3 & _ & H).
      apply markAsRead_ret in H. exact H.
    + apply bind_ret_inv in H as (_ & w2 & _ & H).
      apply bind_ret_inv in H as (idea & w3 & _ & H).
      apply bind_ret_inv in H as (_ & w4 & _ & H).
      apply bind_ret_inv in H as ([] & w5 & Hmark & H).
      apply markAsRead_ret in Hmark.
      assert (Hg : grows 0 w5 w1).
      { refine (@tame_run 0 unit _ w5 w1 (Ret tt) _ H). tame_seq. }
      destruct Hg as [Hle _]. exact (@all_seen_later u _ _ Hle Hmark).
  - apply bind_ret_inv in H as (_ & w2 & _ & H).
    apply bind_ret_inv in H as (_ & w3 & _ & H).
    apply markAsRead_ret in H. exact H.
Qed.

Lemma find_message_earlier (u : nat) (box box' : list Message) :
  box_le box box' -> find_message u box' <> None -> find_message u box <> None.
Proof.
  induction 1 as [|x y a b (H1 & _) _ IH]; cbn; [auto|].
  rewrite <- H1. destruct (uid x =? u); [discriminate | exact IH].
Qed.

Lemma find_message_in (u : nat) (box : list Message) :
  find_message u box <> None -> exists m, In m box /\ uid m = u.
Proof.
  induction box as [|x box IH]; cbn; [congruence|].
  destruct (uid x =? u) eqn:E.
  - intros _. exists x. split; [now left | now apply Nat.eqb_eq].
  - intros H. destruct (IH H) as (m & Hm & Hu). exists m. split; [now right | exact Hu].
Qed.

(** A message that was fetched is in the mailbox. *)
Lemma fetch_email_ret (env : Collab) (u : nat) (w w0 : World) (em : Email) :
  Automation.fetch_email env u w = (Ret em, w0) ->
  find_message u (mailbox w) <> None.
Proof.
  unfold Automation.fetch_email. intros H.
  apply bind_ret_inv in H as ([] & wa & Hcall & H).
  apply bind_ret_inv in H as (wb & wc & Hget & H).
  unfold get_world in Hget. inversion Hget; subst wb wc.
  pose proof (@tame_run 0 unit _ w wa (Ret tt) (tame_mail_call env (FetchOne u)) Hcall)
    as [Hle _].
  apply (@find_message_earlier u (mailbox w) (mailbox wa) Hle).
  destruct (find_message u (mailbox wa)); [discriminate|].
  unfold throw in H. discriminate.
Qed.

Lemma handle_message_found (env : Collab) (u : nat) (w w1 : World) :
  Automation.handle_message env u w = (Ret tt, w1) ->
  exists m, In m (mailbox w1) /\ uid m = u.
Proof.
  intros H.
  pose proof (@tame_run 1 unit _ w w1 (Ret tt) (tame_handle_message env u) H)
    as [Hle _].
  apply find_message_in.
  apply (@find_message_later u (mailbox w) (mailbox w1) Hle).
  unfold Automation.handle_message in H.
  apply bind_ret_inv in H as (em & w0 & Hf & _).
  exact (@fetch_email_ret env u w w0 em Hf).
Qed.

(** *** A mail session that works *)

Section MailUp.
Variable env : Collab.
Hypothesis Hup : mail_up env.

Lemma mail_call_up (op : mail_op) (w : World) :
  exists w', Automation.mail_call env op w = (Ret tt, w') /\
             mailbox w' = mailbox w /\ content_ideas w' = content_ideas w /\
             counters w' = counters w.
Proof.
  unfold Automation.mail_call, bind, emit, modify, tick, ret.
  cbn. rewrite Hup. eexists. split; [reflexivity|]. repeat split.
Qed.

Lemma markAsRead_up (u : nat) (w : World) :
  exists w', Automation.markAsRead env u w = (Ret tt, w').
Proof.
  unfold Automation.markAsRead, bind.
  destruct (mail_call_up (FlagsAdd u) w) as (w0 & -> & _).
  eexists. reflexivity.
Qed.

Lemma fetch_email_up (u : nat) (w : World) :
  find_message u (mailbox w) <> None ->
  exists em w', Automation.fetch_email env u w = (Ret em, w').
Proof.
  intros Hfind. unfold Automation.fetch_email. unfold bind at 1.
  destruct (mail_call_up (FetchOne u) w) as (w0 & -> & Hmb & _).
  unfold bind at 1. unfold get_world at 1. rewrite Hmb.
  destruct (find_message u (mailbox w)) as [m|]; [|congruence].
  unfold bind. destruct (mail_call_up (Parse u) w0) as (w1 & -> & _).
  eexists. eexists. reflexivity.
Qed.

Lemma handler_up (u : nat) (e : error) (w : World) :
  exists w',
    bind (log_error "Error processing email:" [JStr (message e)])
      (fun _ => bind (set_counters Automation.incr_errors)
         (fun _ => Automation.markAsRead env u)) w = (Ret tt, w').
Proof.
  unfold bind at 1 2. unfold log_error, emit, modify, set_counters.
  apply markAsRead_up.
Qed.

(** A turn of the loop returns, whatever the other services do. *)
Lemma handle_message_up (u : nat) (w : World) :
  find_message u (mailbox w) <> None ->
  exists w1, Automation.handle_message env u w = (Ret tt, w1).
Proof.
  intros Hfind.
  pose proof (proj2 (tame_handle_message env u w)) as Hne.
  destruct (fetch_email_up u w Hfind) as (em & w0 & Hf).
  unfold Automation.handle_message in *.
  unfold bind at 1 in Hne. unfold bind at 1. rewrite Hf in *.
  unfold try_catch in *. revert Hne.
  match goal with
  | |- context [match ?b with pair _ _ => _ end] =>
      destruct b as [[[]|e|c] wb]
  end; cbn [fst].
  - intros _. eexists. reflexivity.
  - intros _. apply handler_up.
  - contradiction.
Qed.

(** The loop over the messages found. *)
Lemma ingest_loop (msgs : list nat) :
  forall w,
    (forall u, In u msgs -> find_message u (mailbox w) <> None) ->
    exists w',
      for_of msgs (Automation.handle_message env) w = (Ret tt, w') /\
      grows (length msgs) w w' /\
      forall u, In u msgs -> all_seen u (mailbox w').
Proof.
  induction msgs as [|u msgs IH]; intros w Hfind.
  - exists w. split; [reflexivity|]. split; [apply grows_refl|]. intros u [].
  - destruct (@handle_message_up u w (Hfind u (or_introl eq_refl)))
      as (w1 & Hturn).
    pose proof (@tame_run 1 unit _ w w1 (Ret tt) (tame_handle_message env u) Hturn)
      as Hg1.
    pose proof (@handle_message_ret env u w w1 Hturn) as Hseen1.
    destruct (IH w1) as (w' & Hloop & Hg & Hseen).
    { intros v Hv. apply (@find_message_later v (mailbox w) (mailbox w1));
        [exact (proj1 Hg1) | apply Hfind; now right]. }
    exists w'. split; [|split].
    + erewrite for_of_cons by exact Hturn. exact Hloop.
    + exact (@grows_trans 1 (length msgs) w w1 w' Hg1 Hg).
    + intros v [<-|Hv]; [|now apply Hseen].
      exact (@all_seen_later u (mailbox w1) (mailbox w') (proj1 Hg) Hseen1).
Qed.

(** A run of the ingestor. *)
Lemma runAutomation_up (w : World) :
  client_up env ->
  exists w',
    Automation.runAutomation env w = (Ret tt, w') /\
    grows (length (search_unseen (mailbox w))) w w' /\
    forall u, In u (search_unseen (mailbox w)) -> all_seen u (mailbox w').
Proof.
  intros Hclient. destruct w as [mb ci bp cs tr n].
  unfold Automation.runAutomation, Automation.new_Imap, finally, try_catch,
    Automation.mail_call.
  unfold bind, log, emit, modify, set_counters, tick, get_world, ret.
  cbn -[for_of Automation.handle_message search_unseen].
  rewrite Hclient.
  cbn -[for_of Automation.handle_message search_unseen].
  rewrite !Hup.
  cbn -[for_of Automation.handle_message search_unseen].
  destruct (search_unseen mb) as [|u msgs] eqn:E.
  - cbn. rewrite Hup. eexists. split; [reflexivity|].
    split; [now apply grows_same | intros u []].
  - cbn -[for_of Automation.handle_message search_unseen].
    match goal with
    | |- context [for_of _ _ ?W] =>
        destruct (@ingest_loop (u :: msgs) W) as (w1 & Hloop & Hg & Hseen)
    end.
    { intros v Hv. apply find_message_unseen. cbn -[search_unseen]. now rewrite E. }
    rewrite Hloop. cbn. rewrite Hup.
    eexists. split; [reflexivity|]. destruct Hg as (Hle & rows & Hci & Hlen).
    split; [|exact Hseen].
    split; [exact Hle|]. exists rows. split; [exact Hci | exact Hlen].
Qed.

End MailUp.

(** *** The loop, whatever the services do *)

Lemma tame_for_of (env : Collab) (msgs : list nat) :
  tame (length msgs) (for_of msgs (Automation.handle_message env)).
Proof.
  induction msgs as [|u msgs IH]; cbn [for_of length]; [apply tame_ret|].
  apply (@tame_bind 1 (length msgs)); [apply tame_handle_message|].
  intros _. exact IH.
Qed.

(** A loop that returns has marked every message read. *)
Lemma for_of_ret_seen (env : Collab) (msgs : list nat) :
  forall w w',
    for_of msgs (Automation.handle_message env) w = (Ret tt, w') ->
    forall u, In u msgs -> all_seen u (mailbox w').
Proof.
  induction msgs as [|v msgs IH]; intros w w' H u Hu; [contradiction|].
  cbn [for_of] in H. apply bind_ret_inv in H as ([] & w1 & Hturn & Hrest).
  destruct Hu as [<-|Hu]; [|exact (IH w1 w' Hrest u Hu)].
  pose proof (@handle_message_ret env v w w1 Hturn) as Hseen.
  pose proof (@tame_run (length msgs) unit _ w1 w' (Ret tt)
                (tame_for_of env msgs) Hrest) as [Hle _].
  exact (@all_seen_later v (mailbox w1) (mailbox w') Hle Hseen).
Qed.

Lemma markAsRead_ret_flag (env : Collab) (u : nat) (w w' : World) :
  Automation.markAsRead env u w = (Ret tt, w') ->
  mail_fault env (clock w) (FlagsAdd u) = None.
Proof.
  destruct w as [mb ci bp cs tr n].
  unfold Automation.markAsRead, Automation.mail_call.
  unfold bind, emit, modify, tick, ret, throw. cbn.
  destruct (mail_fault env n (FlagsAdd u)); [discriminate | reflexivity].
Qed.

(** A turn of the loop that returns has marked the message read with a
    call that went through. *)
Lemma handle_message_ret_flag (env : Collab) (u : nat) (w w1 : World) :
  Automation.handle_message env u w = (Ret tt, w1) ->
  exists t, mail_fault env t (FlagsAdd u) = None.
Proof.
  unfold Automation.handle_message. intros H.
  apply bind_ret_inv in H as (email & w0 & _ & H).
  apply try_catch_ret_inv in H as [H | (e & wb & _ & H)].
  - apply bind_ret_inv in H as (alert & wa & _ & H).
    destruct (negb (Automation.nonempty (al_query alert))).
    + apply bind_ret_inv in H as (_ & w2 & _ & H).
      apply bind_ret_inv in H as (_ & w3 & _ & H).
      eexists. exact (@markAsRead_ret_flag _ _ _ _ H).
    + apply bind_ret_inv in H as (_ & w2 & _ & H).
      apply bind_ret_inv in H as (idea & w3 & _ & H).
      apply bind_ret_inv in H as (_ & w4 & _ & H).
      apply bind_ret_inv in H as ([] & w5 & Hmark & H).
      eexists. exact (@markAsRead_ret_flag _ _ _ _ Hmark).
  - apply bind_ret_inv in H as (_ & w2 & _ & H).
    apply bind_ret_inv in H as (_ & w3 & _ & H).
    eexists. exact (@markAsRead_ret_flag _ _ _ _ H).
Qed.

(** *** What becomes of the mailbox *)

Create HintDb boxed discriminated.

Section Boxed.
Variable R : list Message -> list Message -> Prop.
Hypothesis R_refl : forall box, R box box.
Hypothesis R_trans : forall a b c, R a b -> R b c -> R a c.

Lemma boxed_same (A : Type) (m : M A) :
  (forall w, mailbox (snd (m w)) = mailbox w) -> boxed R m.
Proof. intros H w. rewrite H. apply R_refl. Qed.

Lemma boxed_ret (A : Type) (a : A) : boxed R (ret a).
Proof. now apply boxed_same. Qed.

Lemma boxed_throw (A : Type) (e : error) : boxed R (@throw A e).
Proof. now apply boxed_same. Qed.

Lemma boxed_exit (A : Type) (c : nat) : boxed R (@exit A c).
Proof. now apply boxed_same. Qed.

Lemma boxed_lift (A : Type) (r : error + A) : boxed R (lift r).
Proof. destruct r; [apply boxed_throw | apply boxed_ret]. Qed.

Lemma boxed_get_world : boxed R get_world.
Proof. now apply boxed_same. Qed.

Lemma boxed_emit (e : event) : boxed R (emit e).
Proof. now apply boxed_same. Qed.

Lemma boxed_log (text : string) (args : list jsval) : boxed R (log text args).
Proof. apply boxed_emit. Qed.

Lemma boxed_log_error (text : string) (args : list jsval) :
  boxed R (log_error text args).
Proof. apply boxed_emit. Qed.

Lemma boxed_tick : boxed R tick.
Proof. now apply boxed_same. Qed.

Lemma boxed_set_counters (f : Counters -> Counters) : boxed R (set_counters f).
Proof. now apply boxed_same. Qed.

Lemma boxed_bind (A B : Type) (m : M A) (k : A -> M B) :
  boxed R m -> (forall a, boxed R (k a)) -> boxed R (bind m k).
Proof.
  intros Hm Hk w. unfold bind. specialize (Hm w).
  destruct (m w) as [[a|e|c] w0]; cbn [snd] in *; try exact Hm.
  exact (R_trans Hm (Hk a w0)).
Qed.

Lemma boxed_try_catch (A : Type) (m : M A) (h : error -> M A) :
  boxed R m -> (forall e, boxed R (h e)) -> boxed R (try_catch m h).
Proof.
  intros Hm Hh w. unfold try_catch. specialize (Hm w).
  destruct (m w) as [[a|e|c] w0]; cbn [snd] in *; try exact Hm.
  exact (R_trans Hm (Hh e w0)).
Qed.

Lemma boxed_finally (A : Type) (m : M A) (f : M unit) :
  boxed R m -> boxed R f -> boxed R (finally m f).
Proof.
  intros Hm Hf w. unfold finally. specialize (Hm w).
  destruct (m w) as [[a|e|c] w0]; cbn [snd] in *; try exact Hm;
    specialize (Hf w0); destruct (f w0) as [[[]|e'|c'] w1]; cbn [snd] in *;
    exact (R_trans Hm Hf).
Qed.

#[local] Hint Resolve boxed_ret boxed_throw boxed_exit boxed_lift
  boxed_get_world boxed_emit boxed_log boxed_log_error boxed_tick
  boxed_set_counters : boxed.

(** Walk down a sequence of statements that leave the mailbox alone. *)
Ltac boxed_seq :=
  repeat first
    [ solve [auto with boxed]
    | apply boxed_bind; [solve [auto with boxed] | intros ?] ].

Variable env : Collab.

Lemma boxed_new_Imap : boxed R (Automation.new_Imap env).
Proof.
  unfold Automation.new_Imap. boxed_seq.
  match goal with
  | |- context [Imap_fault env ?t] => destruct (Imap_fault env t)
  end; auto with boxed.
Qed.

Lemma boxed_mail_call (op : mail_op) : boxed R (Automation.mail_call env op).
Proof.
  unfold Automation.mail_call. boxed_seq.
  match goal with
  | |- context [mail_fault env ?t op] => destruct (mail_fault env t op)
  end; auto with boxed.
Qed.

#[local] Hint Resolve boxed_mail_call boxed_new_Imap : boxed.

Lemma boxed_fetch_email (u : nat) : boxed R (Automation.fetch_email env u).
Proof.
  unfold Automation.fetch_email. boxed_seq.
  match goal with
  | |- context [find_message u ?box] => destruct (find_message u box)
  end; boxed_seq.
Qed.

Lemma boxed_generateContentIdea (alert : Alert) :
  boxed R (Automation.generateContentIdea env alert).
Proof. unfold Automation.generateContentIdea. boxed_seq. Qed.

Lemma boxed_saveContentIdea (alert : Alert) (idea : jsval) :
  boxed R (Automation.saveContentIdea env alert idea).
Proof.
  unfold Automation.saveContentIdea. boxed_seq.
  match goal with
  | |- context [store_fault env ?t ?op] => destruct (store_fault env t op)
  end; [boxed_seq | now apply boxed_same].
Qed.

#[local] Hint Resolve boxed_fetch_email boxed_generateContentIdea
  boxed_saveContentIdea : boxed.

Lemma boxed_handle_message (u : nat) :
  boxed R (Automation.markAsRead env u) ->
  boxed R (Automation.handle_message env u).
Proof.
  intros Hmark. unfold Automation.handle_message. boxed_seq.
  apply boxed_try_catch; [|intros e; boxed_seq].
  boxed_seq.
  match goal with
  | |- context [if ?b then _ else _] => destruct b
  end; boxed_seq.
Qed.

Lemma boxed_for_of (msgs : list nat) :
  (forall v, boxed R (Automation.markAsRead env v)) ->
  boxed R (for_of msgs (Automation.handle_message env)).
Proof.
  intros Hmark. induction msgs as [|u msgs IH]; cbn [for_of]; [apply boxed_ret|].
  apply boxed_bind; [now apply boxed_handle_message | intros _; exact IH].
Qed.

Lemma boxed_runAutomation :
  (forall v, boxed R (Automation.markAsRead env v)) ->
  boxed R (Automation.runAutomation env).
Proof.
  intros Hmark. unfold Automation.runAutomation. boxed_seq.
  apply boxed_finally; [|auto with boxed].
  apply boxed_try_catch; [|intros e; boxed_seq].
  boxed_seq.
  match goal with
  | |- context [match ?l with [] => _ | _ :: _ => _ end] => destruct l
  end; boxed_seq.
  apply boxed_bind; [now apply boxed_for_of | intros _]. boxed_seq.
Qed.

End Boxed.

Lemma same_message_refl (u : nat) (box : list Message) : same_message u box box.
Proof. reflexivity. Qed.

Lemma same_message_trans (u : nat) (a b c : list Message) :
  same_message u a b -> same_message u b c -> same_message u a c.
Proof. unfold same_message. congruence. Qed.

Lemma same_message_flag_seen (u v : nat) (box : list Message) :
  v <> u -> same_message u box (flag_seen v box).
Proof.
  intros Hv. unfold same_message, flag_seen.
  induction box as [|m box IH]; [reflexivity|].
  cbn [map filter]. destruct (uid m =? v) eqn:Ev.
  - apply Nat.eqb_eq in Ev. cbn [set_seen uid].
    assert (Hu : (uid m =? u) = false) by (apply Nat.eqb_neq; congruence).
    rewrite Hu. exact IH.
  - destruct (uid m =? u); [now rewrite IH | exact IH].
Qed.

(** A message that is found unread is found unread as long as it is what
    it was. *)
Lemma same_message_unseen (u : nat) (box box' : list Message) :
  same_message u box box' ->
  In u (search_unseen box) -> In u (search_unseen box').
Proof.
  unfold same_message, search_unseen. intros Hs Hin.
  apply in_map_iff in Hin as (m & Hu & Hin).
  apply filter_In in Hin as [Hin Hp].
  assert (Hm : In m (filter (fun x => uid x =? u) box)).
  { apply filter_In. split; [exact Hin | now apply Nat.eqb_eq]. }
  rewrite <- Hs in Hm. apply filter_In in Hm as [Hm _].
  apply in_map_iff. exists m. split; [exact Hu|].
  apply filter_In. now split.
Qed.

Lemma unseen_not_all_seen (u : nat) (box : list Message) :
  In u (search_unseen box) -> ~ all_seen u box.
Proof.
  unfold search_unseen. intros Hin Hall.
  apply in_map_iff in Hin as (m & Hu & Hin).
  apply filter_In in Hin as [Hin Hp].
  rewrite (Hall m Hin Hu), andb_false_r in Hp. discriminate.
Qed.

(** When marking a message read fails, the mailbox stays as it is. *)
Lemma markAsRead_flag_down (env : Collab) (u : nat) :
  flag_down env u -> boxed eq (Automation.markAsRead env u).
Proof.
  intros Hdown w. destruct w as [mb ci bp cs tr n].
  unfold Automation.markAsRead, Automation.mail_call.
  unfold bind, emit, modify, tick, ret, throw. cbn.
  destruct (mail_fault env n (FlagsAdd u)) eqn:E; [reflexivity|].
  exfalso. exact (Hdown n E).
Qed.

Lemma markAsRead_same_message (env : Collab) (u v : nat) :
  flag_down env u -> boxed (same_message u) (Automation.markAsRead env v).
Proof.
  intros Hdown w. destruct (Nat.eq_dec v u) as [->|Hv].
  - rewrite <- (markAsRead_flag_down Hdown w). apply same_message_refl.
  - destruct w as [mb ci bp cs tr n].
    unfold Automation.markAsRead, Automation.mail_call.
    unfold bind, emit, modify, tick, ret, throw. cbn.
    destruct (mail_fault env n (FlagsAdd v)); cbn;
      [apply same_message_refl | now apply same_message_flag_seen].
Qed.

(** A turn for a message that cannot be marked read throws, and leaves
    the mailbox as it is. *)
Lemma handle_message_flag_down (env : Collab) (u : nat) (w : World) :
  flag_down env u ->
  exists e w1 rows,
    Automation.handle_message env u w = (Throw e, w1) /\
    mailbox w1 = mailbox w /\
    content_ideas w1 = content_ideas w ++ rows /\ length rows <= 1.
Proof.
  intros Hdown.
  destruct (Automation.handle_message env u w) as [r w1] eqn:E.
  pose proof (tame_handle_message env u w) as [Hg Hne]. rewrite E in Hg, Hne.
  cbn [fst snd] in Hg, Hne.
  pose proof (@boxed_handle_message eq (@eq_refl _) (@eq_trans _) env u
                (markAsRead_flag_down Hdown) w) as Hbox.
  rewrite E in Hbox. cbn [snd] in Hbox.
  destruct Hg as (_ & rows & Hci & Hlen).
  destruct r as [[]|e|c];
    [|exists e, w1, rows; repeat split; [now symmetry | exact Hci | exact Hlen]
     |contradiction].
  apply handle_message_ret_flag in E as [t Ht]. exfalso. exact (Hdown t Ht).
Qed.

(** *** The run, whatever the services do *)

(** Reduce a run as far as the answer of the next service. *)
Ltac run_step :=
  cbn -[for_of Automation.handle_message search_unseen].

(** A run adds one row at most for a message, and ends the process with
    code 1 if at all; unless it does, or has no client, it has marked
    every message read that it found. *)
Lemma runAutomation_grows (env : Collab) (w : World) :
  exists r w',
    Automation.runAutomation env w = (r, w') /\
    grows (length (search_unseen (mailbox w))) w w' /\
    (forall c, r = Exit c -> c = 1) /\
    (Imap_fault env (clock w) = None -> (forall c, r <> Exit c) ->
     forall u, In u (search_unseen (mailbox w)) -> all_seen u (mailbox w')).
Proof.
  assert (Hstill : forall mb ci bp cs tr n cs' tr' n',
            grows (length (search_unseen mb))
              {| mailbox := mb; content_ideas := ci; blog_posts := bp;
                 counters := cs; trace := tr; clock := n |}
              {| mailbox := mb; content_ideas := ci; blog_posts := bp;
                 counters := cs'; trace := tr'; clock := n' |}).
  { intros. apply (@grows_weaken 0); [lia|]. now apply grows_same. }
  destruct w as [mb ci bp cs tr n].
  unfold Automation.runAutomation, Automation.new_Imap, finally, try_catch,
    Automation.mail_call.
  unfold bind, log, log_error, emit, modify, set_counters, tick, get_world,
    ret, throw, exit.
  run_step.
  destruct (Imap_fault env n) as [e|] eqn:E0; run_step.
  { do 2 eexists. split; [reflexivity|]. split; [apply Hstill|].
    split; [discriminate | intros H; discriminate]. }
  destruct (mail_fault env (S n) Connect) as [e|] eqn:E1; run_step.
  { do 2 eexists. split; [reflexivity|]. split; [apply Hstill|].
    split; [intros c H; now inversion H|]. intros _ H. now destruct (H 1). }
  destruct (mail_fault env (S (S n)) MailboxOpen) as [e|] eqn:E2; run_step.
  { do 2 eexists. split; [reflexivity|]. split; [apply Hstill|].
    split; [intros c H; now inversion H|]. intros _ H. now destruct (H 1). }
  destruct (mail_fault env (S (S (S n))) Search) as [e|] eqn:E3; run_step.
  { do 2 eexists. split; [reflexivity|]. split; [apply Hstill|].
    split; [intros c H; now inversion H|]. intros _ H. now destruct (H 1). }
  destruct (search_unseen mb) as [|u msgs] eqn:Efound; run_step.
  - destruct (mail_fault env (S (S (S (S n)))) Logout) as [e|] eqn:E4; run_step;
      (do 2 eexists; split; [reflexivity|];
       split; [apply (@grows_weaken 0); [lia|]; now apply grows_same|];
       split; [discriminate | intros _ _ v []]).
  - match goal with
    | |- context [for_of _ _ ?W] =>
        pose proof (tame_for_of env (u :: msgs) W) as [Hg Hne];
        pose proof (@for_of_ret_seen env (u :: msgs) W) as Hseen;
        destruct (for_of (u :: msgs) (Automation.handle_message env) W)
          as [[[]|e|c] w1]
    end; cbn [fst snd] in Hg, Hne; [| |contradiction]; run_step.
    + specialize (Hseen w1 eq_refl).
      destruct (mail_fault env (clock w1) Logout) as [e|] eqn:E4; run_step;
        (do 2 eexists; split; [reflexivity|];
         split; [exact Hg|];
         split; [discriminate | intros _ _ v Hv; exact (Hseen v Hv)]).
    + do 2 eexists. split; [reflexivity|]. split; [exact Hg|].
      split; [intros c H; now inversion H|]. intros _ H. now destruct (H 1).
Qed.

(** When a message that is found cannot be marked read, the run ends the
    process with code 1 and the message is still unread. *)
Lemma runAutomation_flag_down (env : Collab) (w : World) (u : nat) :
  Imap_fault env (clock w) = None -> flag_down env u ->
  In u (search_unseen (mailbox w)) ->
  exists w' rows,
    Automation.runAutomation env w = (Exit 1, w') /\
    In u (search_unseen (mailbox w')) /\
    content_ideas w' = content_ideas w ++ rows /\
    length rows <= length (search_unseen (mailbox w)).
Proof.
  intros Hclient Hdown Hu.
  destruct (runAutomation_grows env w) as (r & w' & Hrun & Hg & Hexit & Hseen).
  pose proof (@boxed_runAutomation (same_message u) (same_message_refl u)
                (@same_message_trans u) env
                (fun v => markAsRead_same_message v Hdown) w) as Hsame.
  rewrite Hrun in Hsame. cbn [snd] in Hsame.
  pose proof (same_message_unseen Hsame Hu) as Hu'.
  assert (Hr : exists c, r = Exit c).
  { destruct r as [[]|e|c]; [| |now exists c];
      exfalso; apply (unseen_not_all_seen Hu');
      apply (Hseen Hclient); [discriminate | exact Hu | discriminate | exact Hu]. }
  destruct Hr as [c ->]. rewrite (Hexit c eq_refl) in Hrun.
  destruct Hg as (_ & rows & Hci & Hlen).
  exists w', rows. split; [exact Hrun|]. split; [exact Hu'|].
  split; [exact Hci | exact Hlen].
Qed.

(** *** The claim on the messages *)




(** *** A run from end to end *)

(** One unread alert with an HTML body: one row is inserted with the query,
    the title of the source and the status [pending], the message is marked
    read and the run counts one message processed. *)
Example ingest_one_alert :
  exists w' row,
    Automation.runAutomation Samples.all_up
      (Samples.inbox
         [{| uid := 7; from := alerts_sender; seen := false;
             email := Samples.alert_mail |}])
    = (Ret tt, w') /\
    content_ideas w' = [(1, row)] /\
    alert_query row = str "dental implants" /\
    source_title row = str "New Dental Clinic" /\
    source_snippet row = str "A new clinic opened..." /\
    status row = str "pending" /\
    map seen (mailbox w') = [true] /\
    counters w' = {| processed := 1; skipped := 0; written := 0; errors := 0 |}.
Proof.
  do 2 eexists. split; [vm_compute; reflexivity|]. repeat split.
Qed.

(* ================================================================== *)
(** * Further properties of the two jobs *)

Import Effects.

(** ** Calls and rows *)

Lemma calls_app (p : event -> bool) (a b : list event) :
  calls p (a ++ b) = calls p a + calls p b.
Proof. unfold calls. now rewrite filter_app, length_app. Qed.

Lemma calls_cons (p : event -> bool) (e : event) (evs : list event) :
  calls p (e :: evs) = (if p e then 1 else 0) + calls p evs.
Proof. unfold calls. cbn [filter]. destruct (p e); reflexivity. Qed.

Lemma calls_nil (p : event -> bool) : calls p [] = 0.
Proof. reflexivity. Qed.

(** Count the calls in a list of events that is written out. *)
Ltac count_calls :=
  repeat first [rewrite calls_app | rewrite calls_cons | rewrite calls_nil];
  cbn [is_chat is_mail is_logout is_insert_idea is_insert_post is_update
       is_error_line is_writer_call].

Lemma status_step_refl (ids : list nat) (t : list idea) :
  Forall2 (status_step ids) t t.
Proof. induction t; constructor; [now left | assumption]. Qed.

Lemma status_step_update (k : nat) (ids : list nat) (t : list idea) :
  In k ids -> Forall2 (status_step ids) t (update_processed k t).
Proof.
  intros Hk. induction t as [|a t IH]; cbn; constructor; [|exact IH].
  destruct (id a =? k) eqn:E; [|now left].
  right. apply Nat.eqb_eq in E. split; [now rewrite E | reflexivity].
Qed.

Lemma status_step_weaken (ids ids' : list nat) (a b : idea) :
  incl ids ids' -> status_step ids a b -> status_step ids' a b.
Proof. intros Hi [H|[H1 H2]]; [now left | right; split; [now apply Hi | exact H2]]. Qed.

Lemma status_step_trans (ids : list nat) (a b c : idea) :
  status_step ids a b -> status_step ids b c -> status_step ids a c.
Proof.
  intros [->|[Ha ->]] [->|[Hb ->]].
  - now left.
  - right. now split.
  - right. now split.
  - right. split; [exact Ha | reflexivity].
Qed.

Lemma Forall2_status_trans (ids : list nat) (t1 t2 t3 : list idea) :
  Forall2 (status_step ids) t1 t2 -> Forall2 (status_step ids) t2 t3 ->
  Forall2 (status_step ids) t1 t3.
Proof.
  intros H. revert t3. induction H as [|a b t1 t2 Hab _ IH]; intros t3 H23.
  - inversion H23. constructor.
  - inversion H23 as [|b' c t2' t3' Hbc Hrest]; subst.
    constructor; [exact (status_step_trans Hab Hbc) | now apply IH].
Qed.

Lemma Forall2_status_weaken (ids ids' : list nat) (t t' : list idea) :
  incl ids ids' -> Forall2 (status_step ids) t t' -> Forall2 (status_step ids') t t'.
Proof.
  intros Hi H. induction H; constructor; [|assumption].
  now apply (status_step_weaken Hi).
Qed.

(** ** The post writer, whatever the services do *)

(** Close a branch of a turn: the events and the rows added are read off
    the world the turn ends in. *)
Ltac wrote_ends :=
  eexists; split; [reflexivity|];
  unfold wrote;
  cbn -[WritePosts.generateSlug WritePosts.generateCategorySlug
        WritePosts.blog_post_row trim firstn Nat.mul];
  split; [reflexivity|]; split; [reflexivity|]; split; [reflexivity|];
  split;
  [ eexists; split; [rewrite <- !app_assoc; reflexivity|];
    cbn; repeat split; lia |].

Lemma write_idea_wrote (env : Collab) (i : idea) (w : World) :
  exists w1, WritePosts.write_idea env i w = (Ret tt, w1) /\ wrote [i] w w1.
Proof.
  destruct w as [mb ci bp cs tr n].
  unfold WritePosts.write_idea.
  unfold WritePosts.generateBlogPost, WritePosts.generateMetaDescription,
    WritePosts.saveBlogPost, WritePosts.markIdeaAsProcessed.
  unfold try_catch, bind, log, log_error, emit, modify, tick, set_counters,
    lift, ret, throw, substring0.
  turn_step.
  assert (Hnone : forall c,
            exists posts : list BlogPost,
              bp = bp ++ posts /\
              Forall (fun p => exists i0, In i0 [i] /\ post_of i0 p) posts /\
              written c = written c + length posts /\
              S (errors c) + length posts = errors c + 1 /\
              Forall2 (status_step (map bp_source_idea_id posts)) ci ci).
  { intros c. exists []. rewrite app_nil_r. cbn [length map].
    split; [reflexivity|]. split; [constructor|]. split; [lia|].
    split; [lia | apply status_step_refl]. }
  destruct (chat env n (PostFromIdea i)) as [e|content]; turn_step;
    [wrote_ends; apply Hnone|].
  destruct (chat env (S n) _) as [e|answer]; turn_step;
    [wrote_ends; apply Hnone|].
  destruct (WritePosts.generateSlug _) as [e|slug_] eqn:Es; turn_step;
    [wrote_ends; apply Hnone|].
  destruct (WritePosts.generateCategorySlug _) as [e|category_slug] eqn:Ec;
    turn_step; [wrote_ends; apply Hnone|].
  destruct (store_fault env (S (S (S (S n)))) _) as [e|]; turn_step;
    [wrote_ends; apply Hnone|].
  assert (Hpost : forall c ci',
            Forall2 (status_step [id i]) ci ci' ->
            exists posts : list BlogPost,
              bp ++ [WritePosts.blog_post_row i content (trim answer) slug_
                       category_slug (now env (S (S n))) (now env (S (S (S n))))]
              = bp ++ posts /\
              Forall (fun p => exists i0, In i0 [i] /\ post_of i0 p) posts /\
              S (written c) = written c + length posts /\
              errors c + length posts = errors c + 1 /\
              Forall2 (status_step (map bp_source_idea_id posts)) ci ci').
  { intros c ci' Hci. eexists. split; [reflexivity|]. cbn [length].
    split; [|split; [lia|split; [lia | exact Hci]]].
    constructor; [|constructor].
    exists i. split; [now left|]. unfold post_of.
    do 6 eexists. split; [exact Es|]. split; [exact Ec | reflexivity]. }
  destruct (store_fault env (S (S (S (S (S n))))) _) as [e|]; turn_step.
  - wrote_ends. apply Hpost, status_step_refl.
  - wrote_ends. apply Hpost, status_step_update. now left.
Qed.

Lemma wrote_nil (w : World) : wrote [] w w.
Proof.
  unfold wrote. repeat (split; [reflexivity|]). split.
  - exists []. rewrite app_nil_r. cbn. repeat split; lia.
  - exists []. rewrite app_nil_r. cbn [length map].
    split; [reflexivity|]. split; [constructor|]. split; [lia|].
    split; [lia | apply status_step_refl].
Qed.

Lemma wrote_cons (i : idea) (ideas : list idea) (w w1 w2 : World) :
  wrote [i] w w1 -> wrote ideas w1 w2 -> wrote (i :: ideas) w w2.
Proof.
  intros (Hm1 & Hp1 & Hs1 & (ev1 & Ht1 & Hc1 & Hi1 & Hu1 & Hn1 & Hx1)
          & (ps1 & Hb1 & Hf1 & Hw1 & He1 & Hst1))
         (Hm2 & Hp2 & Hs2 & (ev2 & Ht2 & Hc2 & Hi2 & Hu2 & Hn2 & Hx2)
          & (ps2 & Hb2 & Hf2 & Hw2 & He2 & Hst2)).
  unfold wrote. cbn [length map] in *.
  split; [congruence|]. split; [congruence|]. split; [congruence|].
  split.
  - exists (ev1 ++ ev2). rewrite Ht2, Ht1, app_assoc, !calls_app.
    repeat split; lia.
  - exists (ps1 ++ ps2). rewrite Hb2, Hb1, app_assoc, length_app, map_app.
    split; [reflexivity|]. split; [|split; [lia|split; [lia|]]].
    + apply Forall_app. split.
      * eapply Forall_impl; [|exact Hf1].
        intros p (j & [<-|[]] & Hj). exists i. split; [now left | exact Hj].
      * eapply Forall_impl; [|exact Hf2].
        intros p (j & Hin & Hj). exists j. split; [now right | exact Hj].
    + apply (@Forall2_status_trans _ _ (content_ideas w1)).
      * apply (@Forall2_status_weaken (map bp_source_idea_id ps1)); [|exact Hst1].
        intros k Hk. apply in_or_app. now left.
      * apply (@Forall2_status_weaken (map bp_source_idea_id ps2)); [|exact Hst2].
        intros k Hk. apply in_or_app. now right.
Qed.

(** The loop over the ideas taken returns, whatever the services do. *)
Lemma write_loop_wrote (env : Collab) (ideas : list idea) :
  forall w, exists w',
    for_of ideas (WritePosts.write_idea env) w = (Ret tt, w') /\
    wrote ideas w w'.
Proof.
  induction ideas as [|i ideas IH]; intros w.
  - exists w. split; [reflexivity | apply wrote_nil].
  - destruct (write_idea_wrote env i w) as (w1 & Hturn & H1).
    destruct (IH w1) as (w' & Hloop & H2).
    exists w'. split; [|exact (wrote_cons H1 H2)].
    erewrite for_of_cons by exact Hturn. exact Hloop.
Qed.

(** A run of the writer returns, whatever the services do. *)
Lemma run_ran (env : Collab) (w : World) :
  exists w', WritePosts.run env w = (Ret tt, w') /\ ran (selected env w) w w'.
Proof.
  destruct w as [mb ci bp cs tr n].
  unfold selected, WritePosts.run, WritePosts.getPendingIdeas.
  unfold bind, log, log_error, emit, modify, tick, get_world, ret, set_counters.
  cbn -[for_of WritePosts.write_idea select_pending].
  destruct (store_fault env n SelectPending) as [e|];
    cbn -[for_of WritePosts.write_idea select_pending].
  - eexists. split; [reflexivity|]. unfold ran. cbn.
    split; [reflexivity|]. split; [|split].
    + eexists. split; [rewrite <- !app_assoc; reflexivity|].
      cbn. repeat split; lia.
    + exists []. rewrite app_nil_r.
      split; [reflexivity|]. split; [constructor|]. split; [congruence|].
      apply status_step_refl.
    + reflexivity.
  - change WritePosts.POSTS_PER_DAY with 3.
    destruct (select_pending 3 ci) as [|i ideas] eqn:E;
      cbn -[for_of WritePosts.write_idea select_pending].
    + eexists. split; [reflexivity|]. unfold ran. cbn.
      split; [reflexivity|]. split; [|split].
      * eexists. split; [rewrite <- !app_assoc; reflexivity|].
        cbn. repeat split; lia.
      * exists []. rewrite app_nil_r.
        split; [reflexivity|]. split; [constructor|]. split; [congruence|].
        apply status_step_refl.
      * reflexivity.
    + match goal with
      | |- context [for_of _ _ ?W] =>
          destruct (write_loop_wrote env (i :: ideas) W)
            as (w1 & Hloop & Hm & _ & _ & (evs & Ht & Hc & Hi & Hu & Hn & Hx)
                & (posts & Hb & Hf & Hw & He & Hst))
      end.
      rewrite Hloop. eexists. split; [reflexivity|].
      cbn -[select_pending Nat.mul length] in *.
      unfold ran. cbn -[select_pending Nat.mul length].
      split; [exact Hm|]. split; [|split].
      * eexists. split; [rewrite Ht, <- !app_assoc; reflexivity|].
        count_calls. cbn [length] in *. repeat split; lia.
      * exists posts. split; [exact Hb|]. split; [exact Hf|].
        split; [intros _; lia | exact Hst].
      * discriminate.
Qed.

Lemma selected_pending (env : Collab) (w : World) :
  length (selected env w) <= 3 /\
  forall i, In i (selected env w) ->
    In i (content_ideas w) /\ is_pending i = true.
Proof.
  unfold selected. destruct (store_fault env (clock w) SelectPending).
  - split; [cbn; lia | intros i []].
  - destruct (select_pending_spec WritePosts.POSTS_PER_DAY (content_ideas w))
      as (Hin & Hlen & _).
    split; [|exact Hin]. rewrite Hlen. change WritePosts.POSTS_PER_DAY with 3. lia.
Qed.

Lemma calculateReadingTime_pos (text : jsstring) :
  1 <= WritePosts.calculateReadingTime text.
Proof.
  rewrite calculateReadingTime_ceiling, word_count_runs. apply ceiling_pos.
Qed.

(** What the columns of an idea have to be for a post to be derived. *)
Lemma post_of_writable (i : idea) (p : BlogPost) :
  post_of i p -> writable i = true.
Proof.
  intros (content & answer & slug_ & cat & created & updated & Hs & Hc & _).
  unfold writable. unfold WritePosts.generateSlug, as_string in Hs.
  destruct (suggested_title (cols i)); try discriminate.
  unfold WritePosts.generateCategorySlug, as_string in Hc.
  destruct (truthy (topic (cols i))); [|reflexivity].
  cbn [negb orb] in *. destruct (topic (cols i)); try discriminate. reflexivity.
Qed.

Lemma status_step_none (t t' : list idea) :
  Forall2 (status_step []) t t' -> t' = t.
Proof.
  induction 1 as [|a b t t' [->|[[] _]] _ IH]; [reflexivity|]. now rewrite IH.
Qed.

Lemma Forall2_status_id (ids : list nat) (t t' : list idea) :
  Forall2 (status_step ids) t t' -> map id t' = map id t.
Proof.
  induction 1 as [|a b t t' [->|[_ ->]] _ IH]; cbn; [reflexivity| |];
    now rewrite IH.
Qed.

(** *** The run *)

(** X1.  Whatever the completion service and the store answer, a run of the
    writer returns: it neither throws nor ends the process, and every idea
    taken is either written or counted as an error. *)
Theorem writer_run_returns (env : Collab) (w : World) :
  exists w',
    WritePosts.run env w = (Ret tt, w') /\
    (selected env w <> [] ->
     written (counters w') + errors (counters w') = length (selected env w)) /\
    (selected env w = [] -> counters w' = counters w).
Proof.
  destruct (run_ran env w) as (w' & Hrun & _ & _ & (posts & _ & _ & Hcount & _) & Hnone).
  exists w'. split; [exact Hrun|]. split; [|exact Hnone].
  intros Hne. destruct (Hcount Hne) as [Hw He]. lia.
Qed.

(** X2.  A run changes no row of [blog_posts] and adds three rows at most.
    Every row added is a draft by "Meet Your Clinic" derived from an idea
    that was pending and taken by this run, whose suggested title is a
    string; its reading time is at least 1; and the counter of the posts
    written is the number of rows added. *)
Theorem writer_adds_drafts_of_pending_ideas (env : Collab) (w : World) :
  exists w' posts,
    WritePosts.run env w = (Ret tt, w') /\
    blog_posts w' = blog_posts w ++ posts /\
    length posts <= 3 /\
    (selected env w <> [] -> written (counters w') = length posts) /\
    Forall (fun p =>
      exists i,
        In i (content_ideas w) /\ is_pending i = true /\
        bp_source_idea_id p = id i /\
        bp_title p = suggested_title (cols i) /\
        (exists s, suggested_title (cols i) = JStr s /\
                   bp_slug p = WritePosts.slugify 80 s) /\
        bp_status p = str "draft" /\
        bp_author_name p = str "Meet Your Clinic" /\
        bp_excerpt p = WritePosts.generateExcerpt (bp_content p) /\
        bp_reading_time p = WritePosts.calculateReadingTime (bp_content p) /\
        1 <= bp_reading_time p) posts.
Proof.
  destruct (run_ran env w)
    as (w' & Hrun & _ & _ & (posts & Hb & Hf & Hcount & _) & Hnone).
  destruct (selected_pending env w) as [Hlen Hsel].
  exists w', posts. split; [exact Hrun|]. split; [exact Hb|].
  assert (Hposts : length posts <= length (selected env w)).
  { destruct (selected env w) as [|i ideas] eqn:E.
    - destruct posts as [|p posts]; [cbn; lia|].
      inversion Hf as [|p' l' (j & [] & _)].
    - destruct Hcount as [Hw He]; [discriminate|]. lia. }
  split; [lia|]. split; [intros Hne; now destruct (Hcount Hne)|].
  eapply Forall_impl; [|exact Hf].
  intros p (i & Hi & content & answer & slug_ & cat & created & updated
            & Hs & Hc & ->).
  exists i. destruct (Hsel i Hi) as [Hin Hpend].
  split; [exact Hin|]. split; [exact Hpend|].
  cbn [WritePosts.blog_post_row bp_source_idea_id bp_title bp_slug bp_status
       bp_author_name bp_excerpt bp_content bp_reading_time].
  split; [reflexivity|]. split; [reflexivity|]. split.
  - unfold WritePosts.generateSlug, as_string in Hs.
    destruct (suggested_title (cols i)) as [| | | |s| |]; try discriminate.
    exists s. split; [reflexivity|]. now inversion Hs.
  - repeat split. apply calculateReadingTime_pos.
Qed.

(** X3.  A run adds no row to [content_ideas] and removes none, and every row
    keeps its place and its id.  A row changes only in that its status
    becomes "processed", and only when this run has added a post with its
    id: an idea of which no post has been added stays as it was. *)
Theorem writer_marks_processed_only_with_a_post (env : Collab) (w : World) :
  exists w' posts,
    WritePosts.run env w = (Ret tt, w') /\
    blog_posts w' = blog_posts w ++ posts /\
    map id (content_ideas w') = map id (content_ideas w) /\
    Forall2 (fun a b =>
      b = a \/
      (In (id a) (map bp_source_idea_id posts) /\
       In (id a) (map id (selected env w)) /\
       b = (id a, set_status (str "processed") (cols a))))
      (content_ideas w) (content_ideas w').
Proof.
  destruct (run_ran env w)
    as (w' & Hrun & _ & _ & (posts & Hb & Hf & _ & Hst) & _).
  exists w', posts. split; [exact Hrun|]. split; [exact Hb|].
  split; [exact (Forall2_status_id Hst)|].
  eapply Forall2_impl; [|exact Hst].
  intros a b [->|[Hin ->]]; [now left|]. right.
  split; [exact Hin|]. split; [|reflexivity].
  apply in_map_iff in Hin as (p & Hp & Hin).
  rewrite Forall_forall in Hf.
  destruct (Hf p Hin) as (i & Hi & content & answer & slug_ & cat & created
                          & updated & _ & _ & ->).
  cbn in Hp. rewrite <- Hp. now apply in_map.
Qed.

(** X4.  A run asks the completion service twice at most for every idea taken,
    so six times at most; it inserts one post at most for every idea
    taken, updates a status only after the insert of a post, and never
    calls the mail session or inserts an idea. *)
Theorem writer_call_budget (env : Collab) (w : World) :
  exists w' evs,
    WritePosts.run env w = (Ret tt, w') /\
    trace w' = trace w ++ evs /\
    calls is_chat evs <= 2 * length (selected env w) /\
    calls is_chat evs <= 6 /\
    calls is_insert_post evs <= length (selected env w) /\
    calls is_update evs <= calls is_insert_post evs /\
    calls is_mail evs = 0 /\
    calls is_insert_idea evs = 0.
Proof.
  destruct (run_ran env w)
    as (w' & Hrun & _ & (evs & Ht & Hc & Hi & Hu & Hm & Hx) & _).
  destruct (selected_pending env w) as [Hlen _].
  exists w', evs. repeat split; try assumption. lia.
Qed.

(** X5.  Ideas that are not writable, the suggested title not being a string or
    the topic being neither a string nor falsy, are never written.  When
    every idea taken is such an idea, the run adds no post, counts every
    idea as an error and leaves [content_ideas] as it was, so that the next
    run takes the same ideas again. *)
Theorem unwritable_ideas_stay_pending (env : Collab) (w : World) :
  store_fault env (clock w) SelectPending = None ->
  (forall i, In i (select_pending WritePosts.POSTS_PER_DAY (content_ideas w)) ->
     writable i = false) ->
  exists w',
    WritePosts.run env w = (Ret tt, w') /\
    blog_posts w' = blog_posts w /\
    content_ideas w' = content_ideas w /\
    select_pending WritePosts.POSTS_PER_DAY (content_ideas w')
    = select_pending WritePosts.POSTS_PER_DAY (content_ideas w) /\
    (select_pending WritePosts.POSTS_PER_DAY (content_ideas w) <> [] ->
     written (counters w') = 0 /\
     errors (counters w')
     = length (select_pending WritePosts.POSTS_PER_DAY (content_ideas w))).
Proof.
  intros Hsel Hbad.
  destruct (run_ran env w)
    as (w' & Hrun & _ & _ & (posts & Hb & Hf & Hcount & Hst) & _).
  unfold selected in *. rewrite Hsel in *.
  assert (Hnone : posts = []).
  { destruct posts as [|p posts]; [reflexivity|].
    inversion Hf as [|p' l' (i & Hi & Hp) _]; subst.
    apply post_of_writable in Hp. rewrite (Hbad i Hi) in Hp. discriminate. }
  subst posts. rewrite app_nil_r in Hb. cbn [map] in Hst.
  apply status_step_none in Hst.
  exists w'. split; [exact Hrun|]. split; [exact Hb|]. split; [exact Hst|].
  split; [now rewrite Hst|].
  intros Hne. destruct (Hcount Hne) as [Hw He]. cbn [length] in *. lia.
Qed.

(** An idea without a suggested title is not writable. *)
Lemma unwritable_ideas_stay_pending_witness :
  exists w',
    WritePosts.run Samples.all_up (Samples.store_of [(1, Scenes.untitled_row)])
    = (Ret tt, w') /\
    blog_posts w' = [] /\
    content_ideas w' = [(1, Scenes.untitled_row)] /\
    select_pending WritePosts.POSTS_PER_DAY (content_ideas w')
    = select_pending WritePosts.POSTS_PER_DAY [(1, Scenes.untitled_row)] /\
    (select_pending WritePosts.POSTS_PER_DAY [(1, Scenes.untitled_row)] <> [] ->
     written (counters w') = 0 /\
     errors (counters w')
     = length (select_pending WritePosts.POSTS_PER_DAY [(1, Scenes.untitled_row)])).
Proof.
  refine (@unwritable_ideas_stay_pending Samples.all_up
            (Samples.store_of [(1, Scenes.untitled_row)]) eq_refl _).
  intros i Hi. vm_compute in Hi. destruct Hi as [<-|[]]. reflexivity.
Defined.

(** ** The alert ingestor, whatever the services do *)

Lemma flag_step_refl (uids : list nat) (box : list Message) :
  Forall2 (flag_step uids) box box.
Proof. induction box; constructor; [now left | assumption]. Qed.

Lemma flag_step_flag (u : nat) (uids : list nat) (box : list Message) :
  In u uids -> Forall2 (flag_step uids) box (flag_seen u box).
Proof.
  intros Hu. induction box as [|m box IH]; cbn; constructor; [|exact IH].
  destruct (uid m =? u) eqn:E; [|now left].
  right. apply Nat.eqb_eq in E. split; [now rewrite E | reflexivity].
Qed.

Lemma Forall2_flag_trans (uids : list nat) (a b c : list Message) :
  Forall2 (flag_step uids) a b -> Forall2 (flag_step uids) b c ->
  Forall2 (flag_step uids) a c.
Proof.
  intros H. revert c. induction H as [|x y a b Hxy _ IH]; intros c Hbc.
  - inversion Hbc. constructor.
  - inversion Hbc as [|y' z b' c' Hyz Hrest]; subst.
    constructor; [|now apply IH].
    destruct Hxy as [->|[Hx ->]]; destruct Hyz as [->|[Hy ->]].
    + now left.
    + right. now split.
    + right. now split.
    + right. split; [exact Hx | reflexivity].
Qed.

Lemma Forall2_flag_weaken (uids uids' : list nat) (a b : list Message) :
  incl uids uids' -> Forall2 (flag_step uids) a b -> Forall2 (flag_step uids') a b.
Proof.
  intros Hi H. induction H as [|x y a b [->|[Hx ->]] _ IH]; constructor;
    try assumption; [now left | right; split; [now apply Hi | reflexivity]].
Qed.

Lemma flag_step_keeps (uids : list nat) (box box' : list Message) (m : Message) :
  Forall2 (flag_step uids) box box' ->
  In m box -> ~ In (uid m) uids -> In m box'.
Proof.
  intros Hf. induction Hf as [|x y a b Hxy _ IH]; intros Hin Hnot.
  - contradiction.
  - destruct Hin as [->|Hin]; [|right; now apply IH].
    left. destruct Hxy as [->|[Hu _]]; [reflexivity | contradiction].
Qed.

Lemma ingested_refl (uids : list nat) (w : World) : ingested uids w w.
Proof.
  exists [], []. unfold ingests. rewrite !app_nil_r. cbn.
  split; [|reflexivity].
  split; [reflexivity|]. split; [reflexivity|].
  split; [apply flag_step_refl|].
  repeat split; try lia; constructor.
Qed.

Lemma ingests_trans (a b : list nat) (ev1 ev2 : list event) (r1 r2 : list idea)
    (w w1 w2 : World) :
  ingests a ev1 r1 w w1 -> ingests b ev2 r2 w1 w2 ->
  ingests (a ++ b) (ev1 ++ ev2) (r1 ++ r2) w w2.
Proof.
  intros (Hb1 & Hw1 & Hf1 & Ht1 & Hc1 & Hr1 & Hl1 & Hi1 & Hn1 & Hx1)
         (Hb2 & Hw2 & Hf2 & Ht2 & Hc2 & Hr2 & Hl2 & Hi2 & Hn2 & Hx2).
  unfold ingests. split; [congruence|]. split; [congruence|]. split.
  - apply (@Forall2_flag_trans _ _ (mailbox w1)).
    + apply (@Forall2_flag_weaken a); [|exact Hf1].
      intros k Hk. apply in_or_app. now left.
    + apply (@Forall2_flag_weaken b); [|exact Hf2].
      intros k Hk. apply in_or_app. now right.
  - rewrite Ht2, Ht1, Hc2, Hc1, !app_assoc, !calls_app, !length_app.
    split; [reflexivity|]. split; [reflexivity|].
    split; [apply Forall_app; now split|]. repeat split; lia.
Qed.

Lemma ingested_trans (a b : list nat) (w w1 w2 : World) :
  ingested a w w1 -> ingested b w1 w2 -> ingested (a ++ b) w w2.
Proof.
  intros (ev1 & r1 & H1 & Ho1) (ev2 & r2 & H2 & Ho2).
  exists (ev1 ++ ev2), (r1 ++ r2). split; [exact (ingests_trans H1 H2)|].
  rewrite calls_app. lia.
Qed.

Lemma ingested_weaken (a b : list nat) (w w' : World) :
  incl a b -> length a <= length b -> ingested a w w' -> ingested b w w'.
Proof.
  intros Hi Hl (evs & rows & (Hb & Hw & Hf & Ht & Hc & Hr & Hn & Hx & Hy & Hz) & Ho).
  exists evs, rows. split; [|exact Ho]. unfold ingests.
  split; [exact Hb|]. split; [exact Hw|].
  split; [exact (Forall2_flag_weaken Hi Hf)|].
  repeat split; try assumption. lia.
Qed.

Lemma flag_step_find (uids : list nat) (u : nat) (box box' : list Message) :
  Forall2 (flag_step uids) box box' ->
  find_message u box' = None -> find_message u box = None.
Proof.
  induction 1 as [|x y a b [->|[_ ->]] _ IH]; cbn; [auto| |];
    (destruct (uid x =? u); [intros H; discriminate | exact IH]).
Qed.

Lemma counted_refl (w : World) : counted 0 w w.
Proof. unfold counted. lia. Qed.

Lemma counted_trans (j k : nat) (w w1 w2 : World) :
  counted j w w1 -> counted k w1 w2 -> counted (j + k) w w2.
Proof. unfold counted. lia. Qed.

(** *** Saving an idea *)

(** The three ways [saveContentIdea] ends: with a [TypeError] before
    anything is done, the suggested title not being a string; with the
    error of the store, logged, after the insert was refused; or with the
    row inserted. *)
Lemma saveContentIdea_cases (env : Collab) (alert : Alert) (idea : jsval)
    (w : World) :
  (exists msg,
     (forall s, get_prop "suggested_title" idea <> inr (JStr s)) /\
     Automation.saveContentIdea env alert idea w = (Throw (TypeError msg), w)) \/
  (exists s row,
     get_prop "suggested_title" idea = inr (JStr s) /\
     alert_row row /\
     suggested_title row = JStr s /\
     source_title row = al_title alert /\
     alert_query row = al_query alert /\
     original_url row = al_url alert /\
     source_snippet row = al_snippet alert /\
     alert_date row = al_date alert /\
     Automation.saveContentIdea env alert idea w =
     match store_fault env (clock w) (InsertIdea row) with
     | Some e =>
         (Throw e,
          with_trace (trace w ++ [Store (InsertIdea row);
                                  LogError "Supabase insert error:" [JStr (message e)]])
            (with_clock (S (clock w)) w))
     | None =>
         (Ret tt,
          with_content_ideas (insert_idea row (content_ideas w))
            (with_trace (trace w ++ [Store (InsertIdea row)])
               (with_clock (S (clock w)) w)))
     end).
Proof.
  destruct w as [mb ci bp cs tr n].
  unfold Automation.saveContentIdea, Automation.generateSlug.
  unfold bind, lift, log_error, emit, modify, tick, ret, throw.
  destruct idea as [| |b|z|s|items|fields];
    try (left; eexists; split; [intros s' H; discriminate | reflexivity]).
  unfold get_prop.
  destruct (lookup (str "suggested_title") fields) as [| |b|z|s|items|fields']
    eqn:Et;
    try (left; eexists; split; [intros s' H; discriminate | reflexivity]).
  right. eexists. eexists.
  split; [reflexivity|].
  cbn -[Automation.slugify lookup str insert_idea].
  match goal with
  | |- context [store_fault env n (InsertIdea ?row)] =>
      instantiate (1 := row)
  end.
  split; [unfold alert_row; cbn; repeat split; eexists; split; reflexivity|].
  do 6 (split; [reflexivity|]).
  match goal with
  | |- context [store_fault env n ?op] => destruct (store_fault env n op)
  end; cbn -[Automation.slugify lookup str insert_idea];
    rewrite <- ?app_assoc; reflexivity.
Qed.

(** X6.  [saveContentIdea] ends in one of three ways.  Unless the suggested
    title of the idea is a string, it throws a [TypeError] before the store
    is called, and the world is left exactly as it was; this is so for an
    idea that is [null] or [undefined] and for one without the key.
    Otherwise it asks the store once to insert a row that is pending and
    carries the fields of the alert.  When the store reports an error, it
    logs the message of that error and throws it, and no row is added;
    when it does not, the row is appended. *)
Theorem saveContentIdea_outcomes (env : Collab) (alert : Alert) (idea : jsval)
    (w : World) :
  (exists msg,
     (forall s, get_prop "suggested_title" idea <> inr (JStr s)) /\
     Automation.saveContentIdea env alert idea w = (Throw (TypeError msg), w)) \/
  (exists s row,
     get_prop "suggested_title" idea = inr (JStr s) /\
     status row = str "pending" /\
     source row = str "google_alerts" /\
     suggested_title row = JStr s /\
     slug row = Automation.slugify 100 s /\
     title row = str "Content Idea: " ++ al_title alert /\
     source_title row = al_title alert /\
     alert_query row = al_query alert /\
     original_url row = al_url alert /\
     source_snippet row = al_snippet alert /\
     alert_date row = al_date alert /\
     exists w',
       snd (Automation.saveContentIdea env alert idea w) = w' /\
       blog_posts w' = blog_posts w /\
       mailbox w' = mailbox w /\
       match store_fault env (clock w) (InsertIdea row) with
       | Some e =>
           fst (Automation.saveContentIdea env alert idea w) = Throw e /\
           trace w' = trace w ++
             [Store (InsertIdea row);
              LogError "Supabase insert error:" [JStr (message e)]] /\
           content_ideas w' = content_ideas w
       | None =>
           fst (Automation.saveContentIdea env alert idea w) = Ret tt /\
           trace w' = trace w ++ [Store (InsertIdea row)] /\
           content_ideas w'
           = content_ideas w ++ [(fresh_id (content_ideas w), row)]
       end).
Proof.
  destruct (saveContentIdea_cases env alert idea w)
    as [(msg & Hno & Hsave)
       |(s & row & Hs & (Hst & Hso & Hti & s' & Hsu & Hsl) & Hsug & Hsrc & Hq
         & Hurl & Hsn & Hd & Hsave)].
  - left. now exists msg.
  - right. exists s, row. rewrite Hsug in Hsu. inversion Hsu; subst s'.
    rewrite Hsrc in Hti.
    repeat (split; [assumption|]).
    eexists. split; [reflexivity|]. rewrite Hsave.
    destruct w as [mb ci bp cs tr n]. cbn [clock].
    destruct (store_fault env n (InsertIdea row)); cbn; repeat split.
Qed.

(** *** One message *)

Ltac ingest_step :=
  cbn -[Automation.parseAlert Automation.saveContentIdea Automation.slugify
        lookup str flag_seen find_message insert_idea fresh_id get_prop].

(** With a mail session that works no call on it has failed. *)
Ltac mail_is_up Hup :=
  unfold mail_up in Hup;
  match goal with
  | E : mail_fault _ _ _ = Some _ |- _ => rewrite Hup in E; discriminate
  end.

(** Close a branch of a turn: the events, the rows and the flags are read
    off the world the turn ends in. *)
Ltac ingest_ends :=
  do 2 eexists; split; [reflexivity|]; split;
  [ unfold ingested, ingests; ingest_step;
    eexists;
    first
      [ exists []; split;
        [ split; [reflexivity|]; split; [reflexivity|];
          split; [first [apply flag_step_refl | apply flag_step_flag; now left]|];
          split; [rewrite <- ?app_assoc; reflexivity|];
          split; [now rewrite app_nil_r|]; split; [constructor|];
          count_calls; cbn [length]; repeat split; lia
        | count_calls; reflexivity ]
      | eexists; split;
        [ split; [reflexivity|]; split; [reflexivity|];
          split; [first [apply flag_step_refl | apply flag_step_flag; now left]|];
          split; [rewrite <- ?app_assoc; reflexivity|];
          split; [reflexivity|];
          split; [constructor; [assumption | constructor]|];
          count_calls; cbn [length]; repeat split; lia
        | count_calls; reflexivity ] ]
  | first
      [ exact (fun H => H)
      | let Hup := fresh "Hup" in
        intros Hup;
        first
          [ mail_is_up Hup
          | reflexivity
          | assumption
          | unfold counted; cbn; unfold insert_idea;
            rewrite ?length_app; cbn; lia ] ] ].

(** The rest of a turn: the message is marked read, in the body of the
    [try] or in its handler. *)
Ltac ingest_rest :=
  repeat
    (lazymatch goal with
     | |- context [match mail_fault ?env ?t (FlagsAdd ?v) with _ => _ end] =>
         let E := fresh "Eflag" in
         destruct (mail_fault env t (FlagsAdd v)) eqn:E; ingest_step
     end);
  ingest_ends.

(** A turn of the loop, whatever the services do: it does not end the
    process; with a mail session that works it returns, for a message that
    is in the mailbox, and counts the message once. *)
Lemma handle_message_turn (env : Collab) (u : nat) (w : World) :
  exists r w',
    Automation.handle_message env u w = (r, w') /\
    ingested [u] w w' /\
    match r with
    | Exit _ => False
    | Ret _ => mail_up env -> counted 1 w w'
    | Throw _ => mail_up env -> find_message u (mailbox w) = None
    end.
Proof.
  destruct w as [mb ci bp cs tr n].
  unfold Automation.handle_message, Automation.fetch_email, Automation.markAsRead,
    Automation.mail_call, Automation.generateContentIdea.
  unfold try_catch, bind, log, log_error, emit, modify, tick, set_counters,
    get_world, lift, ret, throw.
  ingest_step.
  destruct (mail_fault env n (FetchOne u)) as [e|] eqn:Ef; ingest_step;
    [ingest_ends|].
  destruct (find_message u mb) as [m|] eqn:Em; ingest_step; [|ingest_ends].
  destruct (mail_fault env (S n) (Parse u)) as [e|] eqn:Ep; ingest_step;
    [ingest_ends|].
  destruct (Automation.parseAlert (email m)) as [e|alert] eqn:Ea; ingest_step;
    [ingest_rest|].
  destruct (Automation.nonempty (al_query alert)) eqn:Eq; ingest_step;
    [|ingest_rest].
  destruct (chat env (S (S n)) (IdeaFromAlert alert)) as [e|content] eqn:Ec;
    ingest_step; [ingest_rest|].
  destruct (JSON_parse env content) as [e|idea] eqn:Ej; ingest_step;
    [ingest_rest|].
  match goal with
  | |- context [Automation.saveContentIdea env alert idea ?W] =>
      destruct (saveContentIdea_cases env alert idea W)
        as [(msg & _ & Hsave)
           |(s & row & Hs & Hrow & _ & _ & _ & _ & _ & _ & Hsave)];
      rewrite Hsave; clear Hsave
  end; ingest_step; [ingest_rest|].
  match goal with
  | |- context [store_fault env ?t ?op] =>
      destruct (store_fault env t op) as [e|] eqn:Es
  end; ingest_step; [ingest_rest|].
  rewrite Hs. ingest_rest.
Qed.

(** *** The loop and the run *)

(** The loop over the messages found: it stops at the first turn that
    throws. *)
Lemma ingest_loop_any (env : Collab) (msgs : list nat) :
  forall w, exists r w',
    for_of msgs (Automation.handle_message env) w = (r, w') /\
    ingested msgs w w' /\
    match r with
    | Exit _ => False
    | Ret _ => mail_up env -> counted (length msgs) w w'
    | Throw _ =>
        mail_up env -> exists u, In u msgs /\ find_message u (mailbox w) = None
    end.
Proof.
  induction msgs as [|u msgs IH]; intros w.
  - exists (Ret tt), w. split; [reflexivity|].
    split; [apply ingested_refl | intros _; apply counted_refl].
  - destruct (handle_message_turn env u w) as (r1 & w1 & Hturn & Hin1 & Hr1).
    cbn [for_of]. unfold bind. rewrite Hturn.
    destruct r1 as [[]|e|c]; [|clear IH|contradiction].
    + destruct (IH w1) as (r & w' & Hloop & Hin & Hr).
      exists r, w'. split; [exact Hloop|].
      split; [exact (@ingested_trans [u] msgs _ _ _ Hin1 Hin)|].
      destruct r as [[]|e|c]; [| |contradiction].
      * intros Hup. exact (@counted_trans 1 (length msgs) _ _ _ (Hr1 Hup) (Hr Hup)).
      * intros Hup. destruct (Hr Hup) as (v & Hv & Hnone).
        exists v. split; [now right|].
        destruct Hin1 as (evs & rows & (_ & _ & Hflag & _) & _).
        exact (flag_step_find _ Hflag Hnone).
    + exists (Throw e), w1. split; [reflexivity|]. split.
      * apply (@ingested_weaken [u]); [|cbn; lia|exact Hin1].
        intros k [<-|[]]. now left.
      * intros Hup. exists u. split; [now left | exact (Hr1 Hup)].
Qed.

(** The events of a run that are written out, up to the last one. *)
Ltac but_last :=
  match goal with
  | |- exists evs0, ?L = evs0 ++ _ /\ _ => exists (removelast L)
  | |- exists evs0 _, ?L = evs0 ++ _ /\ _ => exists (removelast L)
  | |- exists evs0 _, ?L = evs0 ++ _ => exists (removelast L)
  end.

(** With a client that can be constructed the constructor has not
    thrown. *)
Ltac client_is_up Hcl :=
  unfold client_up in Hcl;
  match goal with
  | E : Imap_fault _ _ = Some _ |- _ => rewrite Hcl in E; discriminate
  end.

(** Close a branch of a run in which no message was handled. *)
Ltac run_ends :=
  eexists; eexists; eexists; exists []; split; [reflexivity|]; split;
  [ unfold ingests; run_step;
    split; [reflexivity|]; split; [reflexivity|];
    split; [apply flag_step_refl|];
    split; [rewrite <- ?app_assoc; reflexivity|];
    split; [now rewrite app_nil_r|]; split; [constructor|];
    count_calls; cbn [length]; repeat split; lia
  | split;
    [ unfold run_end;
      first
        [ split; [reflexivity|]; split; [reflexivity|];
          but_last; eexists; reflexivity
        | left; eexists; split; [eassumption | reflexivity]
        | right; but_last; eexists; split; [reflexivity|];
          split; [reflexivity | eassumption]
        | but_last; split; reflexivity ]
    | let Hcl := fresh "Hcl" in
      let Hup := fresh "Hup" in
      intros Hcl Hup;
      first [ client_is_up Hcl | mail_is_up Hup
            | cbn; repeat split; reflexivity ] ] ].

(** All segments of a list of events but the last one. *)
Ltac front L :=
  match L with
  | ?a ++ (?b ++ ?c) => let f := front (b ++ c) in constr:(a ++ f)
  | ?a ++ ?b => constr:(a)
  end.

Ltac front_of_goal :=
  match goal with
  | |- exists evs0, ?L = evs0 ++ _ /\ _ => let f := front L in exists f
  | |- exists evs0 _, ?L = evs0 ++ _ /\ _ => let f := front L in exists f
  | |- exists evs0 _, ?L = evs0 ++ _ => let f := front L in exists f
  end.

Lemma runAutomation_any (env : Collab) (w : World) :
  exists r w' evs rows,
    Automation.runAutomation env w = (r, w') /\
    ingests (search_unseen (mailbox w)) evs rows w w' /\
    run_end env r evs /\
    (client_up env -> mail_up env ->
     r = Ret tt /\
     processed (counters w') + skipped (counters w') + errors (counters w')
     = length (search_unseen (mailbox w)) /\
     processed (counters w') = length rows).
Proof.
  destruct w as [mb ci bp cs tr n].
  unfold Automation.runAutomation, Automation.new_Imap, finally, try_catch,
    Automation.mail_call.
  unfold bind, log, log_error, emit, modify, set_counters, tick, get_world,
    ret, throw, exit.
  run_step.
  destruct (Imap_fault env n) as [e|] eqn:E0; run_step; [run_ends|].
  destruct (mail_fault env (S n) Connect) as [e|] eqn:E1; run_step; [run_ends|].
  destruct (mail_fault env (S (S n)) MailboxOpen) as [e|] eqn:E2; run_step;
    [run_ends|].
  destruct (mail_fault env (S (S (S n))) Search) as [e|] eqn:E3; run_step;
    [run_ends|].
  destruct (search_unseen mb) as [|u msgs] eqn:Efound; run_step.
  - destruct (mail_fault env (S (S (S (S n)))) Logout) as [e|] eqn:E4; run_step;
      run_ends.
  - match goal with
    | |- context [for_of _ _ ?W] =>
        destruct (ingest_loop_any env (u :: msgs) W)
          as (r1 & w1 & Hloop & (evs1 & rows1 & Hin & Ho) & Hr1)
    end.
    rewrite Hloop. clear Hloop. unfold counted in Hr1.
    destruct Hin as (Hb & Hw & Hf & Ht & Hc & Hrows & Hn1 & Hn2 & Hn3 & Hn4).
    cbn -[search_unseen length] in Hb, Hw, Hf, Ht, Hc, Hr1.
    assert (Hings : forall evs w',
              blog_posts w' = blog_posts w1 -> counters w' = counters w1 ->
              mailbox w' = mailbox w1 -> content_ideas w' = content_ideas w1 ->
              trace w' = tr ++ evs ->
              calls is_insert_idea evs = calls is_insert_idea evs1 ->
              calls is_chat evs = calls is_chat evs1 ->
              calls is_writer_call evs = 0 ->
              ingests (u :: msgs) evs rows1
                {| mailbox := mb; content_ideas := ci; blog_posts := bp;
                   counters := cs; trace := tr; clock := n |} w').
    { intros evs w' H1 H2 H3 H4 H5 H6 H7 H8. unfold ingests.
      cbn [blog_posts counters mailbox content_ideas trace].
      rewrite H1, H2, H3, H4, H6, H7.
      repeat (split; [assumption|]). assumption. }
    destruct r1 as [[]|e|c]; [| |contradiction]; run_step.
    + destruct (mail_fault env (clock w1) Logout) as [e|] eqn:E4; run_step.
      * eexists. eexists. eexists. exists rows1. split; [reflexivity|].
        split; [|split].
        -- apply Hings;
             [ reflexivity | reflexivity | reflexivity | reflexivity
             | cbn; rewrite Ht, <- ?app_assoc; reflexivity
             | count_calls; lia | count_calls; lia | count_calls; lia ].
        -- unfold run_end. right. front_of_goal. eexists.
           split; [rewrite <- ?app_assoc; reflexivity|].
           split; [count_calls; lia | exact E4].
        -- intros Hcl Hup. mail_is_up Hup.
      * eexists. eexists. eexists. exists rows1. split; [reflexivity|].
        split; [|split].
        -- apply Hings;
             [ reflexivity | reflexivity | reflexivity | reflexivity
             | cbn; rewrite Ht, <- ?app_assoc; reflexivity
             | count_calls; lia | count_calls; lia | count_calls; lia ].
        -- unfold run_end. front_of_goal.
           split; [rewrite <- ?app_assoc; reflexivity | count_calls; lia].
        -- intros Hcl Hup. specialize (Hr1 Hup). cbn. rewrite Hc, length_app in Hr1.
           cbn [length] in Hr1 |- *. repeat split; lia.
    + eexists. eexists. eexists. exists rows1. split; [reflexivity|].
      split; [|split].
      * apply Hings;
          [ reflexivity | reflexivity | reflexivity | reflexivity
          | cbn; rewrite Ht, <- ?app_assoc; reflexivity
          | count_calls; lia | count_calls; lia | count_calls; lia ].
      * unfold run_end. split; [reflexivity|].
        split; [count_calls; lia|].
        front_of_goal. eexists. rewrite <- ?app_assoc. reflexivity.
      * intros Hcl Hup. destruct (Hr1 Hup) as (v & Hv & Hnone).
        assert (Hv' : In v (search_unseen mb)) by (rewrite Efound; exact Hv).
        apply find_message_unseen in Hv'. contradiction.
Qed.

(** X7.  Whatever the services do, a run of the ingestor ends in one of four
    ways.  It returns, and its last call is the logout.  Or the constructor
    of the mail client throws: then the run throws that error, having
    printed its first line and done nothing else; no handler runs, nothing
    is logged, and there is neither a logout nor an exit.  Or the logout
    throws: then the run throws that error, the logout being its last
    call.  Or it ends the process with code 1, having logged the error:
    then it has not logged out.  In no case is there a logout before the
    end. *)
Theorem ingestor_logs_out_unless_it_exits (env : Collab) (w : World) :
  exists r w' evs,
    Automation.runAutomation env w = (r, w') /\
    trace w' = trace w ++ evs /\
    match r with
    | Ret _ =>
        exists evs0, evs = evs0 ++ [Mail Logout] /\ calls is_logout evs0 = 0
    | Throw e =>
        (exists t,
           Imap_fault env t = Some e /\
           evs = [Log "Starting content automation..." []; NewImap]) \/
        (exists evs0 t,
           evs = evs0 ++ [Mail Logout] /\ calls is_logout evs0 = 0 /\
           mail_fault env t Logout = Some e)
    | Exit c =>
        c = 1 /\ calls is_logout evs = 0 /\
        exists evs0 e,
          evs = evs0 ++ [LogError "Automation error:" [JStr (message e)]]
    end.
Proof.
  destruct (runAutomation_any env w)
    as (r & w' & evs & rows & Hrun & (_ & _ & _ & Ht & _) & Hend & _).
  exists r, w', evs. split; [exact Hrun|]. split; [exact Ht | exact Hend].
Qed.

(** X8.  Whatever the services do, a run of the ingestor leaves the posts and
    the rows of [content_ideas] as they were and adds rows behind them, no
    more than there were unread alerts.  Every row added is pending, has
    the source "google_alerts" and the title "Content Idea: " followed by
    the title of its source, and its slug is the slug of its suggested
    title, which is a string. *)
Theorem ingestor_adds_rows_of_alerts_only (env : Collab) (w : World) :
  exists r w' rows,
    Automation.runAutomation env w = (r, w') /\
    blog_posts w' = blog_posts w /\
    content_ideas w' = content_ideas w ++ rows /\
    length rows <= length (search_unseen (mailbox w)) /\
    Forall (fun i =>
      status (cols i) = str "pending" /\
      source (cols i) = str "google_alerts" /\
      title (cols i) = str "Content Idea: " ++ source_title (cols i) /\
      exists s, suggested_title (cols i) = JStr s /\
                slug (cols i) = Automation.slugify 100 s) rows.
Proof.
  destruct (runAutomation_any env w)
    as (r & w' & evs & rows & Hrun
        & (Hb & _ & _ & _ & Hc & Hrows & Hn1 & Hn2 & Hn3 & _) & _).
  exists r, w', rows. split; [exact Hrun|]. split; [exact Hb|].
  split; [exact Hc|]. split; [lia | exact Hrows].
Qed.

(** X9.  Whatever the services do, a run of the ingestor asks the completion
    service once at most for every unread alert found, inserts an idea
    only after such a call, and makes none of the calls of the writer. *)
Theorem ingestor_call_budget (env : Collab) (w : World) :
  exists r w' evs,
    Automation.runAutomation env w = (r, w') /\
    trace w' = trace w ++ evs /\
    calls is_chat evs <= length (search_unseen (mailbox w)) /\
    calls is_insert_idea evs <= calls is_chat evs /\
    length (content_ideas w') <= length (content_ideas w) + calls is_insert_idea evs /\
    calls is_writer_call evs = 0.
Proof.
  destruct (runAutomation_any env w)
    as (r & w' & evs & rows & Hrun
        & (_ & _ & _ & Ht & Hc & _ & Hn1 & Hn2 & Hn3 & Hn4) & _).
  exists r, w', evs. split; [exact Hrun|]. split; [exact Ht|].
  rewrite Hc, length_app. repeat split; try assumption. lia.
Qed.

(** X10.  Whatever the services do, a run of the ingestor adds no message,
    removes none and keeps their order; a message is left as it was or
    marked read, and only a message whose uid the search for unread alerts
    has returned is marked read. *)
Theorem ingestor_flags_found_messages_only (env : Collab) (w : World) :
  exists r w',
    Automation.runAutomation env w = (r, w') /\
    Forall2 (fun m m' =>
      m' = m \/ (In (uid m) (search_unseen (mailbox w)) /\ m' = set_seen m))
      (mailbox w) (mailbox w') /\
    forall m, In m (mailbox w) ->
      ~ In (uid m) (search_unseen (mailbox w)) -> In m (mailbox w').
Proof.
  destruct (runAutomation_any env w)
    as (r & w' & evs & rows & Hrun & (_ & _ & Hf & _) & _).
  exists r, w'. split; [exact Hrun|]. split; [exact Hf|].
  intros m Hin Hnot. exact (@flag_step_keeps _ _ _ m Hf Hin Hnot).
Qed.

(** *** A mail session that works *)



(** Reduce a turn of the ingestor with a mail session that works as far as
    the answer of the next service. *)
Ltac up_step Hup :=
  ingest_step; rewrite ?Hup; ingest_step.

(** X12.  A message without a subject is not skipped as no alert: reading the
    query throws, the turn logs the error, counts it and marks the message
    read, and neither the completion service nor the store is called. *)
Theorem message_without_subject_is_an_error (env : Collab) (u : nat)
    (m : Message) (w : World) :
  mail_up env ->
  find_message u (mailbox w) = Some m ->
  e_subject (email m) = None ->
  exists w1 msg,
    Automation.handle_message env u w = (Ret tt, w1) /\
    trace w1 = trace w ++
      [Mail (FetchOne u); Mail (Parse u);
       LogError "Error processing email:" [JStr msg];
       Mail (FlagsAdd u)] /\
    counters w1 = Automation.incr_errors (counters w) /\
    content_ideas w1 = content_ideas w /\
    blog_posts w1 = blog_posts w /\
    mailbox w1 = flag_seen u (mailbox w).
Proof.
  intros Hup Hm Hs. unfold mail_up in Hup.
  destruct w as [mb ci bp cs tr n]. cbn [mailbox] in Hm.
  unfold Automation.handle_message, Automation.fetch_email, Automation.markAsRead,
    Automation.mail_call, Automation.parseAlert.
  unfold try_catch, bind, log, log_error, emit, modify, tick, set_counters,
    get_world, lift, ret, throw.
  up_step Hup. rewrite Hm. up_step Hup. rewrite Hs. up_step Hup.
  do 2 eexists. split; [reflexivity|]. cbn.
  rewrite <- !app_assoc. repeat split.
Qed.

Lemma message_without_subject_is_an_error_witness :
  exists w1 msg,
    Automation.handle_message Samples.all_up 4
      (Samples.inbox [Scenes.bare_message]) = (Ret tt, w1) /\
    trace w1 =
      [Mail (FetchOne 4); Mail (Parse 4);
       LogError "Error processing email:" [JStr msg];
       Mail (FlagsAdd 4)] /\
    counters w1 = Automation.incr_errors Samples.no_counts /\
    content_ideas w1 = [] /\
    blog_posts w1 = [] /\
    mailbox w1 = flag_seen 4 [Scenes.bare_message].
Proof.
  exact (@message_without_subject_is_an_error Samples.all_up 4
           Scenes.bare_message (Samples.inbox [Scenes.bare_message])
           (fun _ _ => eq_refl) eq_refl eq_refl).
Defined.

(** X13.  A message whose subject yields no query is skipped: the turn counts it
    as skipped and marks it read, and neither the completion service nor
    the store is called. *)
Theorem message_without_query_is_skipped (env : Collab) (u : nat)
    (m : Message) (alert : Alert) (w : World) :
  mail_up env ->
  find_message u (mailbox w) = Some m ->
  Automation.parseAlert (email m) = inr alert ->
  al_query alert = [] ->
  exists w1,
    Automation.handle_message env u w = (Ret tt, w1) /\
    trace w1 = trace w ++
      [Mail (FetchOne u); Mail (Parse u);
       Log "Skipped: not a Google Alert" [];
       Mail (FlagsAdd u)] /\
    counters w1 = Automation.incr_skipped (counters w) /\
    content_ideas w1 = content_ideas w /\
    blog_posts w1 = blog_posts w /\
    mailbox w1 = flag_seen u (mailbox w).
Proof.
  intros Hup Hm Ha Hq. unfold mail_up in Hup.
  destruct w as [mb ci bp cs tr n]. cbn [mailbox] in Hm.
  unfold Automation.handle_message, Automation.fetch_email, Automation.markAsRead,
    Automation.mail_call.
  unfold try_catch, bind, log, log_error, emit, modify, tick, set_counters,
    get_world, lift, ret, throw.
  up_step Hup. rewrite Hm. up_step Hup. rewrite Ha. up_step Hup.
  rewrite Hq. up_step Hup.
  eexists. split; [reflexivity|]. cbn.
  rewrite <- !app_assoc. repeat split.
Qed.

Lemma message_without_query_is_skipped_witness :
  exists w1,
    Automation.handle_message Samples.all_up 2
      (Samples.inbox [Scenes.welcome_message]) = (Ret tt, w1) /\
    trace w1 =
      [Mail (FetchOne 2); Mail (Parse 2);
       Log "Skipped: not a Google Alert" [];
       Mail (FlagsAdd 2)] /\
    counters w1 = Automation.incr_skipped Samples.no_counts /\
    content_ideas w1 = [] /\
    blog_posts w1 = [] /\
    mailbox w1 = flag_seen 2 [Scenes.welcome_message].
Proof.
  exact (@message_without_query_is_skipped Samples.all_up 2
           Scenes.welcome_message
           {| al_query := []; al_url := []; al_title := []; al_snippet := [];
              al_date := None |}
           (Samples.inbox [Scenes.welcome_message])
           (fun _ _ => eq_refl) eq_refl eq_refl eq_refl).
Defined.

(** X14.  When the completion service throws for an alert, or answers with text
    that [JSON.parse] rejects, the turn logs the error, counts it and marks
    the message read without calling the store: the alert is dropped, and a
    later run does not find the message again. *)
Theorem failed_completion_drops_the_alert (env : Collab) (u : nat)
    (m : Message) (alert : Alert) (e : error) (w : World) :
  mail_up env ->
  find_message u (mailbox w) = Some m ->
  Automation.parseAlert (email m) = inr alert ->
  al_query alert <> [] ->
  (forall t,
     match chat env t (IdeaFromAlert alert) with
     | inl e' => e' = e
     | inr content => JSON_parse env content = inl e
     end) ->
  exists w1,
    Automation.handle_message env u w = (Ret tt, w1) /\
    trace w1 = trace w ++
      [Mail (FetchOne u); Mail (Parse u);
       Log "Processing:" [JStr (al_query alert)];
       Chat (IdeaFromAlert alert);
       LogError "Error processing email:" [JStr (message e)];
       Mail (FlagsAdd u)] /\
    counters w1 = Automation.incr_errors (counters w) /\
    content_ideas w1 = content_ideas w /\
    blog_posts w1 = blog_posts w /\
    mailbox w1 = flag_seen u (mailbox w) /\
    ~ In u (search_unseen (mailbox w1)).
Proof.
  intros Hup Hm Ha Hq Hfail. unfold mail_up in Hup.
  destruct w as [mb ci bp cs tr n]. cbn [mailbox] in Hm.
  unfold Automation.handle_message, Automation.fetch_email, Automation.markAsRead,
    Automation.mail_call, Automation.generateContentIdea.
  unfold try_catch, bind, log, log_error, emit, modify, tick, set_counters,
    get_world, lift, ret, throw.
  up_step Hup. rewrite Hm. up_step Hup. rewrite Ha. up_step Hup.
  destruct (al_query alert) as [|c q] eqn:Eq; [congruence|]. up_step Hup.
  assert (Hseen : ~ In u (search_unseen (flag_seen u mb))).
  { unfold search_unseen. intros Hin. apply in_map_iff in Hin as (x & Hx & Hin).
    apply filter_In in Hin as [Hin Hunseen].
    pose proof (@all_seen_flag_seen u mb x Hin Hx) as Hs.
    rewrite Hs, andb_false_r in Hunseen. discriminate. }
  specialize (Hfail (S (S n))).
  destruct (chat env (S (S n)) (IdeaFromAlert alert)) as [e'|content];
    up_step Hup.
  - subst e'. eexists. split; [reflexivity|]. cbn.
    rewrite <- !app_assoc. repeat split. exact Hseen.
  - rewrite Hfail. up_step Hup. eexists. split; [reflexivity|]. cbn.
    rewrite <- !app_assoc. repeat split. exact Hseen.
Qed.

Lemma failed_completion_drops_the_alert_witness :
  exists w1,
    Automation.handle_message Scenes.json_down 1
      (Samples.inbox [Scenes.alert_message]) = (Ret tt, w1) /\
    trace w1 =
      [Mail (FetchOne 1); Mail (Parse 1);
       Log "Processing:" [JStr (str "dental implants")];
       Chat (IdeaFromAlert Scenes.implants_alert);
       LogError "Error processing email:" [JStr (str "Unexpected token S in JSON")];
       Mail (FlagsAdd 1)] /\
    counters w1 = Automation.incr_errors Samples.no_counts /\
    content_ideas w1 = [] /\
    blog_posts w1 = [] /\
    mailbox w1 = flag_seen 1 [Scenes.alert_message] /\
    ~ In 1 (search_unseen (mailbox w1)).
Proof.
  refine (@failed_completion_drops_the_alert Scenes.json_down 1
            Scenes.alert_message Scenes.implants_alert
            (Error (str "Unexpected token S in JSON"))
            (Samples.inbox [Scenes.alert_message])
            (fun _ _ => eq_refl) eq_refl eq_refl _ (fun _ => eq_refl)).
  discriminate.
Defined.

(** *** Runs that handle no message *)

(** X15.  With no unread alert a run whose client is constructed and whose
    mail session works opens the session, searches, reports that there is
    nothing to do and logs out: the early return runs the logout all the
    same, and nothing is fetched, asked or stored. *)
Theorem no_unread_alerts_is_a_short_run (env : Collab) (w : World) :
  client_up env -> mail_up env ->
  search_unseen (mailbox w) = [] ->
  exists w',
    Automation.runAutomation env w = (Ret tt, w') /\
    trace w' = trace w ++
      [Log "Starting content automation..." [];
       NewImap;
       Mail Connect;
       Log "Connected to Gmail" [];
       Mail MailboxOpen;
       Mail Search;
       Log "Found ${messages.length} unread Google Alerts" [JNum 0];
       Log "No new alerts to process" [];
       Mail Logout] /\
    mailbox w' = mailbox w /\
    content_ideas w' = content_ideas w /\
    blog_posts w' = blog_posts w.
Proof.
  intros Hclient Hup Hnone. unfold client_up in Hclient. unfold mail_up in Hup.
  destruct w as [mb ci bp cs tr n]. cbn [mailbox] in Hnone.
  unfold Automation.runAutomation, Automation.new_Imap, finally, try_catch,
    Automation.mail_call.
  unfold bind, log, log_error, emit, modify, set_counters, tick, get_world,
    ret, throw, exit.
  run_step. rewrite Hclient. run_step. rewrite !Hup. run_step.
  rewrite Hnone. run_step.
  rewrite Hup. eexists. split; [reflexivity|]. cbn.
  rewrite <- !app_assoc. repeat split.
Qed.

Lemma no_unread_alerts_is_a_short_run_witness :
  exists w',
    Automation.runAutomation Samples.all_up Samples.empty_world = (Ret tt, w') /\
    trace w' =
      [Log "Starting content automation..." [];
       NewImap;
       Mail Connect;
       Log "Connected to Gmail" [];
       Mail MailboxOpen;
       Mail Search;
       Log "Found ${messages.length} unread Google Alerts" [JNum 0];
       Log "No new alerts to process" [];
       Mail Logout] /\
    mailbox w' = [] /\ content_ideas w' = [] /\ blog_posts w' = [].
Proof.
  exact (@no_unread_alerts_is_a_short_run Samples.all_up Samples.empty_world
           (fun _ => eq_refl) (fun _ _ => eq_refl) eq_refl).
Defined.

(** X16.  When the client is constructed and the connection to the mail
    server fails, the run logs the error and ends the process with code 1.
    Nothing else is called: no mailbox is opened, no message is fetched,
    and there is no logout. *)
Theorem connect_failure_exits_without_logout (env : Collab) (w : World)
    (e : error) :
  Imap_fault env (clock w) = None ->
  mail_fault env (S (clock w)) Connect = Some e ->
  exists w',
    Automation.runAutomation env w = (Exit 1, w') /\
    trace w' = trace w ++
      [Log "Starting content automation..." [];
       NewImap;
       Mail Connect;
       LogError "Automation error:" [JStr (message e)]] /\
    mailbox w' = mailbox w /\
    content_ideas w' = content_ideas w /\
    blog_posts w' = blog_posts w.
Proof.
  intros Hn Hc. destruct w as [mb ci bp cs tr n]. cbn [clock] in Hn, Hc.
  unfold Automation.runAutomation, Automation.new_Imap, finally, try_catch,
    Automation.mail_call.
  unfold bind, log, log_error, emit, modify, set_counters, tick, get_world,
    ret, throw, exit.
  run_step. rewrite Hn. run_step. rewrite Hc. run_step.
  eexists. split; [reflexivity|]. cbn.
  rewrite <- !app_assoc. repeat split.
Qed.

Lemma connect_failure_exits_without_logout_witness :
  exists w',
    Automation.runAutomation Scenes.connect_down
      (Samples.inbox Samples.sample_box) = (Exit 1, w') /\
    trace w' =
      [Log "Starting content automation..." [];
       NewImap;
       Mail Connect;
       LogError "Automation error:" [JStr (str "ECONNREFUSED")]] /\
    mailbox w' = Samples.sample_box /\
    content_ideas w' = [] /\
    blog_posts w' = [].
Proof.
  exact (@connect_failure_exits_without_logout Scenes.connect_down
           (Samples.inbox Samples.sample_box) (Error (str "ECONNREFUSED"))
           eq_refl eq_refl).
Defined.



(** *** The environment *)

(** X17.  The ingestor checks its environment before anything else.  When one
    of its five variables is unset or empty it prints error lines and ends
    the process with code 1, without a call to any service and with the
    world otherwise as it was; when all are set it reports that and
    runs. *)
Theorem ingestor_checks_its_environment (env : Collab)
    (penv : Automation.ProcessEnv) (w : World) :
  if unset (Automation.SUPABASE_URL penv)
     || unset (Automation.SUPABASE_ANON_KEY penv)
     || unset (Automation.OPENAI_API_KEY penv)
     || unset (Automation.GMAIL_USER penv)
     || unset (Automation.GMAIL_APP_PASSWORD penv)
  then
    exists w' lines,
      Automation.main env penv w = (Exit 1, w') /\
      trace w' = trace w ++ lines /\
      lines <> [] /\
      forallb is_error_line lines = true /\
      mailbox w' = mailbox w /\
      content_ideas w' = content_ideas w /\
      blog_posts w' = blog_posts w /\
      counters w' = counters w /\
      clock w' = clock w
  else
    Automation.main env penv w
    = bind (log "Environment loaded successfully" [])
        (fun _ => Automation.runAutomation env) w.
Proof.
  unfold Automation.main.
  destruct (unset (Automation.SUPABASE_URL penv)) eqn:E1;
    [|destruct (unset (Automation.SUPABASE_ANON_KEY penv)) eqn:E2;
      [|destruct (unset (Automation.OPENAI_API_KEY penv)) eqn:E3;
        [|destruct (unset (Automation.GMAIL_USER penv)) eqn:E4;
          [|destruct (unset (Automation.GMAIL_APP_PASSWORD penv)) eqn:E5]]]];
    cbn [orb]; try reflexivity;
    destruct w as [mb ci bp cs tr n];
    unfold bind, log_error, emit, modify, exit; cbn;
    do 2 eexists; (split; [reflexivity|]);
    (split; [rewrite <- ?app_assoc; reflexivity|]);
    (split; [discriminate|]); repeat split.
Qed.

(** X18.  The writer checks its environment before anything else.  When one of
    its three variables is unset or empty it prints an error line and ends
    the process with code 1, without a call to any service and with the
    world otherwise as it was; when all are set it runs, and then it
    returns. *)
Theorem writer_checks_its_environment (env : Collab)
    (penv : WritePosts.ProcessEnv) (w : World) :
  if unset (WritePosts.SUPABASE_URL penv)
     || unset (WritePosts.SUPABASE_ANON_KEY penv)
     || unset (WritePosts.OPENAI_API_KEY penv)
  then
    WritePosts.main env penv w
    = (Exit 1,
       with_trace
         (trace w ++ [LogError "Missing required environment variables" []]) w)
  else
    WritePosts.main env penv w = WritePosts.run env w /\
    exists w', WritePosts.main env penv w = (Ret tt, w').
Proof.
  unfold WritePosts.main.
  destruct (unset (WritePosts.SUPABASE_URL penv)
            || unset (WritePosts.SUPABASE_ANON_KEY penv)
            || unset (WritePosts.OPENAI_API_KEY penv)).
  - reflexivity.
  - split; [reflexivity|].
    destruct (run_ran env w) as (w' & Hrun & _). now exists w'.
Qed.

(** ** From the ingestor to the writer *)

(** X19.  An idea that the ingestor has saved is pending, so that the writer
    takes it, and the writer derives a slug for it: the first 80
    characters of the slug that is stored with the idea. *)
Theorem post_slug_is_the_idea_slug_cut (env : Collab) (alert : Alert)
    (idea : jsval) (w w1 : World) :
  Automation.saveContentIdea env alert idea w = (Ret tt, w1) ->
  exists row,
    content_ideas w1 = content_ideas w ++ [(fresh_id (content_ideas w), row)] /\
    is_pending (fresh_id (content_ideas w), row) = true /\
    WritePosts.generateSlug (suggested_title row) = inr (firstn 80 (slug row)).
Proof.
  intros Hrun.
  destruct (saveContentIdea_cases env alert idea w)
    as [(msg & _ & Hsave)
       |(s & row & _ & (Hst & _ & _ & s' & Hsu & Hsl) & _ & _ & _ & _ & _ & _
         & Hsave)].
  - rewrite Hsave in Hrun. discriminate.
  - rewrite Hrun in Hsave.
    destruct (store_fault env (clock w) (InsertIdea row)); [discriminate|].
    inversion Hsave; subst w1. exists row.
    split; [destruct w; reflexivity|]. split.
    + unfold is_pending. cbn [cols snd]. rewrite Hst. reflexivity.
    + rewrite Hsu, Hsl. cbn [WritePosts.generateSlug as_string].
      rewrite slugify_write_posts, slugify_automation. unfold slug_of.
      now rewrite firstn_firstn.
Qed.

Lemma post_slug_is_the_idea_slug_cut_witness :
  exists row,
    content_ideas
      (snd (Automation.saveContentIdea Samples.all_up Samples.sample_alert
              Samples.sample_idea Samples.empty_world))
    = [] ++ [(fresh_id [], row)] /\
    is_pending (fresh_id [], row) = true /\
    WritePosts.generateSlug (suggested_title row) = inr (firstn 80 (slug row)).
Proof.
  exact (@post_slug_is_the_idea_slug_cut Samples.all_up Samples.sample_alert
           Samples.sample_idea Samples.empty_world
           (snd (Automation.saveContentIdea Samples.all_up Samples.sample_alert
                   Samples.sample_idea Samples.empty_world))
           eq_refl).
Defined.

(** ** Slugs *)

Import Shapes.

Lemma lowered_slug_char (x : ascii) :
  slug_char (toLowerChar x) = true -> isSpace (toLowerChar x) = false ->
  slug_letter (toLowerChar x) = true.
Proof.
  assert (H : forallb (fun x =>
                implb (slug_char (toLowerChar x) && negb (isSpace (toLowerChar x)))
                      (slug_letter (toLowerChar x))) all_ascii = true)
    by (vm_compute; reflexivity).
  rewrite forallb_forall in H. specialize (H x (in_all_ascii x)).
  intros H1 H2. now rewrite H1, H2 in H.
Qed.

Lemma slug_letter_fixed (c : ascii) :
  slug_letter c = true ->
  toLowerChar c = c /\ slug_char c = true /\ isSpace c = false.
Proof.
  assert (H : forallb (fun c =>
                implb (slug_letter c)
                      (Ascii.eqb (toLowerChar c) c && slug_char c
                       && negb (isSpace c))) all_ascii = true)
    by (vm_compute; reflexivity).
  rewrite forallb_forall in H. specialize (H c (in_all_ascii c)).
  intros E. rewrite E in H. cbn [implb] in H.
  apply andb_true_iff in H as [H H3]. apply andb_true_iff in H as [H1 H2].
  apply Ascii.eqb_eq in H1. apply negb_true_iff in H3. now repeat split.
Qed.

Lemma forallb_firstn (A : Type) (p : A -> bool) (n : nat) (l : list A) :
  forallb p l = true -> forallb p (firstn n l) = true.
Proof.
  revert n. induction l as [|a l IH]; intros [|n] H; try reflexivity.
  cbn in *. apply andb_true_iff in H as [Ha Hl]. now rewrite Ha, IH.
Qed.

(** The letters of a text that is lower-cased, filtered and
    hyphenated. *)
Lemma hyphenate_letters (b : bool) (s : jsstring) :
  forallb slug_letter (hyphenate b (filter slug_char (map toLowerChar s))) = true.
Proof.
  revert b. induction s as [|x s IH]; intros b; [reflexivity|].
  cbn [map filter]. destruct (slug_char (toLowerChar x)) eqn:E; [|apply IH].
  cbn [hyphenate]. destruct (isSpace (toLowerChar x)) eqn:Es.
  - destruct b; [apply IH|]. cbn [forallb]. now rewrite IH.
  - cbn [forallb]. now rewrite (lowered_slug_char _ E Es), IH.
Qed.

Lemma slug_of_letters (n : nat) (s : jsstring) :
  forallb slug_letter (slug_of n s) = true.
Proof. unfold slug_of. apply forallb_firstn, hyphenate_letters. Qed.

Lemma slug_of_fixed (n : nat) (t : jsstring) :
  forallb slug_letter t = true -> slug_of n t = firstn n t.
Proof.
  intros H. unfold slug_of. f_equal.
  induction t as [|c t IH]; [reflexivity|].
  cbn in H. apply andb_true_iff in H as [Hc Ht].
  destruct (slug_letter_fixed _ Hc) as (H1 & H2 & H3).
  cbn [map filter]. rewrite H1, H2. cbn [hyphenate]. rewrite H3.
  now rewrite (IH Ht).
Qed.

(** X20.  The slug of a text, in both scripts the same, holds lower-case
    letters, digits, underscores and hyphens only, and has [maxLen]
    characters at most: upper-case letters, whitespace and every other
    character of the text are gone. *)
Theorem slug_is_made_of_slug_letters (maxLen : nat) (text : jsstring) :
  forallb slug_letter (Automation.slugify maxLen text) = true /\
  length (Automation.slugify maxLen text) <= maxLen /\
  WritePosts.slugify maxLen text = Automation.slugify maxLen text.
Proof.
  rewrite ?slugify_write_posts, ?slugify_automation.
  split; [apply slug_of_letters|]. split; [|reflexivity].
  unfold slug_of. apply firstn_le_length.
Qed.

(** X21.  A slug is its own slug: deriving the slug of a slug changes nothing,
    and the slug of the writer, cut at 80, of a slug of the ingestor, cut
    at 100, is the slug of the writer for the text itself. *)
Theorem slug_of_a_slug_is_the_slug (maxLen : nat) (text : jsstring) :
  Automation.slugify maxLen (Automation.slugify maxLen text)
  = Automation.slugify maxLen text /\
  WritePosts.slugify maxLen (WritePosts.slugify maxLen text)
  = WritePosts.slugify maxLen text /\
  WritePosts.slugify 80 (Automation.slugify 100 text)
  = WritePosts.slugify 80 text.
Proof.
  rewrite ?slugify_write_posts, ?slugify_automation.
  rewrite (@slug_of_fixed maxLen (slug_of maxLen text)) by apply slug_of_letters.
  rewrite (@slug_of_fixed 80 (slug_of 100 text)) by apply slug_of_letters.
  unfold slug_of. rewrite !firstn_firstn, Nat.min_id.
  repeat split.
Qed.

(** X22.  The slug of a category is the slug of the topic without a cut.  A
    topic that is falsy, as [undefined], [null], the empty string and 0
    are, has no slug; any other topic that is no string makes the call
    throw a [TypeError]. *)
Theorem category_slug_by_topic (category : jsval) :
  match category with
  | JStr (c :: s) =>
      exists t,
        WritePosts.generateCategorySlug category = inr (Some t) /\
        forallb slug_letter t = true /\
        forall maxLen, WritePosts.slugify maxLen (c :: s) = firstn maxLen t
  | _ =>
      if truthy category
      then exists msg,
             WritePosts.generateCategorySlug category = inl (TypeError msg)
      else WritePosts.generateCategorySlug category = inr None
  end.
Proof.
  destruct category as [| |b|z|s|items|fields];
    try reflexivity;
    try (unfold WritePosts.generateCategorySlug; cbn;
         eexists; reflexivity).
  - unfold WritePosts.generateCategorySlug. cbn.
    destruct b; cbn; [eexists|]; reflexivity.
  - unfold WritePosts.generateCategorySlug. cbn.
    destruct (z =? 0)%Z; cbn; [|eexists]; reflexivity.
  - destruct s as [|c s]; [reflexivity|].
    unfold WritePosts.generateCategorySlug.
    cbn [truthy negb as_string].
    eexists. split; [reflexivity|].
    unfold WritePosts.re_spaces, WritePosts.re_not_slug_char, toLowerCase.
    rewrite (replace_one_remove (fun c => isWord c || isSpace c || chr "-" c)).
    rewrite replace_spaces. split.
    + apply (hyphenate_letters false (c :: s)).
    + intros maxLen. rewrite slugify_write_posts. reflexivity.
Qed.

(** ** Excerpts *)

Lemma has_bold_cons (c d : ascii) (s : jsstring) :
  has_bold (c :: d :: s) = (is_star c && is_star d) || has_bold (d :: s).
Proof. reflexivity. Qed.

Lemma has_bold_app (a b : jsstring) :
  has_bold (a ++ b) = false -> has_bold a = false /\ has_bold b = false.
Proof.
  induction a as [|c a IH]; intros H; [now split|].
  destruct a as [|d a].
  - split; [reflexivity|].
    destruct b as [|d b]; [reflexivity|].
    change ([c] ++ d :: b) with (c :: d :: b) in H.
    rewrite has_bold_cons in H. now apply orb_false_iff in H as [_ H].
  - change ((c :: d :: a) ++ b) with (c :: d :: (a ++ b)) in H.
    rewrite has_bold_cons in H. apply orb_false_iff in H as [H1 H2].
    destruct (IH H2) as [Ha Hb]. split; [|exact Hb].
    rewrite has_bold_cons. now rewrite H1, Ha.
Qed.

Lemma has_bold_after (x : ascii) (t : jsstring) :
  is_star x = false -> has_bold t = false -> has_bold (x :: t) = false.
Proof.
  intros Hx Ht. destruct t as [|d t]; [reflexivity|].
  rewrite has_bold_cons. now rewrite Hx, Ht.
Qed.

Lemma has_bold_before (c d : ascii) (t : jsstring) :
  is_star d = false -> has_bold (d :: t) = false ->
  has_bold (c :: d :: t) = false.
Proof.
  intros Hd Ht. rewrite has_bold_cons. now rewrite Hd, andb_false_r, Ht.
Qed.

(** What is left of a text without its bold markers has none, and none
    arises with a character other than an asterisk before it. *)
Lemma remove_bold_head (n : nat) :
  forall s, length s <= n ->
    has_bold (remove_bold s) = false /\
    (forall c, is_star c = false -> has_bold (c :: remove_bold s) = false).
Proof.
  induction n as [|n IH]; intros s Hlen.
  - destruct s; [now split | cbn in Hlen; lia].
  - destruct s as [|c s]; [now split|]. cbn [length] in Hlen.
    destruct (is_star c) eqn:Ec.
    + destruct s as [|d s].
      * cbn [remove_bold]. rewrite Ec. split; [reflexivity|].
        intros x Hx. now apply has_bold_after.
      * cbn [length] in Hlen. destruct (is_star d) eqn:Ed.
        -- replace (remove_bold (c :: d :: s)) with (remove_bold s)
             by (cbn [remove_bold]; now rewrite Ec, Ed).
           apply IH. lia.
        -- replace (remove_bold (c :: d :: s)) with (c :: remove_bold (d :: s))
             by (cbn [remove_bold]; now rewrite Ec, Ed).
           destruct (IH (d :: s)) as [H1 H2]; [cbn [length]; lia|].
           assert (Hd : exists t, remove_bold (d :: s) = d :: t)
             by (cbn [remove_bold]; rewrite Ed; now eexists).
           destruct Hd as [t Hd]. rewrite Hd in *.
           assert (Hc : has_bold (c :: d :: t) = false)
             by now apply has_bold_before.
           split; [exact Hc|]. intros x Hx. now apply has_bold_after.
    + replace (remove_bold (c :: s)) with (c :: remove_bold s)
        by (cbn [remove_bold]; now rewrite Ec).
      destruct (IH s) as [H1 H2]; [lia|].
      split; [now apply H2|]. intros x Hx. apply has_bold_after; [exact Hx|].
      now apply H2.
Qed.

Lemma remove_bold_clean (s : jsstring) : has_bold (remove_bold s) = false.
Proof. apply (@remove_bold_head (length s)). lia. Qed.

Lemma newlines_keep_bold (s : jsstring) :
  has_bold (newlines_to_spaces s) = has_bold s.
Proof.
  assert (Hstar : forall c,
            is_star (if is_char 10 c then " "%char else c) = is_star c).
  { intros c. destruct (is_char 10 c) eqn:E; [|reflexivity].
    unfold is_char in E. apply Nat.eqb_eq in E.
    assert (c = ascii_of_nat 10) as ->
      by (unfold code in E; rewrite <- E; now rewrite ascii_nat_embedding).
    reflexivity. }
  unfold newlines_to_spaces. induction s as [|c s IH]; [reflexivity|].
  destruct s as [|d s]; [reflexivity|].
  change (map ?f (c :: d :: s)) with (f c :: f d :: map f s).
  rewrite !has_bold_cons, !Hstar. f_equal. exact IH.
Qed.

Lemma newlines_gone (s : jsstring) :
  existsb (is_char 10) (newlines_to_spaces s) = false.
Proof.
  unfold newlines_to_spaces. induction s as [|c s IH]; [reflexivity|].
  cbn [map existsb]. rewrite IH.
  destruct (is_char 10 c) eqn:E; [reflexivity | now rewrite E].
Qed.

(** What [trim] leaves is a part of the text that does not start with
    whitespace. *)
Lemma trim_part (s : jsstring) :
  (exists a b, s = a ++ trim s ++ b) /\ starts_with_space (trim s) = false.
Proof.
  unfold trim, trimStart, trimEnd. split.
  - exists (takeWhile isSpace s),
           (rev (takeWhile isSpace (rev (dropWhile isSpace s)))).
    rewrite <- rev_app_distr, takeWhile_dropWhile, rev_involutive.
    now rewrite takeWhile_dropWhile.
  - pose proof (dropWhile_head isSpace s) as H.
    destruct (dropWhile isSpace s) as [|c t]; [reflexivity|].
    apply negb_true_iff in H.
    assert (E : exists t', rev (dropWhile isSpace (rev (c :: t))) = c :: t').
    { cbn [rev]. generalize (rev t) as r. intros r.
      induction r as [|x r IH]; cbn [app dropWhile].
      - rewrite H. now exists [].
      - destruct (isSpace x).
        + exact IH.
        + cbn [rev]. rewrite rev_app_distr. cbn. now eexists. }
    destruct E as [t' ->]. exact H.
Qed.

Lemma starts_with_space_firstn (n : nat) (s : jsstring) :
  starts_with_space s = false -> starts_with_space (firstn n s) = false.
Proof. destruct n, s; auto. Qed.

Lemma existsb_part (p : ascii -> bool) (a s b : jsstring) :
  existsb p (a ++ s ++ b) = false -> existsb p s = false.
Proof.
  rewrite !existsb_app. intros H.
  apply orb_false_iff in H as [_ H]. now apply orb_false_iff in H as [H _].
Qed.

(** X23.  The excerpt of a text is one line of 160 characters at most, followed
    by three dots, whether or not anything was cut.  The line holds no line
    feed and no bold marker, and it does not start with whitespace. *)
Theorem excerpt_is_one_clean_line (content : jsstring) :
  exists line,
    WritePosts.generateExcerpt content = line ++ str "..." /\
    length line <= 160 /\
    existsb (is_char 10) line = false /\
    has_bold line = false /\
    starts_with_space line = false.
Proof.
  set (text := newlines_to_spaces (remove_bold (strip_markers 0 content))).
  exists (firstn 160 (trim text)).
  assert (E : WritePosts.generateExcerpt content
              = firstn 160 (trim text) ++ str "...").
  { unfold WritePosts.generateExcerpt, substring0.
    unfold replaceAll at 3. rewrite replace_heading.
    now rewrite replace_bold, replace_newline. }
  destruct (trim_part text) as [(a & b & Hpart) Hstart].
  assert (Hcut : trim text = firstn 160 (trim text) ++ skipn 160 (trim text))
    by (symmetry; apply firstn_skipn).
  split; [exact E|]. split; [apply firstn_le_length|]. split; [|split].
  - assert (H : existsb (is_char 10) text = false) by apply newlines_gone.
    rewrite Hpart in H. apply existsb_part in H.
    rewrite Hcut, existsb_app in H. now apply orb_false_iff in H as [H _].
  - assert (H : has_bold text = false)
      by (unfold text; rewrite newlines_keep_bold; apply remove_bold_clean).
    rewrite Hpart in H. apply has_bold_app in H as [_ H].
    apply has_bold_app in H as [H _].
    rewrite Hcut in H. now apply has_bold_app in H as [H _].
  - now apply starts_with_space_firstn.
Qed.

Lemma strip_markers_plain (s : jsstring) :
  forallb plain_char s = true -> strip_markers 0 s = s.
Proof.
  induction s as [|c s IH]; [reflexivity|].
  cbn [forallb]. intros H. apply andb_true_iff in H as [Hc Hs].
  cbn [strip_markers]. unfold marker_at. cbn [takeWhile dropWhile].
  unfold plain_char in Hc. apply andb_true_iff in Hc as [Hc _].
  apply andb_true_iff in Hc as [Hc _]. apply negb_true_iff in Hc.
  rewrite Hc. cbn. now rewrite (IH Hs).
Qed.

Lemma remove_bold_plain (s : jsstring) :
  forallb plain_char s = true -> remove_bold s = s.
Proof.
  induction s as [|c s IH]; [reflexivity|].
  cbn [forallb]. intros H. apply andb_true_iff in H as [Hc Hs].
  cbn [remove_bold]. unfold plain_char in Hc.
  apply andb_true_iff in Hc as [Hc _].
  apply andb_true_iff in Hc as [_ Hc]. apply negb_true_iff in Hc.
  rewrite Hc. now rewrite (IH Hs).
Qed.

Lemma newlines_plain (s : jsstring) :
  forallb plain_char s = true -> newlines_to_spaces s = s.
Proof.
  unfold newlines_to_spaces. induction s as [|c s IH]; [reflexivity|].
  cbn [forallb]. intros H. apply andb_true_iff in H as [Hc Hs].
  cbn [map]. unfold plain_char in Hc.
  apply andb_true_iff in Hc as [_ Hc]. apply negb_true_iff in Hc.
  rewrite Hc. now rewrite (IH Hs).
Qed.

(** X24.  The excerpt of a text without [#], [*] and line feeds is the text
    trimmed and cut at 160 characters, followed by three dots: the dots
    are appended also to a text that is shorter than 160 characters. *)
Theorem excerpt_of_plain_text (content : jsstring) :
  forallb plain_char content = true ->
  WritePosts.generateExcerpt content = firstn 160 (trim content) ++ str "..." /\
  (length (trim content) <= 160 ->
   WritePosts.generateExcerpt content = trim content ++ str "...").
Proof.
  intros H.
  assert (E : WritePosts.generateExcerpt content
              = firstn 160 (trim content) ++ str "...").
  { unfold WritePosts.generateExcerpt, substring0.
    unfold replaceAll at 3. rewrite replace_heading.
    rewrite replace_bold, replace_newline.
    rewrite (strip_markers_plain _ H), (remove_bold_plain _ H).
    now rewrite (newlines_plain _ H). }
  split; [exact E|]. intros Hlen. rewrite E. now rewrite firstn_all2.
Qed.

Lemma excerpt_of_plain_text_witness :
  WritePosts.generateExcerpt (str " A new clinic opened. ")
  = firstn 160 (trim (str " A new clinic opened. ")) ++ str "..." /\
  (length (trim (str " A new clinic opened. ")) <= 160 ->
   WritePosts.generateExcerpt (str " A new clinic opened. ")
   = trim (str " A new clinic opened. ") ++ str "...").
Proof.
  exact (@excerpt_of_plain_text (str " A new clinic opened. ") eq_refl).
Defined.

(** ** The reading time *)

Lemma ws_runs_app_le (b : bool) (s t : jsstring) :
  ws_runs b s <= ws_runs b (s ++ t).
Proof.
  revert b. induction s as [|c s IH]; intros b; [cbn; lia|].
  cbn [app ws_runs]. destruct (isSpace c).
  - destruct b; [apply IH | apply le_n_S, IH].
  - apply IH.
Qed.

Lemma ws_runs_le_length (b : bool) (s : jsstring) : ws_runs b s <= length s.
Proof.
  revert b. induction s as [|c s IH]; intros b; [cbn; lia|].
  cbn [ws_runs length]. destruct (isSpace c).
  - destruct b; [specialize (IH true) | specialize (IH true)]; lia.
  - specialize (IH false). lia.
Qed.

Lemma ceiling_mono (a b : nat) : a <= b -> ceiling a 200 <= ceiling b 200.
Proof. intros H. unfold ceiling. apply Nat.Div0.div_le_mono. lia. Qed.

(** X25.  More text never has a shorter reading time, and a text of [n]
    characters has a reading time of [n / 200 + 1] at most: a text of
    fewer than 200 characters has reading time 1. *)
Theorem reading_time_grows_with_the_text (text more : jsstring) :
  WritePosts.calculateReadingTime text
  <= WritePosts.calculateReadingTime (text ++ more) /\
  WritePosts.calculateReadingTime text <= length text / 200 + 1 /\
  (length text < 200 -> WritePosts.calculateReadingTime text = 1).
Proof.
  rewrite !calculateReadingTime_ceiling, !word_count_runs.
  assert (Hbound : ceiling (S (ws_runs false text)) 200 <= length text / 200 + 1).
  { pose proof (ws_runs_le_length false text) as Hle.
    apply (Nat.le_trans _ (ceiling (S (length text)) 200)).
    - apply ceiling_mono. lia.
    - unfold ceiling.
      replace (S (length text) + (200 - 1)) with (length text + 1 * 200) by lia.
      rewrite Nat.div_add by lia. lia. }
  split; [|split].
  - apply ceiling_mono. pose proof (ws_runs_app_le false text more). lia.
  - exact Hbound.
  - intros Hlen. pose proof (ceiling_pos (ws_runs false text)).
    rewrite (Nat.div_small _ _ Hlen) in Hbound. lia.
Qed.

(** ** Matches *)

(** What a quantified class takes is made of characters of the class. *)
Lemma rep_class (R : Type) (p : ascii -> bool) (g : bool)
    (k : jsstring -> option R) (s : jsstring) :
  forall lo hi m x,
    rep p g k lo hi s = Some (m, x) -> forallb p m = true.
Proof.
  induction s as [|c s IH]; intros lo hi m x H.
  - cbn [rep] in H. destruct lo.
    + destruct (k []); destruct g; inversion H; reflexivity.
    + destruct g; discriminate.
  - cbn [rep] in H.
    assert (stop_ok : forall m x,
              match lo with
              | 0 => match k (c :: s) with Some r => Some ([], r) | None => None end
              | S _ => None
              end = Some (m, x) -> forallb p m = true).
    { intros m0 x0 Hs. destruct lo; [|discriminate].
      destruct (k (c :: s)); inversion Hs; reflexivity. }
    assert (more_ok : forall m x,
              (if p c && may_take hi
               then match rep p g k (Nat.pred lo) (dec_max hi) s with
                    | Some (m, r) => Some (c :: m, r)
                    | None => None
                    end
               else None) = Some (m, x) -> forallb p m = true).
    { intros m0 x0 Hm. destruct (p c) eqn:Hp; [|discriminate].
      destruct (may_take hi); [|discriminate]. cbn [andb] in Hm.
      destruct (rep p g k (Nat.pred lo) (dec_max hi) s) as [[m1 r1]|] eqn:E;
        [|discriminate].
      inversion Hm; subst. cbn [forallb]. rewrite Hp. eapply IH. exact E. }
    destruct g.
    + destruct (if p c && may_take hi then _ else None) as [[m1 r1]|] eqn:E.
      * inversion H; subst. exact (more_ok _ _ eq_refl).
      * exact (stop_ok _ _ H).
    + destruct (match lo with 0 => _ | S _ => None end) as [[m1 r1]|] eqn:E.
      * inversion H; subst. exact (stop_ok _ _ eq_refl).
      * exact (more_ok _ _ H).
Qed.

(** A match of a pattern at the start of a text: the pieces taken and the
    rest make up the text, and each piece is made of characters of the
    class of its atom. *)
Lemma exec_sound (r : regex) :
  forall s ms rest,
    exec r s = Some (ms, rest) ->
    s = concat ms ++ rest /\
    Forall2 (fun a m => forallb (a_class a) m = true) r ms.
Proof.
  induction r as [|a r IH]; intros s ms rest H.
  - cbn [exec] in H. inversion H; subst. split; [reflexivity | constructor].
  - cbn [exec] in H.
    destruct (rep (a_class a) (a_greedy a) (exec r) (a_min a) (a_max a) s)
      as [[m [ms' rest']]|] eqn:E; [|discriminate].
    inversion H; subst.
    pose proof E as Hclass. apply rep_class in Hclass.
    apply rep_sound in E as (s' & -> & Hk).
    apply IH in Hk as [-> Hall].
    split; [cbn [concat]; now rewrite app_assoc | now constructor].
Qed.

(** A match somewhere in a text. *)
Lemma search_sound (r : regex) (s : jsstring) (m : match_result) :
  search r s = Some m ->
  exists before ms rest,
    s = before ++ concat ms ++ rest /\
    exec r (concat ms ++ rest) = Some (ms, rest) /\
    m_whole m = concat ms /\
    m_group1 m = group1 r ms.
Proof.
  induction s as [|c s IH]; rewrite search_unfold.
  - destruct (exec r []) as [[ms rest]|] eqn:E; [|discriminate].
    intros H. inversion H; subst. exists [], ms, rest.
    pose proof E as Hs. apply exec_sound in Hs as [Hs _]. rewrite <- Hs.
    repeat split; assumption.
  - destruct (exec r (c :: s)) as [[ms rest]|] eqn:E.
    + intros H. inversion H; subst. exists [], ms, rest.
      pose proof E as Hs. apply exec_sound in Hs as [Hs _]. rewrite <- Hs.
      repeat split; assumption.
    + intros H. destruct (IH H) as (before & ms & rest & Hs & He & Hw & Hg).
      exists (c :: before), ms, rest. rewrite Hs. repeat split; assumption.
Qed.

Lemma Forall2_concat (P : ascii -> bool) (r : regex) (ms : list jsstring) :
  Forall (fun a => forall c, a_class a c = true -> P c = true) r ->
  Forall2 (fun a m => forallb (a_class a) m = true) r ms ->
  forallb P (concat ms) = true.
Proof.
  intros Hr H. induction H as [|a m r ms Hm _ IH]; [reflexivity|].
  inversion Hr as [|a' r' Ha Hr']; subst.
  cbn [concat]. rewrite forallb_app, (IH Hr'), andb_true_r.
  rewrite forallb_forall in *. intros c Hc. apply Ha. now apply Hm.
Qed.

(** ** The link of an alert *)

(** No atom of the pattern of a link takes whitespace. *)
Lemma re_url_no_space :
  Forall (fun a => forall c, a_class a c = true -> negb (isSpace c) = true)
    Automation.re_url.
Proof.
  assert (H : forallb (fun a => forallb (fun c =>
                implb (a_class a c) (negb (isSpace c))) all_ascii)
                Automation.re_url = true) by (vm_compute; reflexivity).
  rewrite forallb_forall in H. apply Forall_forall. intros a Ha c Hc.
  specialize (H a Ha). rewrite forallb_forall in H.
  specialize (H c (in_all_ascii c)). now rewrite Hc in H.
Qed.

Lemma re_url_split :
  Automation.re_url
  = map (fun c => one (chr_i c)) (str "http")
    ++ ([opt (chr_i "s")] ++ lit_i "://"
        ++ [plus (neg (fun c => isSpace c || is_char 10 c))]).
Proof. reflexivity. Qed.

Lemma starts_with_ci_app (pat s t : jsstring) :
  starts_with_ci pat (s ++ t) = true -> length pat <= length s ->
  starts_with_ci pat s = true.
Proof.
  revert s. induction pat as [|p pat IH]; intros s H Hlen; [reflexivity|].
  destruct s as [|c s]; [cbn in Hlen; lia|].
  cbn [app starts_with_ci] in *. apply andb_true_iff in H as [H1 H2].
  rewrite H1. apply IH; [exact H2 | cbn in Hlen; lia].
Qed.

(** A match of the pattern of a link holds no whitespace and starts with
    "http", in whatever letter case. *)
Lemma url_match (s : jsstring) (m : match_result) :
  search Automation.re_url s = Some m ->
  forallb (fun c => negb (isSpace c)) (m_whole m) = true /\
  starts_with_ci (str "http") (m_whole m) = true /\
  exists before rest, s = before ++ m_whole m ++ rest.
Proof.
  intros H. apply search_sound in H as (before & ms & rest & Hs & He & Hw & _).
  pose proof He as Hall. apply exec_sound in Hall as [_ Hall].
  rewrite Hw. split; [|split].
  - exact (@Forall2_concat _ _ _ re_url_no_space Hall).
  - apply (@starts_with_ci_app _ _ rest).
    + apply (@exec_lit_i_inv (str "http")
               ([opt (chr_i "s")] ++ lit_i "://"
                ++ [plus (neg (fun c => isSpace c || is_char 10 c))])).
      rewrite <- re_url_split, He. discriminate.
    + rewrite re_url_split in He.
      cbn [str list_ascii_of_string map app] in He.
      remember (concat ms ++ rest) as s0 eqn:Es0. clear Es0.
      do 4 (rewrite exec_one_cons in He;
            destruct s0 as [|? s0]; [discriminate|];
            match type of He with
            | context [chr_i ?x ?y] => destruct (chr_i x y); [|discriminate]
            end).
      match type of He with
      | context [exec ?r s0] => destruct (exec r s0) as [[ms' rest']|]
      end; [|discriminate].
      inversion He; subst. cbn. lia.
  - now exists before, rest.
Qed.

(** X26.  The link that [parseAlert] reads is empty, or it holds no whitespace,
    starts with "http" in whatever letter case, and stands in the text of
    the message, or in its HTML part when the text has no link. *)
Theorem alert_url_is_a_link_of_the_message (email : Email) (alert : Alert) :
  Automation.parseAlert email = inr alert ->
  forallb (fun c => negb (isSpace c)) (al_url alert) = true /\
  (al_url alert = [] \/
   starts_with_ci (str "http") (al_url alert) = true /\
   exists before rest,
     Automation.or_empty (e_text email) = before ++ al_url alert ++ rest \/
     (search Automation.re_url (Automation.or_empty (e_text email)) = None /\
      Automation.or_empty (e_html email) = before ++ al_url alert ++ rest)).
Proof.
  unfold Automation.parseAlert. destruct (e_subject email); [|discriminate].
  intros H. inversion H; subst alert; clear H. cbn [al_url].
  fold (Automation.or_empty (e_text email)) (Automation.or_empty (e_html email)).
  destruct (search Automation.re_url (Automation.or_empty (e_text email))) as [m|] eqn:Et.
  - destruct (@url_match _ _ Et) as (Hn & Hh & before & rest & Hs).
    split; [exact Hn|]. right. split; [exact Hh|].
    exists before, rest. now left.
  - destruct (search Automation.re_url (Automation.or_empty (e_html email))) as [m|] eqn:Eh.
    + destruct (@url_match _ _ Eh) as (Hn & Hh & before & rest & Hs).
      split; [exact Hn|]. right. split; [exact Hh|].
      exists before, rest. right. now split.
    + split; [reflexivity | now left].
Qed.

Lemma alert_url_is_a_link_of_the_message_witness :
  forallb (fun c => negb (isSpace c)) (al_url Scenes.linked_alert) = true /\
  (al_url Scenes.linked_alert = [] \/
   starts_with_ci (str "http") (al_url Scenes.linked_alert) = true /\
   exists before rest,
     Automation.or_empty (e_text Scenes.linked_mail)
     = before ++ al_url Scenes.linked_alert ++ rest \/
     (search Automation.re_url (Automation.or_empty (e_text Scenes.linked_mail))
      = None /\
      Automation.or_empty (e_html Scenes.linked_mail)
      = before ++ al_url Scenes.linked_alert ++ rest)).
Proof.
  exact (@alert_url_is_a_link_of_the_message Scenes.linked_mail
           Scenes.linked_alert eq_refl).
Defined.

(** ** Tags *)

Lemma gt_is_no_class (c : ascii) (t : jsstring) (r : regex) :
  neg (chr ">") c = true -> exec (one (chr ">") :: r) (c :: t) = None.
Proof.
  intros H. rewrite exec_one_cons. unfold neg in H.
  apply negb_true_iff in H. now rewrite H.
Qed.

(** The pattern of a tag matches where there is a tag, and takes it. *)
Lemma exec_tag (s : jsstring) :
  match exec Automation.re_tag s with
  | Some (ms, _) => Some (length (concat ms))
  | None => None
  end = tag_at s.
Proof.
  unfold Automation.re_tag, tag_at.
  cbn [lit str list_ascii_of_string map app].
  rewrite exec_one_cons. destruct s as [|c s]; [reflexivity|].
  destruct (chr "<" c); [|reflexivity].
  change (exec (plus (neg (chr ">")) :: [one (chr ">")]) s)
    with (match rep (neg (chr ">")) true (exec [one (chr ">")]) 1 None s with
          | Some (m, (ms, rest)) => Some (m :: ms, rest)
          | None => None
          end).
  rewrite rep_greedy_block.
  2:{ intros d t Hd. now apply gt_is_no_class. }
  cbn [le_max]. rewrite andb_true_r, exec_one.
  pose proof (dropWhile_head (neg (chr ">")) s) as Hhead.
  destruct (dropWhile (neg (chr ">")) s) as [|d t].
  - destruct (1 <=? _); reflexivity.
  - unfold neg in Hhead at 1. rewrite negb_involutive in Hhead. rewrite Hhead.
    destruct (1 <=? length (takeWhile (neg (chr ">")) s)); [|reflexivity].
    cbn [concat]. rewrite !length_app. cbn [length]. f_equal. lia.
Qed.

Lemma replace_tags (skip : nat) (s : jsstring) :
  replace_from Automation.re_tag [] skip s = strip_tags skip s.
Proof.
  induction s as [|c s IH] in skip |- *.
  - destruct skip; reflexivity.
  - cbn [replace_from strip_tags]. destruct skip as [|n]; [|apply IH].
    pose proof (exec_tag (c :: s)) as E.
    destruct (exec Automation.re_tag (c :: s)) as [[ms rest]|]; rewrite <- E.
    + destruct (length (concat ms)) as [|n] eqn:El.
      * exfalso. unfold tag_at in E. destruct (chr "<" c); [|discriminate].
        destruct (dropWhile _ s); [discriminate|].
        destruct (1 <=? _); discriminate.
      * cbn [app]. apply IH.
    + now rewrite IH.
Qed.

Lemma search_tag (s : jsstring) :
  search Automation.re_tag s = None <-> has_tag s = false.
Proof.
  induction s as [|c s IH]; rewrite search_unfold.
  - cbn. split; reflexivity.
  - pose proof (exec_tag (c :: s)) as E. cbn [has_tag].
    destruct (exec Automation.re_tag (c :: s)) as [[ms rest]|]; rewrite <- E.
    + split; discriminate.
    + exact IH.
Qed.

Lemma strip_tags_skip (k : nat) (s : jsstring) :
  strip_tags k s = strip_tags 0 (skipn k s).
Proof.
  revert s. induction k as [|k IH]; intros s; [reflexivity|].
  destruct s as [|c s]; [reflexivity|]. cbn [strip_tags skipn]. apply IH.
Qed.

Lemma strip_tags_all (P : ascii -> bool) (n : nat) :
  forall s, length s <= n ->
    forallb P s = true -> forallb P (strip_tags 0 s) = true.
Proof.
  induction n as [|n IH]; intros s Hlen H.
  - destruct s; [reflexivity | cbn in Hlen; lia].
  - destruct s as [|c s]; [reflexivity|].
    cbn [length] in Hlen. cbn [forallb] in H.
    apply andb_true_iff in H as [Hc Hs].
    cbn [strip_tags]. destruct (tag_at (c :: s)) as [[|k]|].
    + cbn [forallb]. rewrite Hc. apply IH; [lia | exact Hs].
    + rewrite strip_tags_skip. apply IH.
      * rewrite length_skipn. lia.
      * rewrite <- (firstn_skipn k s), forallb_app in Hs.
        now apply andb_true_iff in Hs as [_ Hs].
    + cbn [forallb]. rewrite Hc. apply IH; [lia | exact Hs].
Qed.

Lemma tag_at_pos (s : jsstring) (k : nat) :
  tag_at s = Some k -> 2 <= k.
Proof.
  unfold tag_at. destruct s as [|c s]; [discriminate|].
  destruct (chr "<" c); [|discriminate].
  destruct (dropWhile _ s); [discriminate|].
  destruct (1 <=? _); [|discriminate]. intros H. inversion H. lia.
Qed.

(** No tag starts at a [<] that had none behind it before the tags were
    removed. *)
Lemma no_tag_after (s : jsstring) (c : ascii) :
  tag_at (c :: s) = None -> tag_at (c :: strip_tags 0 s) = None.
Proof.
  unfold tag_at. destruct (chr "<" c); [|reflexivity].
  destruct s as [|d s]; [reflexivity|].
  destruct (neg (chr ">") d) eqn:Ed.
  - (* a character other than [>]: there is no [>] behind it *)
    cbn [takeWhile dropWhile length]. rewrite Ed. cbn [length Nat.leb].
    destruct (dropWhile (neg (chr ">")) s) as [|x t] eqn:Edrop; [|discriminate].
    intros _.
    assert (Hall : forallb (neg (chr ">")) (d :: s) = true).
    { cbn [forallb]. rewrite Ed.
      rewrite <- (takeWhile_dropWhile (neg (chr ">")) s), Edrop, app_nil_r.
      apply takeWhile_all. }
    apply (@strip_tags_all _ (length (d :: s))) in Hall; [|lia].
    now rewrite (dropWhile_all _ _ Hall).
  - (* a [>] right behind the [<] *)
    intros _. cbn [strip_tags].
    assert (Hd : tag_at (d :: s) = None).
    { unfold tag_at. unfold neg in Ed. apply negb_false_iff in Ed.
      unfold chr in *. apply Ascii.eqb_eq in Ed. subst d. reflexivity. }
    rewrite Hd. cbn [takeWhile dropWhile]. rewrite Ed. reflexivity.
Qed.

Lemma strip_tags_clean (n : nat) :
  forall s, length s <= n -> has_tag (strip_tags 0 s) = false.
Proof.
  induction n as [|n IH]; intros s Hlen.
  - destruct s; [reflexivity | cbn in Hlen; lia].
  - destruct s as [|c s]; [reflexivity|]. cbn [length] in Hlen.
    cbn [strip_tags]. destruct (tag_at (c :: s)) as [[|k]|] eqn:E.
    + apply tag_at_pos in E. lia.
    + rewrite strip_tags_skip. apply IH. rewrite length_skipn. lia.
    + cbn [has_tag]. rewrite (no_tag_after _ _ E). apply IH. lia.
Qed.

(** A tag at the start of a text is there with more text behind it. *)
Lemma tag_at_app (s b : jsstring) :
  tag_at s <> None -> tag_at (s ++ b) <> None.
Proof.
  unfold tag_at. destruct s as [|c s]; [congruence|]. cbn [app].
  destruct (chr "<" c); [|congruence].
  pose proof (takeWhile_dropWhile (neg (chr ">")) s) as Hs.
  pose proof (dropWhile_head (neg (chr ">")) s) as Hhead.
  destruct (dropWhile (neg (chr ">")) s) as [|d t] eqn:Ed; [congruence|].
  destruct (1 <=? length (takeWhile (neg (chr ">")) s)) eqn:El; [|congruence].
  intros _. rewrite <- Hs, <- app_assoc.
  assert (Ht : takeWhile (neg (chr ">"))
                 (takeWhile (neg (chr ">")) s ++ (d :: t) ++ b)
               = takeWhile (neg (chr ">")) s).
  { generalize (takeWhile_all (neg (chr ">")) s).
    generalize (takeWhile (neg (chr ">")) s) as r. intros r Hr.
    induction r as [|x r IH]; cbn [app takeWhile forallb] in *.
    - apply negb_true_iff in Hhead. now rewrite Hhead.
    - apply andb_true_iff in Hr as [Hx Hr]. now rewrite Hx, (IH Hr). }
  assert (Hd : dropWhile (neg (chr ">"))
                 (takeWhile (neg (chr ">")) s ++ (d :: t) ++ b)
               = (d :: t) ++ b).
  { generalize (takeWhile_all (neg (chr ">")) s).
    generalize (takeWhile (neg (chr ">")) s) as r. intros r Hr.
    induction r as [|x r IH]; cbn [app dropWhile forallb] in *.
    - apply negb_true_iff in Hhead. now rewrite Hhead.
    - apply andb_true_iff in Hr as [Hx Hr]. now rewrite Hx, (IH Hr). }
  rewrite Ht, Hd, El. cbn [app]. discriminate.
Qed.

Lemma has_tag_part (a s b : jsstring) :
  has_tag (a ++ s ++ b) = false -> has_tag s = false.
Proof.
  induction a as [|x a IH].
  - cbn [app]. induction s as [|c s IH]; [reflexivity|].
    cbn [app has_tag].
    destruct (tag_at (c :: s)) eqn:E.
    + assert (Hne : tag_at (c :: s) <> None) by (rewrite E; discriminate).
      apply (@tag_at_app _ b) in Hne. cbn [app] in Hne.
      destruct (tag_at (c :: s ++ b)); [discriminate | congruence].
    + destruct (tag_at (c :: s ++ b)); [discriminate | exact IH].
  - cbn [app has_tag]. destruct (tag_at (x :: a ++ s ++ b)); [discriminate|].
    exact IH.
Qed.

(** What is read from between two tags of the HTML part, with its own
    tags removed and trimmed, holds no tag. *)
Lemma stripped_text_clean (g : jsstring) :
  search Automation.re_tag (trim (replaceAll Automation.re_tag [] g)) = None.
Proof.
  apply search_tag. unfold replaceAll. rewrite replace_tags.
  destruct (trim_part (strip_tags 0 g)) as [(a & b & Hpart) _].
  apply (@has_tag_part a _ b). rewrite <- Hpart.
  apply (@strip_tags_clean (length g)). lia.
Qed.

(** X27.  The title and the snippet of an alert, when they are read from the
    HTML part of the message, hold no tag: the pattern of a tag matches
    nowhere in them. *)
Theorem alert_title_and_snippet_hold_no_tag (email : Email) (alert : Alert) :
  Automation.parseAlert email = inr alert ->
  (search Automation.re_h3 (Automation.or_empty (e_html email)) <> None ->
   search Automation.re_tag (al_title alert) = None) /\
  (search Automation.re_p (Automation.or_empty (e_html email)) <> None ->
   search Automation.re_tag (al_snippet alert) = None).
Proof.
  unfold Automation.parseAlert. destruct (e_subject email); [|discriminate].
  intros H. inversion H; subst alert; clear H. cbn [al_title al_snippet].
  fold (Automation.or_empty (e_html email)).
  destruct (Automation.or_empty (e_html email)) as [|c html] eqn:Eh.
  - split; intros Hno; exfalso; apply Hno; reflexivity.
  - cbn [Automation.nonempty]. split; intros Hsome.
    + destruct (search Automation.re_h3 (c :: html)); [|congruence].
      apply stripped_text_clean.
    + destruct (search Automation.re_p (c :: html)); [|congruence].
      apply stripped_text_clean.
Qed.

Lemma alert_title_and_snippet_hold_no_tag_witness :
  search Automation.re_tag (al_title Scenes.linked_alert) = None /\
  search Automation.re_tag (al_snippet Scenes.linked_alert) = None.
Proof.
  destruct (@alert_title_and_snippet_hold_no_tag Scenes.linked_mail
              Scenes.linked_alert eq_refl) as [Ht Hs].
  split; [apply Ht | apply Hs]; vm_compute; discriminate.
Defined.

(** ** The query of an alert, whatever the subject *)

Lemma group1_class (P : ascii -> bool) (r : regex) (ms : list jsstring) :
  Forall (fun a => a_group a = true ->
                   forall c, a_class a c = true -> P c = true) r ->
  Forall2 (fun a m => forallb (a_class a) m = true) r ms ->
  forallb P (group1 r ms) = true.
Proof.
  intros Hr H. induction H as [|a m r ms Hm _ IH]; [reflexivity|].
  inversion Hr as [|a' r' Ha Hr']; subst.
  cbn [group1]. destruct (a_group a) eqn:Eg; [|now apply IH].
  rewrite forallb_forall in *. intros c Hc. apply Ha; [reflexivity|].
  now apply Hm.
Qed.

Lemma re_query_group :
  Forall (fun a => a_group a = true ->
                   forall c, a_class a c = true -> dot c = true)
    Automation.re_query.
Proof.
  unfold Automation.re_query. apply Forall_app. split.
  - apply Forall_forall. intros a Ha Hg. exfalso.
    unfold lit_i in Ha. apply in_map_iff in Ha as (c & <- & _). discriminate.
  - repeat constructor; cbn; intros; try discriminate; assumption.
Qed.

Lemma forallb_part (p : ascii -> bool) (a s b : jsstring) :
  forallb p (a ++ s ++ b) = true -> forallb p s = true.
Proof.
  rewrite !forallb_app. intros H.
  apply andb_true_iff in H as [_ H]. now apply andb_true_iff in H as [H _].
Qed.

(** X28.  Whatever the subject of a message, the query read from it is one line
    that does not start with whitespace: it holds no line terminator.  It
    is empty when the pattern matches nowhere in the subject. *)
Theorem alert_query_is_one_line (email : Email) (alert : Alert) :
  Automation.parseAlert email = inr alert ->
  forallb dot (al_query alert) = true /\
  starts_with_space (al_query alert) = false /\
  forall subject,
    e_subject email = Some subject ->
    search Automation.re_query subject = None -> al_query alert = [].
Proof.
  unfold Automation.parseAlert.
  destruct (e_subject email) as [subject|]; [|discriminate].
  intros H. inversion H; subst alert; clear H. cbn [al_query].
  destruct (search Automation.re_query subject) as [m|] eqn:E.
  - pose proof E as Hs.
    apply search_sound in Hs as (before & ms & rest & _ & He & _ & Hg).
    apply exec_sound in He as [_ Hall].
    pose proof (@group1_class dot _ _ re_query_group Hall) as Hdot.
    rewrite <- Hg in Hdot.
    destruct (trim_part (m_group1 m)) as [(a & b & Hpart) Hstart].
    split; [|split].
    + rewrite Hpart in Hdot. exact (forallb_part _ _ _ _ Hdot).
    + exact Hstart.
    + intros s Hs. inversion Hs; subst s. congruence.
  - repeat split.
Qed.

Lemma alert_query_is_one_line_witness :
  forallb dot (al_query Scenes.linked_alert) = true /\
  starts_with_space (al_query Scenes.linked_alert) = false /\
  forall subject,
    e_subject Scenes.linked_mail = Some subject ->
    search Automation.re_query subject = None ->
    al_query Scenes.linked_alert = [].
Proof.
  exact (@alert_query_is_one_line Scenes.linked_mail Scenes.linked_alert eq_refl).
Defined.
